(** * organize_assets: a shallow embedding of [scripts/organize_assets.py]

    The script reorganises per-animation, per-direction sprite frames into a
    four-direction layout.  Everything it does is reading and writing a
    directory tree, so the embedding consists of

    - a directory tree with the pathlib / shutil / PIL operations the script
      calls, each returning an error where Python raises;
    - a small monad threading the tree, the raised error and the printed
      lines through the script's functions;
    - the script's functions, one definition per [def], under the same name.

    Symbolic links, permissions, timestamps and the encoding of an image
    file are outside the model: a file is either a decodable image, given by
    its rows of pixels, a JSON document, given by the dumped value, or
    anything else. *)

From stdpp Require Import gmap strings list fin_maps sorting pretty.
From Stdlib Require Import String Ascii.

Set Warnings "-register-all,-clear-no-such-hyp".

Local Open Scope string_scope.
Local Open Scope list_scope.
Local Open Scope stdpp_scope.

(** ** Python values *)

(** [OSError] stands for every operating-system level failure the script can
    meet (FileNotFoundError, NotADirectoryError, IsADirectoryError,
    FileExistsError, shutil.SameFileError and PIL.UnidentifiedImageError are
    all subclasses of it). *)
Inductive error := OSError | KeyError.

Inductive result (A : Type) :=
| Ok (a : A)
| Raise (e : error).
Arguments Ok {A} a.
Arguments Raise {A} e.

(** An insertion-ordered [dict] with string keys. *)
Definition dict (V : Type) := list (string * V).

Fixpoint dict_get {V} (k : string) (d : dict V) : option V :=
  match d with
  | [] => None
  | (k', v) :: d' => if String.eqb k' k then Some v else dict_get k d'
  end.

(** [d[k] = v]: an existing key keeps its position, a new one goes last. *)
Fixpoint dict_set {V} (k : string) (v : V) (d : dict V) : dict V :=
  match d with
  | [] => [(k, v)]
  | (k', v') :: d' =>
      if String.eqb k' k then (k', v) :: d' else (k', v') :: dict_set k v d'
  end.

Definition dict_keys {V} (d : dict V) : list string := d.*1.
Definition dict_values {V} (d : dict V) : list V := d.*2.

(** [str.endswith]; [Path.glob("*.png")] selects the names it accepts. *)
Definition endswith (s suffix : string) : bool :=
  let n := String.length s in
  let k := String.length suffix in
  Nat.leb k n && String.eqb (String.substring (n - k) k s) suffix.

(** ** Manifest *)

Inductive json :=
| JString (s : string)
| JInt (n : nat)
| JList (l : list json)
| JObject (fields : list (string * json)).

Record dir_info := DirInfo {
  di_source : string;
  di_frames : nat;
  di_path : string
}.

Record anim_info := AnimInfo {
  ai_source : string;
  ai_directions : dict dir_info
}.

Record rot_info := RotInfo {
  ri_directions : list string;
  ri_path : string
}.

(** The per-character manifest.  A key the script has not assigned yet is
    [None]. *)
Record char_manifest := CharManifest {
  m_character : string;
  m_rotations : option rot_info;
  m_animations : option (dict anim_info);
  m_frame_totals : option (dict nat)
}.

Definition dir_info_json (d : dir_info) : json :=
  JObject [("source", JString (di_source d));
           ("frames", JInt (di_frames d));
           ("path", JString (di_path d))].

Definition anim_info_json (a : anim_info) : json :=
  JObject [("source", JString (ai_source a));
           ("directions",
            JObject (prod_map id dir_info_json <$> ai_directions a))].

Definition rot_info_json (r : rot_info) : json :=
  JObject [("directions", JList (JString <$> ri_directions r));
           ("path", JString (ri_path r))].

Definition opt_field {A} (k : string) (f : A → json) (o : option A)
    : list (string * json) :=
  match o with Some a => [(k, f a)] | None => [] end.

Definition manifest_json (m : char_manifest) : json :=
  JObject ([("character", JString (m_character m))]
           ++ opt_field "rotations" rot_info_json (m_rotations m)
           ++ opt_field "animations"
                (λ d, JObject (prod_map id anim_info_json <$> d))
                (m_animations m)
           ++ opt_field "frame_totals"
                (λ d, JObject (prod_map id JInt <$> d)) (m_frame_totals m)).

(** ** Directory tree *)

Definition pixel := Z.
Definition image := list (list pixel).

Inductive content :=
| Image (px : image)
| Json (doc : json)
| Blob (bytes : list Z).

Inductive node :=
| File (c : content)
| Dir (entries : gmap string node).

(** A path is the list of its components below the root. *)
Definition path := list string.

Fixpoint lookup_path (p : path) (fs : node) : option node :=
  match p with
  | [] => Some fs
  | x :: p' =>
      match fs with
      | Dir m => m !! x ≫= lookup_path p'
      | File _ => None
      end
  end.

(** [Path.exists] and [Path.is_dir]. *)
Definition exists_ (p : path) (fs : node) : bool :=
  bool_decide (is_Some (lookup_path p fs)).

Definition is_dir (p : path) (fs : node) : bool :=
  match lookup_path p fs with
  | Some (Dir _) => true
  | _ => false
  end.

(** [Path.mkdir(parents=True, exist_ok=...)]. *)
Fixpoint mkdir_p (exist_ok : bool) (p : path) (fs : node) : result node :=
  match p with
  | [] =>
      match fs with
      | Dir _ => if exist_ok then Ok fs else Raise OSError
      | File _ => Raise OSError
      end
  | x :: p' =>
      match fs with
      | File _ => Raise OSError
      | Dir m =>
          let made :=
            match m !! x with
            | Some child => mkdir_p exist_ok p' child
            | None => mkdir_p true p' (Dir ∅)
            end in
          match made with
          | Ok child' => Ok (Dir (<[x := child']> m))
          | Raise e => Raise e
          end
      end
  end.

(** Creating or truncating a regular file and writing [c] to it
    ([open(p, "w")], [Image.save], the destination side of a copy). *)
Fixpoint write_file (p : path) (c : content) (fs : node) : result node :=
  match p with
  | [] => Raise OSError
  | x :: p' =>
      match fs with
      | File _ => Raise OSError
      | Dir m =>
          match p' with
          | [] =>
              match m !! x with
              | Some (Dir _) => Raise OSError
              | _ => Ok (Dir (<[x := File c]> m))
              end
          | _ :: _ =>
              match m !! x with
              | None => Raise OSError
              | Some child =>
                  match write_file p' c child with
                  | Ok child' => Ok (Dir (<[x := child']> m))
                  | Raise e => Raise e
                  end
              end
          end
      end
  end.

(** [shutil.rmtree]: the path has to be an existing directory. *)
Fixpoint rmtree (p : path) (fs : node) : result node :=
  match p with
  | [] => Raise OSError
  | x :: p' =>
      match fs with
      | File _ => Raise OSError
      | Dir m =>
          match p' with
          | [] =>
              match m !! x with
              | Some (Dir _) => Ok (Dir (delete x m))
              | _ => Raise OSError
              end
          | _ :: _ =>
              match m !! x with
              | None => Raise OSError
              | Some child =>
                  match rmtree p' child with
                  | Ok child' => Ok (Dir (<[x := child']> m))
                  | Raise e => Raise e
                  end
              end
          end
      end
  end.

Definition read_file (p : path) (fs : node) : result content :=
  match lookup_path p fs with
  | Some (File c) => Ok c
  | _ => Raise OSError
  end.

(** [Path.name]. *)
Definition name (p : path) : string := default "" (last p).

(** The entries [d.glob("*.png")] selects: those of [d], of any kind, whose
    name ends in [.png]; none when [d] is not a directory. *)
Definition png_entries (d : path) (fs : node) : gmap string node :=
  match lookup_path d fs with
  | Some (Dir m) => filter (λ entry, endswith entry.1 ".png" = true) m
  | _ => ∅
  end.

(** [d.glob("*.png")], each path [d / n] given by its name [n], in the order
    the directory lists them. *)
Definition glob_png (d : path) (fs : node) : list string :=
  (map_to_list (png_entries d fs)).*1.

(** [any(d.glob("*.png"))]: a [Path] is always truthy. *)
Definition any_png (d : path) (fs : node) : bool :=
  match glob_png d fs with [] => false | _ :: _ => true end.

(** Python compares [str] by code point, which on UTF-8 encoded names is
    the byte-wise order of [String.leb]; paths of one directory compare as
    their names do. *)
Definition str_le (a b : string) : Prop := String.leb a b = true.

#[global] Instance str_le_dec a b : Decision (str_le a b).
Proof. unfold str_le. apply _. Defined.

Definition sorted (l : list string) : list string := merge_sort str_le l.

(** [shutil.copy2(src, dst)]. *)
Definition copy2 (src dst : path) (fs : node) : result node :=
  match lookup_path src fs with
  | Some (File c) =>
      let dst' := if is_dir dst fs then dst ++ [name src] else dst in
      if decide (src = dst') then Raise OSError else write_file dst' c fs
  | _ => Raise OSError
  end.

(** [img.transpose(Image.FLIP_LEFT_RIGHT)]. *)
Definition flip_left_right (img : image) : image := reverse <$> img.

(** ** The monad of the script

    A computation reads and changes the directory tree, may raise, and
    prints lines; the printed lines of an aborted run are not kept. *)

Definition M (A : Type) : Type := node → result (A * node * list string).

Definition ret {A} (a : A) : M A := λ fs, Ok (a, fs, []).

Definition bind {A B} (c : M A) (k : A → M B) : M B :=
  λ fs,
    match c fs with
    | Ok (a, fs', out) =>
        match k a fs' with
        | Ok (b, fs'', out') => Ok (b, fs'', out ++ out')
        | Raise e => Raise e
        end
    | Raise e => Raise e
    end.

Notation "'let*' x ':=' c 'in' k" := (bind c (λ x, k))
  (at level 10, x pattern, c at level 100, k at level 200).

Definition raise {A} (e : error) : M A := λ _, Raise e.

Definition print (line : string) : M unit := λ fs, Ok (tt, fs, [line]).

(** Reading the tree, and changing it. *)
Definition ask {A} (f : node → A) : M A := λ fs, Ok (f fs, fs, []).

Definition try {A} (f : node → result A) : M A :=
  λ fs, match f fs with Ok a => Ok (a, fs, []) | Raise e => Raise e end.

Definition update (f : node → result node) : M unit :=
  λ fs, match f fs with Ok fs' => Ok (tt, fs', []) | Raise e => Raise e end.

(** [for x in l: s = body x s], with the variables the loop assigns as [s]. *)
Fixpoint for_each {A S} (l : list A) (body : A → S → M S) (s : S) : M S :=
  match l with
  | [] => ret s
  | x :: l' => let* s' := body x s in for_each l' body s'
  end.

Definition for_ {A} (l : list A) (body : A → M unit) : M unit :=
  for_each l (λ x _, body x) tt.

(** ** Configuration *)

Definition BASE : path := ["Users"; "owen"; "CC workspace"; "Game"].
Definition SRC_CHARS : path := BASE ++ ["assets"; "characters"].
Definition OUT_DIR : path := BASE ++ ["src"; "assets"; "characters"].

Definition ANIM_MAP_DEFAULT : dict string :=
  [("idle", "breathing-idle");
   ("attack", "cross-punch");
   ("hit", "taking-punch");
   ("death", "falling-back-death");
   ("run", "running-6-frames");
   ("defense", "crouching");
   ("escape", "running-slide");
   ("idle-alt", "fight-stance-idle-8-frames")].

Definition ANIM_MAP_ARCHER : dict string :=
  dict_set "attack-melee" "cross-punch"
    (dict_set "attack" "fireball" ANIM_MAP_DEFAULT).

Definition CHARACTERS : dict (dict string) :=
  [("armored-warrior", ANIM_MAP_DEFAULT);
   ("archer", ANIM_MAP_ARCHER);
   ("knight", ANIM_MAP_DEFAULT)].

Definition FALLBACKS : dict (list string) :=
  [("south", ["south"; "south-west"; "west"]);
   ("west", ["west"; "south-west"]);
   ("north", ["north"; "north-west"; "north-east"; "west"])].

(** ** The script *)

(** [candidate_path.is_dir() and any(candidate_path.glob("*.png"))]. *)
Definition usable (candidate_path : path) (fs : node) : bool :=
  is_dir candidate_path fs && any_png candidate_path fs.

(** The [for candidate in chain] loop of [find_source_dir]. *)
Fixpoint first_usable (anim_base : path) (chain : list string) (fs : node)
    : option path :=
  match chain with
  | [] => None
  | candidate :: chain' =>
      let candidate_path := anim_base ++ [candidate] in
      if usable candidate_path fs then Some candidate_path
      else first_usable anim_base chain' fs
  end.

Definition find_source_dir (anim_base : path) (target_dir : string)
    (fs : node) : result (option path * bool) :=
  match dict_get target_dir FALLBACKS with
  | None => Raise KeyError
  | Some chain =>
      match first_usable anim_base chain fs with
      | Some candidate_path => Ok (Some candidate_path, false)
      | None =>
          let east_path := anim_base ++ ["east"] in
          if String.eqb target_dir "west" && usable east_path fs
          then Ok (Some east_path, true)
          else Ok (None, false)
      end
  end.

Definition mirror_image (src_path dst_path : path) : M unit :=
  let* img :=
    try (λ fs, match read_file src_path fs with
               | Ok (Image px) => Ok px
               | _ => Raise OSError
               end) in
  let mirrored := flip_left_right img in
  update (write_file dst_path (Image mirrored)).

(** Body of the [for frame in frames] loop of [copy_or_mirror_frames].  A
    frame is kept as its file name; the path is [src_dir / frame]. *)
Definition transfer_frame (src_dir dst_dir : path) (mirror : bool)
    (frame : string) : M unit :=
  let dst_file := dst_dir ++ [frame] in
  if mirror then mirror_image (src_dir ++ [frame]) dst_file
  else update (copy2 (src_dir ++ [frame]) dst_file).

Definition copy_or_mirror_frames (src_dir dst_dir : path) (mirror : bool)
    : M nat :=
  let* _ := update (mkdir_p true dst_dir) in
  let* frames := ask (λ fs, sorted (glob_png src_dir fs)) in
  let* _ := for_ frames (transfer_frame src_dir dst_dir mirror) in
  ret (List.length frames).

(** The [for fallback in FALLBACKS[direction]] search of [process_rotation]:
    the first fallback name whose [.png] exists under [rot_src]. *)
Definition rotation_fallback (rot_src : path) (chain : list string)
    (fs : node) : option string :=
  find (λ fallback, exists_ (rot_src ++ [fallback +:+ ".png"]) fs) chain.

(** Body of the [for direction in ["south", "west", "north"]] loop of
    [process_rotation]. *)
Definition process_rotation_direction (rot_src rot_dst : path)
    (direction : string) : M unit :=
  let src_file := rot_src ++ [direction +:+ ".png"] in
  let dst_file := rot_dst ++ [direction +:+ ".png"] in
  let* found := ask (exists_ src_file) in
  if found then update (copy2 src_file dst_file)
  else
    match dict_get direction FALLBACKS with
    | None => raise KeyError
    | Some chain =>
        let* alt := ask (rotation_fallback rot_src chain) in
        match alt with
        | Some fallback =>
            let* _ := print ("  rotation/" +:+ direction
                             +:+ ": using fallback " +:+ fallback) in
            update (copy2 (rot_src ++ [fallback +:+ ".png"]) dst_file)
        | None =>
            print ("  [WARN] rotation/" +:+ direction +:+ ": no source found")
        end
    end.

Definition process_rotation (char_name : string) (manifest : char_manifest)
    : M char_manifest :=
  let rot_src := SRC_CHARS ++ [char_name; "extracted"; "rotations"] in
  let rot_dst := OUT_DIR ++ [char_name; "rotations"] in
  let* primary := ask (is_dir rot_src) in
  let rot_src :=
    if primary then rot_src else SRC_CHARS ++ [char_name; "rotations"] in
  let* present := ask (is_dir rot_src) in
  if negb present then
    let* _ := print ("  [WARN] No rotations found for " +:+ char_name) in
    ret manifest
  else
    let* _ := update (mkdir_p true rot_dst) in
    let* _ := for_ ["south"; "west"; "north"]
                (process_rotation_direction rot_src rot_dst) in
    let west_file := rot_dst ++ ["west.png"] in
    let* west := ask (exists_ west_file) in
    let* _ :=
      if west then mirror_image west_file (rot_dst ++ ["east.png"])
      else print "  [WARN] rotation/east: no west source to mirror" in
    ret {| m_character := m_character manifest;
           m_rotations :=
             Some {| ri_directions := ["south"; "west"; "north"; "east"];
                     ri_path := "characters/" +:+ char_name
                                +:+ "/rotations" |};
           m_animations := m_animations manifest;
           m_frame_totals := m_frame_totals manifest |}.

(** The variables the direction loop of [process_animations] assigns:
    [anim_info["directions"]], [w_source_dir] and [w_mirrored]. *)
Record dir_loop := DirLoop {
  dl_directions : dict dir_info;
  w_source_dir : option path;
  w_mirrored : bool
}.

(** Body of the [for direction in ["south", "west", "north"]] loop of
    [process_animations]. *)
Definition process_animations_direction (char_name game_state : string)
    (anim_src anim_dst_base : path) (direction : string) (st : dir_loop)
    : M dir_loop :=
  let* (found, needs_mirror) := try (find_source_dir anim_src direction) in
  match found with
  | None =>
      let* _ := print ("  [MISS] " +:+ game_state +:+ "/" +:+ direction
                       +:+ ": no source available") in
      ret st
  | Some src_dir =>
      let src_name :=
        if needs_mirror then "mirror(" +:+ name src_dir +:+ ")"
        else name src_dir in
      let dst_dir := anim_dst_base ++ [game_state; direction] in
      let* frame_count := copy_or_mirror_frames src_dir dst_dir needs_mirror in
      let fallback_note :=
        if negb (String.eqb (name src_dir) direction) && negb needs_mirror
        then " (from " +:+ name src_dir +:+ ")"
        else if needs_mirror
             then " (mirrored from " +:+ name src_dir +:+ ")"
             else "" in
      let directions :=
        dict_set direction
          {| di_source := src_name;
             di_frames := frame_count;
             di_path := "characters/" +:+ char_name +:+ "/animations/"
                        +:+ game_state +:+ "/" +:+ direction |}
          (dl_directions st) in
      let west := String.eqb direction "west" in
      let status :=
        if String.eqb (name src_dir) direction then "✓"
        else "→" +:+ src_name in
      let* _ := print ("  " +:+ game_state +:+ "/" +:+ direction +:+ ": "
                       +:+ pretty frame_count +:+ " frames " +:+ status
                       +:+ fallback_note) in
      ret {| dl_directions := directions;
             w_source_dir := if west then Some src_dir else w_source_dir st;
             w_mirrored := if west then needs_mirror else w_mirrored st |}
  end.

(** The east step of [process_animations], after the direction loop. *)
Definition process_animations_east (char_name game_state : string)
    (anim_dst_base : path) (st : dir_loop) : M (dict dir_info) :=
  match w_source_dir st with
  | Some w_dir =>
      let dst_dir := anim_dst_base ++ [game_state; "east"] in
      let* frame_count :=
        if w_mirrored st then copy_or_mirror_frames w_dir dst_dir false
        else copy_or_mirror_frames w_dir dst_dir true in
      let directions :=
        dict_set "east"
          {| di_source := "mirror(west)";
             di_frames := frame_count;
             di_path := "characters/" +:+ char_name +:+ "/animations/"
                        +:+ game_state +:+ "/east" |}
          (dl_directions st) in
      let* _ := print ("  " +:+ game_state +:+ "/east: "
                       +:+ pretty frame_count
                       +:+ " frames (mirrored from west)") in
      ret directions
  | None =>
      let* _ := print ("  [MISS] " +:+ game_state
                       +:+ "/east: no west source to mirror") in
      ret (dl_directions st)
  end.

(** Body of the [for game_state, pixellab_name in anim_map.items()] loop;
    the loop assigns [manifest["animations"]]. *)
Definition process_animations_state (char_name : string)
    (anim_src_base anim_dst_base : path) (item : string * string)
    (animations : dict anim_info) : M (dict anim_info) :=
  let '(game_state, pixellab_name) := item in
  let anim_src := anim_src_base ++ [pixellab_name] in
  let* present := ask (is_dir anim_src) in
  if negb present then
    let* _ := print ("  [SKIP] " +:+ game_state +:+ " (" +:+ pixellab_name
                     +:+ "): not found") in
    ret animations
  else
    let* st :=
      for_each ["south"; "west"; "north"]
        (process_animations_direction char_name game_state
           anim_src anim_dst_base)
        {| dl_directions := []; w_source_dir := None;
           w_mirrored := false |} in
    let* directions :=
      process_animations_east char_name game_state anim_dst_base st in
    ret (dict_set game_state
           {| ai_source := pixellab_name; ai_directions := directions |}
           animations).

(** [total_frames[d] += d_info["frames"]]. *)
Definition add_frames (item : string * dir_info) (total_frames : dict nat)
    : M (dict nat) :=
  match dict_get item.1 total_frames with
  | Some n => ret (dict_set item.1 (n + di_frames item.2) total_frames)
  | None => raise KeyError
  end.

(** The "Count total frames per direction" loops. *)
Definition count_total_frames (animations : dict anim_info) : M (dict nat) :=
  for_each (dict_values animations)
    (λ state_info, for_each (ai_directions state_info) add_frames)
    [("south", 0); ("west", 0); ("north", 0); ("east", 0)].

Definition process_animations (char_name : string) (anim_map : dict string)
    (manifest : char_manifest) : M char_manifest :=
  let anim_src_base := SRC_CHARS ++ [char_name; "extracted"; "animations"] in
  let anim_dst_base := OUT_DIR ++ [char_name; "animations"] in
  let* animations :=
    for_each anim_map
      (process_animations_state char_name anim_src_base anim_dst_base) [] in
  let* total_frames := count_total_frames animations in
  ret {| m_character := m_character manifest;
         m_rotations := m_rotations manifest;
         m_animations := Some animations;
         m_frame_totals := Some total_frames |}.

Definition newline : string := String "010" EmptyString.

(** ['=' * 60]. *)
Definition rule : string := String.concat "" (replicate 60 "=").

(** [f"{state:15s}"]. *)
Definition ljust (width : nat) (s : string) : string :=
  s +:+ String.concat "" (replicate (width - String.length s) " ").

(** One line of the final report of [main]. *)
Definition report_line (state : string) (info : anim_info) : string :=
  let dirs := dict_keys (ai_directions info) in
  let missing :=
    filter (λ d, d ∉ dirs) ["south"; "west"; "north"; "east"] in
  let status :=
    match missing with
    | [] => "✅ 4/4"
    | _ :: _ => "⚠️  " +:+ pretty (4 - List.length missing)
                +:+ "/4 (missing: " +:+ String.concat ", " missing +:+ ")"
    end in
  "  " +:+ ljust 15 state +:+ " " +:+ status.

(** [manifest.get("animations", {})]. *)
Definition animations_of (m : char_manifest) : dict anim_info :=
  default [] (m_animations m).

(** Body of the [for char_name, anim_map in CHARACTERS.items()] loop of
    [main]; the loop assigns [all_manifests]. *)
Definition main_character (item : string * dict string)
    (all_manifests : dict char_manifest) : M (dict char_manifest) :=
  let '(char_name, anim_map) := item in
  let* _ := print (newline +:+ rule) in
  let* _ := print ("Processing: " +:+ char_name) in
  let* _ := print rule in
  let manifest :=
    {| m_character := char_name; m_rotations := None;
       m_animations := None; m_frame_totals := None |} in
  let* manifest := process_rotation char_name manifest in
  let* manifest := process_animations char_name anim_map manifest in
  let manifest_path := OUT_DIR ++ [char_name; "manifest.json"] in
  let* _ := update (write_file manifest_path (Json (manifest_json manifest))) in
  let all_manifests := dict_set char_name manifest all_manifests in
  let anim_count := List.length (animations_of manifest) in
  let total_dirs :=
    sum_list ((λ a, List.length (ai_directions a))
              <$> dict_values (animations_of manifest)) in
  let* _ := print (newline +:+ "  Summary: " +:+ pretty anim_count
                   +:+ " animations, " +:+ pretty total_dirs
                   +:+ " direction slots filled") in
  ret all_manifests.

Definition main : M unit :=
  let* stale := ask (exists_ OUT_DIR) in
  let* _ := if stale then update (rmtree OUT_DIR) else ret tt in
  let* _ := update (mkdir_p false OUT_DIR) in
  let* all_manifests := for_each CHARACTERS main_character [] in
  let master_path := OUT_DIR ++ ["manifest.json"] in
  let* _ :=
    update (write_file master_path
              (Json (JObject (prod_map id manifest_json <$> all_manifests)))) in
  let* _ := print (newline +:+ rule) in
  let* _ := print "DONE! Output at: {OUT_DIR}" in
  let* _ := print rule in
  let* _ := print (newline +:+ "== FINAL REPORT ==" +:+ newline) in
  for_ all_manifests (λ '(char_name, m),
    let* _ := print (char_name +:+ ":") in
    let* _ := for_ (animations_of m) (λ '(state, info),
                print (report_line state info)) in
    print "").

(** * Properties of the directory tree *)

Section tree.
Implicit Types (p q : path) (fs : node) (m : gmap string node).

Lemma lookup_path_app p q fs :
  lookup_path (p ++ q) fs = lookup_path p fs ≫= lookup_path q.
Proof.
  revert fs. induction p as [|x p IH]; intros fs; simpl; [done|].
  destruct fs as [c|m]; [done|].
  destruct (m !! x) as [child|]; simpl; [apply IH|done].
Qed.

Lemma lookup_path_snoc p x fs m :
  lookup_path p fs = Some (Dir m) → lookup_path (p ++ [x]) fs = m !! x.
Proof.
  intros H. rewrite lookup_path_app, H. simpl.
  by destruct (m !! x).
Qed.

Lemma is_dir_lookup p fs :
  is_dir p fs = true ↔ ∃ m, lookup_path p fs = Some (Dir m).
Proof.
  unfold is_dir. destruct (lookup_path p fs) as [[c|m]|]; split;
    try done; try (intros [? ?]; done). eauto.
Qed.

Lemma exists_lookup p fs :
  exists_ p fs = true ↔ is_Some (lookup_path p fs).
Proof. unfold exists_. by rewrite bool_decide_eq_true. Qed.

(** Reading back what was written. *)
Lemma write_file_lookup p c fs fs' :
  write_file p c fs = Ok fs' → lookup_path p fs' = Some (File c).
Proof.
  revert fs fs'. induction p as [|x p IH]; intros fs fs'; simpl; [done|].
  destruct fs as [c0|m]; [done|].
  destruct p as [|y p].
  - destruct (m !! x) as [[?|?]|]; intros [= <-]; simpl;
      by rewrite lookup_insert_eq.
  - destruct (m !! x) as [child|]; [|done].
    destruct (write_file (y :: p) c child) as [child'|] eqn:E; [|done].
    intros [= <-]. simpl lookup_path at 1. rewrite lookup_insert_eq.
    simpl. by apply IH in E.
Qed.

(** A write changes what is found at the written path and at the
    directories above it, nowhere else. *)
Lemma write_file_frame p c fs fs' q :
  write_file p c fs = Ok fs' → ¬ q `prefix_of` p →
  lookup_path q fs' = lookup_path q fs.
Proof.
  revert fs fs' q. induction p as [|x p IH]; intros fs fs' q; simpl; [done|].
  destruct fs as [c0|m]; [done|].
  intros Hw Hq. destruct q as [|y q]; [destruct Hq; apply prefix_nil|].
  destruct p as [|z p].
  - destruct (decide (x = y)) as [->|Hne].
    + assert (lookup_path (y :: q) (Dir m) = None) as ->.
      { destruct q as [|y' q]; [destruct Hq; done|].
        simpl. destruct (m !! y) as [[?|?]|] eqn:E; simplify_eq; done. }
      destruct q as [|y' q]; [destruct Hq; done|].
      destruct (m !! y) as [[?|?]|]; simplify_eq; simpl;
        by rewrite lookup_insert_eq.
    + destruct (m !! x) as [[?|?]|]; simplify_eq; simpl;
        by rewrite lookup_insert_ne.
  - destruct (m !! x) as [child|] eqn:Ex; [|done].
    destruct (write_file (z :: p) c child) as [child'|] eqn:E; [|done].
    simplify_eq. simpl lookup_path.
    destruct (decide (x = y)) as [->|Hne].
    + rewrite lookup_insert_eq, Ex. simpl. eapply IH; [done|].
      intros Hpre. apply Hq. by apply prefix_cons.
    + by rewrite lookup_insert_ne.
Qed.

Lemma write_file_is_dir p c fs fs' q :
  write_file p c fs = Ok fs' → is_dir q fs = true → is_dir q fs' = true.
Proof.
  intros Hw Hd. destruct (decide (q `prefix_of` p)) as [Hpre|Hpre].
  - revert fs fs' q Hw Hd Hpre.
    induction p as [|x p IH]; intros fs fs' q; simpl; [done|].
    destruct fs as [c0|m]; [done|]. intros Hw Hd Hpre.
    destruct q as [|y q].
    { destruct p as [|z p];
        [destruct (m !! x) as [[?|?]|]|destruct (m !! x);
          [destruct (write_file _ _ _)|]]; by simplify_eq. }
    apply prefix_cons_inv_1 in Hpre as Hxy. subst y.
    apply prefix_cons_inv_2 in Hpre.
    apply is_dir_lookup in Hd as [md Hd]. simpl in Hd.
    destruct (m !! x) as [child|] eqn:Ex; [|done]. simpl in Hd.
    destruct p as [|z p].
    + apply prefix_nil_inv in Hpre. subst q. simpl in Hd.
      destruct child; by simplify_eq.
    + destruct (write_file (z :: p) c child) as [child'|] eqn:E; [|done].
      simplify_eq. unfold is_dir. simpl. rewrite lookup_insert_eq. simpl.
      eapply (IH child child' q) in E; [exact E| |done].
      unfold is_dir. by rewrite Hd.
  - unfold is_dir in *. by erewrite write_file_frame.
Qed.

Lemma mkdir_p_frame e p fs fs' q :
  mkdir_p e p fs = Ok fs' → ¬ q `prefix_of` p →
  lookup_path q fs' = lookup_path q fs.
Proof.
  revert e fs fs' q. induction p as [|x p IH]; intros e fs fs' q; simpl.
  { intros Hm _. destruct fs; [done|]. destruct e; by simplify_eq. }
  destruct fs as [c0|m]; [done|]. intros Hm Hq.
  destruct q as [|y q]; [destruct Hq; apply prefix_nil|].
  assert (¬ (x = y ∧ q `prefix_of` p)) as Hq'.
  { intros [-> Hpre]. apply Hq. by apply prefix_cons. }
  destruct (m !! x) as [child|] eqn:Ex.
  - destruct (mkdir_p e p child) as [child'|] eqn:E; [|done].
    simplify_eq. simpl. destruct (decide (x = y)) as [->|Hne].
    + rewrite lookup_insert_eq, Ex. simpl. eapply IH; [done|]. tauto.
    + by rewrite lookup_insert_ne.
  - destruct (mkdir_p true p (Dir ∅)) as [child'|] eqn:E; [|done].
    simplify_eq. simpl. destruct (decide (x = y)) as [->|Hne].
    + rewrite lookup_insert_eq, Ex. simpl.
      erewrite IH; [|done|tauto].
      destruct q as [|z q]; [destruct Hq'; split; [done|apply prefix_nil]|].
      simpl. by rewrite lookup_empty.
    + by rewrite lookup_insert_ne.
Qed.

Lemma mkdir_p_is_dir_prefix e p fs fs' q :
  mkdir_p e p fs = Ok fs' → q `prefix_of` p → is_dir q fs' = true.
Proof.
  revert e fs fs' q. induction p as [|x p IH]; intros e fs fs' q; simpl.
  - intros Hm ->%prefix_nil_inv.
    destruct fs; [done|]. destruct e; by simplify_eq.
  - destruct fs as [c0|m]; [done|]. intros Hm Hpre.
    assert (∃ child' e' child, mkdir_p e' p child = Ok child'
              ∧ fs' = Dir (<[x := child']> m)) as (child' & e' & ch & E & ->).
    { destruct (m !! x) as [child|];
        [destruct (mkdir_p e p child) eqn:E
        |destruct (mkdir_p true p (Dir ∅)) eqn:E]; simplify_eq; eauto. }
    destruct q as [|y q]; [done|].
    apply prefix_cons_inv_1 in Hpre as Hxy. subst y.
    apply prefix_cons_inv_2 in Hpre.
    unfold is_dir. simpl. rewrite lookup_insert_eq. simpl.
    by apply (IH _ _ _ _ E).
Qed.

Lemma mkdir_p_is_dir e p fs fs' q :
  mkdir_p e p fs = Ok fs' → is_dir q fs = true → is_dir q fs' = true.
Proof.
  intros Hm Hd. destruct (decide (q `prefix_of` p)) as [Hpre|Hpre].
  - by eapply mkdir_p_is_dir_prefix.
  - unfold is_dir in *. by erewrite mkdir_p_frame.
Qed.

(** [mkdir] of a path that is not there leaves an empty directory. *)
Lemma mkdir_p_fresh e p fs fs' :
  lookup_path p fs = None → mkdir_p e p fs = Ok fs' →
  lookup_path p fs' = Some (Dir ∅).
Proof.
  revert e fs fs'. induction p as [|x p IH]; intros e fs fs'; simpl; [done|].
  destruct fs as [c0|m]; [done|]. intros Hl Hm.
  destruct (m !! x) as [child|] eqn:Ex; simpl in Hl.
  - destruct (mkdir_p e p child) as [child'|] eqn:E; [|done].
    simplify_eq. simpl. rewrite lookup_insert_eq. simpl. by eapply IH.
  - destruct (mkdir_p true p (Dir ∅)) as [child'|] eqn:E; [|done].
    simplify_eq. simpl. rewrite lookup_insert_eq. simpl.
    destruct p as [|y p]; [simpl in E; by simplify_eq|].
    eapply IH; [|done]. simpl. by rewrite lookup_empty.
Qed.

(** [mkdir(exist_ok=True)] of an existing directory changes nothing. *)
Lemma mkdir_p_exists p fs :
  is_dir p fs = true → mkdir_p true p fs = Ok fs.
Proof.
  revert fs. induction p as [|x p IH]; intros fs; simpl.
  - unfold is_dir. simpl. by destruct fs.
  - destruct fs as [c0|m]; [done|]. unfold is_dir. simpl.
    destruct (m !! x) as [child|] eqn:Ex; [|done]. simpl. intros Hd.
    rewrite IH by done. by rewrite insert_id.
Qed.
End tree.

(** ** What an operation can change *)

(** Neither path is above the other one. *)
Definition diverge (p q : path) : Prop :=
  ¬ p `prefix_of` q ∧ ¬ q `prefix_of` p.

(** [fs'] differs from [fs] at most at [P], above it and below it, and every
    directory of [fs] is still a directory of [fs']. *)
Record changed_under (P : path) (fs fs' : node) : Prop := ChangedUnder {
  cu_frame : ∀ q, diverge P q → lookup_path q fs' = lookup_path q fs;
  cu_dirs : ∀ q, is_dir q fs = true → is_dir q fs' = true
}.

Section changed.
Implicit Types (p q P : path) (fs : node).

Lemma diverge_sym p q : diverge p q → diverge q p.
Proof. unfold diverge. tauto. Qed.

Lemma diverge_app_l p q r : diverge p q → diverge (p ++ r) q.
Proof.
  intros [H1 H2]. split.
  - intros [k ->]. apply H1. rewrite <-(assoc_L (++)). by eexists.
  - intros Hq. destruct (prefix_weak_total p q (p ++ r)) as [?|?]; try done.
    by eexists.
Qed.

Lemma diverge_app p q r r' : diverge p q → diverge (p ++ r) (q ++ r').
Proof.
  intros H. apply diverge_app_l. apply diverge_sym, diverge_app_l.
  by apply diverge_sym.
Qed.

Lemma diverge_snoc p x y : x ≠ y → diverge (p ++ [x]) (p ++ [y]).
Proof.
  intros Hne.
  split; intros Hk%prefix_app_inv%prefix_cons_inv_1; by simplify_eq.
Qed.

Lemma changed_under_refl P fs : changed_under P fs fs.
Proof. by split. Qed.

Lemma changed_under_trans P fs1 fs2 fs3 :
  changed_under P fs1 fs2 → changed_under P fs2 fs3 →
  changed_under P fs1 fs3.
Proof.
  intros [F1 D1] [F2 D2]. split.
  - intros q Hq. by rewrite F2, F1.
  - intros q Hq. by apply D2, D1.
Qed.

Lemma changed_under_weaken P r fs fs' :
  changed_under (P ++ r) fs fs' → changed_under P fs fs'.
Proof.
  intros [F D]. split; [|done].
  intros q Hq. apply F. by apply diverge_app_l.
Qed.

Lemma write_file_changed p c fs fs' :
  write_file p c fs = Ok fs' → changed_under p fs fs'.
Proof.
  intros Hw. split.
  - intros q [_ Hq]. by eapply write_file_frame.
  - intros q. by eapply write_file_is_dir.
Qed.

Lemma mkdir_p_changed e p fs fs' :
  mkdir_p e p fs = Ok fs' → changed_under p fs fs'.
Proof.
  intros Hm. split.
  - intros q [_ Hq]. by eapply mkdir_p_frame.
  - intros q. by eapply mkdir_p_is_dir.
Qed.

Lemma copy2_changed src dst fs fs' :
  copy2 src dst fs = Ok fs' → changed_under dst fs fs'.
Proof.
  unfold copy2. destruct (lookup_path src fs) as [[c|?]|]; try done.
  case_decide; [done|]. intros Hw%write_file_changed.
  destruct (is_dir dst fs); [|done]. by eapply changed_under_weaken.
Qed.
End changed.

(** ** Reasoning about computations *)

Section monad.
Context {A B : Type}.

Lemma bind_Ok (c : M A) (k : A → M B) fs b fs2 out :
  bind c k fs = Ok (b, fs2, out) →
  ∃ a fs1 o1 o2,
    c fs = Ok (a, fs1, o1) ∧ k a fs1 = Ok (b, fs2, o2) ∧ out = o1 ++ o2.
Proof.
  unfold bind. destruct (c fs) as [[[a fs1] o1]|]; [|done].
  destruct (k a fs1) as [[[b' fs2'] o2]|] eqn:E; [|done].
  intros [= <- <- <-]. by exists a, fs1, o1, o2.
Qed.

Lemma ret_Ok (a a' : A) fs fs' out :
  ret a fs = Ok (a', fs', out) → a' = a ∧ fs' = fs ∧ out = [].
Proof. by intros [= <- <- <-]. Qed.

Lemma ask_Ok (f : node → A) a fs fs' out :
  ask f fs = Ok (a, fs', out) → a = f fs ∧ fs' = fs ∧ out = [].
Proof. by intros [= <- <- <-]. Qed.

Lemma try_Ok (f : node → result A) a fs fs' out :
  try f fs = Ok (a, fs', out) → f fs = Ok a ∧ fs' = fs ∧ out = [].
Proof. unfold try. destruct (f fs); [|done]. by intros [= <- <- <-]. Qed.
End monad.

Lemma print_Ok line u fs fs' out :
  print line fs = Ok (u, fs', out) → fs' = fs ∧ out = [line].
Proof. by intros [= <- <-]. Qed.

Lemma update_Ok f u fs fs' out :
  update f fs = Ok (u, fs', out) → f fs = Ok fs' ∧ out = [].
Proof. unfold update. destruct (f fs); [|done]. by intros [= <- <-]. Qed.

(** Splits a successful run into the runs of its steps. *)
Ltac run_step H :=
  lazymatch type of H with
  | bind _ _ _ = Ok _ =>
      let a := fresh "a" in let fs := fresh "fs" in
      let o1 := fresh "o" in let o2 := fresh "o" in
      let H1 := fresh "Hrun" in let H2 := fresh "Hrun" in
      apply bind_Ok in H as (a & fs & o1 & o2 & H1 & H2 & ->);
      run_step H1; run_step H2
  | ret _ _ = Ok _ => apply ret_Ok in H as (-> & -> & ->)
  | ask _ _ = Ok _ => apply ask_Ok in H as (-> & -> & ->)
  | print _ _ = Ok _ => apply print_Ok in H as (-> & ->)
  | raise _ _ = Ok _ => discriminate H
  | _ => idtac
  end.

(** A loop that keeps an invariant of its variables and the tree. *)
Lemma for_each_invariant {A S} (I : S → node → Prop) (l : list A)
    (body : A → S → M S) s fs s' fs' out :
  (∀ x s1 fs1 s2 fs2 o, x ∈ l → I s1 fs1 →
     body x s1 fs1 = Ok (s2, fs2, o) → I s2 fs2) →
  I s fs → for_each l body s fs = Ok (s', fs', out) → I s' fs'.
Proof.
  revert s fs out. induction l as [|x l IH]; intros s fs out Hbody HI Hrun.
  - simpl in Hrun. run_step Hrun. done.
  - simpl in Hrun. run_step Hrun.
    eapply IH; [| |done].
    + intros. eapply Hbody; [by right|done..].
    + eapply Hbody; [by left|done..].
Qed.

(** Computations that write only under [P]. *)
Definition writes_under {A} (P : path) (c : M A) : Prop :=
  ∀ fs a fs' out, c fs = Ok (a, fs', out) → changed_under P fs fs'.

Section writes.
Context {A B : Type}.
Implicit Types (P : path).

Lemma writes_ret P (a : A) : writes_under P (ret a).
Proof. intros fs a' fs' out H. run_step H. apply changed_under_refl. Qed.

Lemma writes_ask P (f : node → A) : writes_under P (ask f).
Proof. intros fs a' fs' out H. run_step H. apply changed_under_refl. Qed.

Lemma writes_try P (f : node → result A) : writes_under P (try f).
Proof.
  intros fs a' fs' out (_ & -> & _)%try_Ok. apply changed_under_refl.
Qed.

Lemma writes_raise P e : writes_under P (raise (A := A) e).
Proof. intros fs a' fs' out H. done. Qed.

Lemma writes_bind P (c : M A) (k : A → M B) :
  writes_under P c → (∀ a, writes_under P (k a)) → writes_under P (bind c k).
Proof.
  intros Hc Hk fs b fs' out H. run_step H.
  eapply changed_under_trans; [by eapply Hc|by eapply Hk].
Qed.

Lemma writes_weaken P r (c : M A) :
  writes_under (P ++ r) c → writes_under P c.
Proof. intros Hc fs a fs' out H. eapply changed_under_weaken, Hc, H. Qed.

End writes.

Lemma writes_for_each {A S} P (l : list A) (body : A → S → M S) s :
  (∀ x s, writes_under P (body x s)) → writes_under P (for_each l body s).
Proof.
  intros Hbody. revert s. induction l as [|x l IH]; intros s; simpl.
  - apply writes_ret.
  - apply writes_bind; [apply Hbody|apply IH].
Qed.

Lemma writes_print P line : writes_under P (print line).
Proof. intros fs a' fs' out H. run_step H. apply changed_under_refl. Qed.

Lemma writes_update P f :
  (∀ fs fs', f fs = Ok fs' → changed_under P fs fs') →
  writes_under P (update f).
Proof. intros Hf fs a' fs' out (H & _)%update_Ok. by apply Hf. Qed.

Lemma writes_for_ {A} P (l : list A) (body : A → M unit) :
  (∀ x, writes_under P (body x)) → writes_under P (for_ l body).
Proof. intros Hbody. apply writes_for_each. intros x _. apply Hbody. Qed.

(** Discharges [writes_under] goals along the structure of a computation,
    leaving the steps it does not know. *)
Ltac writes_auto :=
  repeat
    lazymatch goal with
    | |- writes_under _ (bind _ _) => apply writes_bind; [|intros ?]
    | |- writes_under _ (ret _) => apply writes_ret
    | |- writes_under _ (print _) => apply writes_print
    | |- writes_under _ (ask _) => apply writes_ask
    | |- writes_under _ (try _) => apply writes_try
    | |- writes_under _ (raise _) => apply writes_raise
    | |- writes_under _ (if ?b then _ else _) => destruct b
    | |- writes_under _ (match ?o with _ => _ end) => destruct o
    end.

(** * Where the script writes *)

Lemma mirror_image_writes src_path dst_path :
  writes_under dst_path (mirror_image src_path dst_path).
Proof.
  unfold mirror_image. writes_auto.
  apply writes_update. intros. by eapply write_file_changed.
Qed.

Lemma copy_or_mirror_frames_writes src_dir dst_dir mirror :
  writes_under dst_dir (copy_or_mirror_frames src_dir dst_dir mirror).
Proof.
  unfold copy_or_mirror_frames. writes_auto.
  - apply writes_update. intros. by eapply mkdir_p_changed.
  - apply writes_for_. intros frame. apply (writes_weaken _ [frame]).
    unfold transfer_frame. destruct mirror; [apply mirror_image_writes|].
    apply writes_update. intros. by eapply copy2_changed.
Qed.

Lemma process_rotation_direction_writes rot_src rot_dst direction :
  writes_under rot_dst (process_rotation_direction rot_src rot_dst direction).
Proof.
  unfold process_rotation_direction. writes_auto;
    apply (writes_weaken _ [direction +:+ ".png"]), writes_update;
    intros; by eapply copy2_changed.
Qed.

Lemma process_rotation_writes char_name manifest :
  writes_under (OUT_DIR ++ [char_name; "rotations"])
    (process_rotation char_name manifest).
Proof.
  unfold process_rotation. writes_auto.
  - apply writes_update. intros. by eapply mkdir_p_changed.
  - apply writes_for_. intros d. apply process_rotation_direction_writes.
  - apply (writes_weaken _ ["east.png"]), mirror_image_writes.
Qed.

Lemma process_animations_direction_writes
    char_name game_state anim_src anim_dst_base direction st :
  writes_under (anim_dst_base ++ [game_state])
    (process_animations_direction char_name game_state anim_src
       anim_dst_base direction st).
Proof.
  unfold process_animations_direction. writes_auto.
  apply (writes_weaken _ [direction]). rewrite <-(assoc_L (++)).
  apply copy_or_mirror_frames_writes.
Qed.

Lemma process_animations_east_writes char_name game_state anim_dst_base st :
  writes_under (anim_dst_base ++ [game_state])
    (process_animations_east char_name game_state anim_dst_base st).
Proof.
  unfold process_animations_east. writes_auto;
    apply (writes_weaken _ ["east"]); rewrite <-(assoc_L (++));
    apply copy_or_mirror_frames_writes.
Qed.

Lemma process_animations_state_writes
    char_name anim_src_base anim_dst_base item animations :
  writes_under (anim_dst_base ++ [item.1])
    (process_animations_state char_name anim_src_base anim_dst_base
       item animations).
Proof.
  destruct item as [game_state nm]. unfold process_animations_state.
  cbn [fst]. writes_auto.
  - apply writes_for_each. intros d st.
    apply process_animations_direction_writes.
  - apply process_animations_east_writes.
Qed.

Lemma add_frames_pure P item total_frames :
  writes_under P (add_frames item total_frames).
Proof. unfold add_frames. writes_auto. Qed.

Lemma count_total_frames_writes P animations :
  writes_under P (count_total_frames animations).
Proof.
  unfold count_total_frames. apply writes_for_each. intros info total.
  apply writes_for_each. intros d t. apply add_frames_pure.
Qed.

Lemma process_animations_writes char_name anim_map manifest :
  writes_under (OUT_DIR ++ [char_name; "animations"])
    (process_animations char_name anim_map manifest).
Proof.
  unfold process_animations. writes_auto.
  - apply writes_for_each. intros item animations.
    apply (writes_weaken _ [item.1]), process_animations_state_writes.
  - apply count_total_frames_writes.
Qed.

Lemma main_character_writes item all_manifests :
  writes_under (OUT_DIR ++ [item.1]) (main_character item all_manifests).
Proof.
  destruct item as [char_name anim_map]. unfold main_character.
  cbn [fst]. writes_auto.
  - apply (writes_weaken _ ["rotations"]). rewrite <-(assoc_L (++)).
    apply process_rotation_writes.
  - apply (writes_weaken _ ["animations"]). rewrite <-(assoc_L (++)).
    apply process_animations_writes.
  - apply (writes_weaken _ ["manifest.json"]). rewrite <-(assoc_L (++)).
    apply writes_update. intros. by eapply write_file_changed.
Qed.

(** * Reading the source tree *)

(** Nothing at [p] or below it differs between the two trees. *)
Definition stable_below (p : path) (fs fs' : node) : Prop :=
  ∀ r, lookup_path (p ++ r) fs' = lookup_path (p ++ r) fs.

Section reads.
Implicit Types (p q d : path) (fs : node).

Lemma changed_under_stable P p fs fs' :
  changed_under P fs fs' → diverge P p → stable_below p fs fs'.
Proof.
  intros [F _] Hd r. apply F. by apply diverge_sym, diverge_app_l, diverge_sym.
Qed.

Lemma stable_below_refl p fs : stable_below p fs fs.
Proof. by intros r. Qed.

Lemma stable_below_trans p fs1 fs2 fs3 :
  stable_below p fs1 fs2 → stable_below p fs2 fs3 → stable_below p fs1 fs3.
Proof. intros H1 H2 r. by rewrite H2, H1. Qed.

Lemma stable_below_app p r fs fs' :
  stable_below p fs fs' → stable_below (p ++ r) fs fs'.
Proof. intros H r'. rewrite <-(assoc_L (++)). apply H. Qed.

Lemma stable_lookup p fs fs' :
  stable_below p fs fs' → lookup_path p fs' = lookup_path p fs.
Proof. intros H. specialize (H []). by rewrite (right_id_L [] (++)) in H. Qed.

Lemma stable_is_dir p fs fs' :
  stable_below p fs fs' → is_dir p fs' = is_dir p fs.
Proof. intros H%stable_lookup. unfold is_dir. by rewrite H. Qed.

Lemma stable_png_entries p fs fs' :
  stable_below p fs fs' → png_entries p fs' = png_entries p fs.
Proof. intros H%stable_lookup. unfold png_entries. by rewrite H. Qed.

Lemma stable_glob_png p fs fs' :
  stable_below p fs fs' → glob_png p fs' = glob_png p fs.
Proof. intros H. unfold glob_png. by rewrite (stable_png_entries _ _ _ H). Qed.

Lemma stable_usable p fs fs' :
  stable_below p fs fs' → usable p fs' = usable p fs.
Proof.
  intros H. unfold usable, any_png.
  by rewrite (stable_is_dir _ _ _ H), (stable_glob_png _ _ _ H).
Qed.

Lemma stable_first_usable p chain fs fs' :
  stable_below p fs fs' →
  first_usable p chain fs' = first_usable p chain fs.
Proof.
  intros H. induction chain as [|c chain IH]; simpl; [done|].
  by rewrite (stable_usable _ _ _ (stable_below_app _ [c] _ _ H)), IH.
Qed.

Lemma stable_find_source_dir p target fs fs' :
  stable_below p fs fs' →
  find_source_dir p target fs' = find_source_dir p target fs.
Proof.
  intros H. unfold find_source_dir.
  destruct (dict_get target FALLBACKS) as [chain|]; [|done].
  rewrite (stable_first_usable _ _ _ _ H).
  by rewrite (stable_usable _ _ _ (stable_below_app _ ["east"] _ _ H)).
Qed.

(** The selected entries, by path. *)
Lemma png_entries_lookup d fs n nd :
  png_entries d fs !! n = Some nd ↔
  lookup_path (d ++ [n]) fs = Some nd ∧ endswith n ".png" = true.
Proof.
  unfold png_entries. rewrite lookup_path_app.
  destruct (lookup_path d fs) as [[c|m]|]; simpl.
  - rewrite lookup_empty. split; [done|by intros [??]].
  - rewrite map_lookup_filter_Some. simpl.
    destruct (m !! n); simpl; naive_solver.
  - rewrite lookup_empty. split; [done|by intros [??]].
Qed.

Lemma elem_of_glob_png d fs n :
  n ∈ glob_png d fs ↔ is_Some (png_entries d fs !! n).
Proof.
  unfold glob_png. rewrite list_elem_of_fmap. split.
  - intros [[n' nd] [-> H%elem_of_map_to_list]]. by eexists.
  - intros [nd H]. exists (n, nd). by rewrite elem_of_map_to_list.
Qed.

Lemma NoDup_glob_png d fs : NoDup (glob_png d fs).
Proof. apply NoDup_fst_map_to_list. Qed.

Lemma length_glob_png d fs :
  List.length (glob_png d fs) = size (png_entries d fs).
Proof. unfold glob_png. by rewrite length_fmap, length_map_to_list. Qed.

Lemma any_png_true d fs :
  any_png d fs = true ↔ ∃ n, is_Some (png_entries d fs !! n).
Proof.
  unfold any_png. split.
  - destruct (glob_png d fs) as [|n l] eqn:E; [done|]. intros _.
    exists n. apply elem_of_glob_png. rewrite E. by left.
  - intros [n Hn%elem_of_glob_png].
    by destruct (glob_png d fs); [apply elem_of_nil in Hn|].
Qed.
End reads.

(** ** [sorted] *)

#[global] Instance str_le_total : Total str_le.
Proof. intros a b. apply String.leb_total. Qed.

Lemma sorted_Permutation l : sorted l ≡ₚ l.
Proof. apply merge_sort_Permutation. Qed.

Lemma sorted_Sorted l : Sorted str_le (sorted l).
Proof. apply (Sorted_merge_sort _). Qed.

Lemma elem_of_sorted l x : x ∈ sorted l ↔ x ∈ l.
Proof. by rewrite sorted_Permutation. Qed.

Lemma length_sorted l : List.length (sorted l) = List.length l.
Proof. by rewrite sorted_Permutation. Qed.

Lemma NoDup_sorted l : NoDup l → NoDup (sorted l).
Proof. by rewrite sorted_Permutation. Qed.

(** ** Loops without variables *)

Lemma for_nil_Ok {A} (body : A → M unit) u fs fs' out :
  for_ [] body fs = Ok (u, fs', out) → fs' = fs ∧ out = [].
Proof. unfold for_. simpl. intros H. by run_step H. Qed.

Lemma for_cons_Ok {A} (x : A) l (body : A → M unit) u fs fs' out :
  for_ (x :: l) body fs = Ok (u, fs', out) →
  ∃ fs1 o1 o2,
    body x fs = Ok (tt, fs1, o1) ∧ for_ l body fs1 = Ok (tt, fs', o2)
    ∧ out = o1 ++ o2.
Proof.
  unfold for_. simpl. intros H. run_step H.
  destruct a, u. by exists fs0, o, o0.
Qed.

(** * The frame copier *)

(** What a frame becomes in the destination. *)
Definition mirrored (nd : node) : node :=
  match nd with
  | File (Image px) => File (Image (flip_left_right px))
  | _ => nd
  end.

Definition transfer (mirror : bool) (nd : node) : node :=
  if mirror then mirrored nd else nd.

(** Every selected entry of the source can be transferred: it is a regular
    file, and a decodable image when it has to be mirrored. *)
Definition transferable (src_dir : path) (mirror : bool) (fs : node) : Prop :=
  ∀ f nd, png_entries src_dir fs !! f = Some nd →
    ∃ c, nd = File c ∧ (mirror = true → ∃ px, c = Image px).

Section copier.
Variables (src dst : path) (mirror : bool).
Hypothesis apart : diverge dst src.

Lemma transfer_frame_writes f :
  writes_under (dst ++ [f]) (transfer_frame src dst mirror f).
Proof.
  unfold transfer_frame. destruct mirror; [apply mirror_image_writes|].
  apply writes_update. intros. by eapply copy2_changed.
Qed.

Lemma transfer_frame_Ok f u fs fs' out :
  transfer_frame src dst mirror f fs = Ok (u, fs', out) →
  ∃ c, lookup_path (src ++ [f]) fs = Some (File c)
       ∧ (mirror = true → ∃ px, c = Image px)
       ∧ out = []
       ∧ (is_dir (dst ++ [f]) fs = false →
          lookup_path (dst ++ [f]) fs' = Some (transfer mirror (File c))).
Proof.
  unfold transfer_frame, transfer. destruct mirror.
  - unfold mirror_image. intros H. run_step H.
    apply try_Ok in Hrun as (Hr & -> & ->).
    apply update_Ok in Hrun0 as (Hw & ->).
    unfold read_file in Hr.
    destruct (lookup_path (src ++ [f]) fs) as [[[px| |]|]|]; simplify_eq.
    exists (Image a). split_and!; eauto.
    intros _. by apply write_file_lookup in Hw.
  - intros (Hc & ->)%update_Ok. unfold copy2 in Hc.
    destruct (lookup_path (src ++ [f]) fs) as [[c|]|]; simplify_eq.
    exists c. split_and!; [done..|].
    intros Hd. rewrite Hd in Hc. case_decide; [done|].
    by apply write_file_lookup in Hc.
Qed.

Lemma frames_loop l fs0 fs fs' u out :
  NoDup l → stable_below src fs0 fs →
  for_ l (transfer_frame src dst mirror) fs = Ok (u, fs', out) →
  out = []
  ∧ (∀ f, f ∈ l →
       ∃ c, lookup_path (src ++ [f]) fs0 = Some (File c)
            ∧ (mirror = true → ∃ px, c = Image px)
            ∧ (is_dir (dst ++ [f]) fs = false →
               lookup_path (dst ++ [f]) fs'
               = Some (transfer mirror (File c))))
  ∧ (∀ f, f ∉ l → stable_below (dst ++ [f]) fs fs').
Proof.
  destruct u. revert fs out.
  induction l as [|f l IH]; intros fs out Hnd Hst Hrun.
  - apply for_nil_Ok in Hrun as [-> ->]. split_and!; [done| |].
    + intros f Hf. by apply elem_of_nil in Hf.
    + intros f _. apply stable_below_refl.
  - apply for_cons_Ok in Hrun as (fs1 & o1 & o2 & Hf & Hl & ->).
    apply NoDup_cons in Hnd as [Hfl Hnd].
    pose proof (transfer_frame_writes f _ _ _ _ Hf) as Hch.
    assert (stable_below src fs0 fs1) as Hst1.
    { eapply stable_below_trans; [done|].
      eapply changed_under_stable; [done|]. by apply diverge_app_l. }
    assert (∀ g, g ≠ f → stable_below (dst ++ [g]) fs fs1) as Hother.
    { intros g Hg. eapply changed_under_stable; [done|].
      by apply diverge_snoc. }
    apply transfer_frame_Ok in Hf as (c & Hc & Himg & -> & Hw).
    destruct (IH fs1 o2 Hnd Hst1 Hl) as (-> & Hin & Hout).
    split_and!; [done| |].
    + intros g [->|Hg]%elem_of_cons.
      * exists c. split_and!; [|done|].
        { by rewrite <-(Hst [f]). }
        intros Hd. rewrite (stable_lookup _ _ _ (Hout f Hfl)). by apply Hw.
      * destruct (Hin g Hg) as (c' & Hc' & Himg' & Hw').
        exists c'. split_and!; [done..|].
        intros Hd. apply Hw'.
        assert (g ≠ f) as Hgf by (by intros ->).
        by rewrite (stable_is_dir _ _ _ (Hother g Hgf)).
    + intros g [Hgf Hgl]%not_elem_of_cons.
      eapply stable_below_trans; [by apply Hother|by apply Hout].
Qed.
End copier.

Section copier_spec.
Variables (src dst : path) (mirror : bool).
Hypothesis apart : diverge dst src.

(** The copier, frame by frame: the count, the frames written, and the
    rest of the destination left as it was. *)
Lemma copy_or_mirror_frames_Ok fs n fs' out :
  copy_or_mirror_frames src dst mirror fs = Ok (n, fs', out) →
  n = size (png_entries src fs) ∧ out = []
  ∧ is_dir dst fs' = true
  ∧ (∀ f nd, png_entries src fs !! f = Some nd →
       ∃ c, nd = File c ∧ (mirror = true → ∃ px, c = Image px)
            ∧ (is_dir (dst ++ [f]) fs = false →
               lookup_path (dst ++ [f]) fs' = Some (transfer mirror nd)))
  ∧ (∀ f, png_entries src fs !! f = None →
       stable_below (dst ++ [f]) fs fs').
Proof.
  intros Hrun.
  pose proof (copy_or_mirror_frames_writes _ _ _ _ _ _ _ Hrun) as Hch.
  unfold copy_or_mirror_frames in Hrun.
  apply bind_Ok in Hrun as (? & fs1 & ? & ? & [Hmk ->]%update_Ok & Hrun & ->).
  apply bind_Ok in Hrun as (? & ? & ? & ? & (-> & -> & ->)%ask_Ok & Hrun & ->).
  apply bind_Ok in Hrun as (? & ? & ? & ? & Hloop & (-> & -> & ->)%ret_Ok & ->).
  assert (stable_below src fs fs1) as Hst.
  { eapply changed_under_stable; [by eapply mkdir_p_changed|done]. }
  assert (∀ f, stable_below (dst ++ [f]) fs fs1) as Hbelow.
  { intros f r. eapply mkdir_p_frame; [done|].
    rewrite <-(assoc_L (++)). intros [k Hk]. rewrite <-(assoc_L (++)) in Hk.
    rewrite <-(right_id_L [] (++) dst) in Hk at 1.
    by apply (inj (app dst)) in Hk. }
  rewrite (stable_glob_png _ _ _ Hst) in Hloop |- *.
  assert (is_dir dst x1 = true) as Hdir.
  { eapply cu_dirs; [|by eapply mkdir_p_is_dir_prefix].
    eapply (writes_for_ dst); [|done].
    intros f. apply (writes_weaken _ [f]), transfer_frame_writes. }
  eapply (frames_loop _ _ _ apart _ fs) in Hloop as (-> & Hin & Hout);
    [|apply NoDup_sorted, NoDup_glob_png|done].
  rewrite length_sorted, length_glob_png. split_and!; [done..| |].
  - intros f nd Hf.
    destruct (Hin f) as (c & Hc & Himg & Hw).
    { apply elem_of_sorted, elem_of_glob_png. by eexists. }
    apply png_entries_lookup in Hf as [Hf _]. rewrite Hc in Hf.
    simplify_eq. exists c. split_and!; [done..|].
    intros Hd. apply Hw. by rewrite (stable_is_dir _ _ _ (Hbelow f)).
  - intros f Hf. eapply stable_below_trans; [apply Hbelow|].
    apply Hout. rewrite elem_of_sorted, elem_of_glob_png, Hf.
    by intros [??].
Qed.

Lemma copy_or_mirror_frames_transferable fs n fs' out :
  copy_or_mirror_frames src dst mirror fs = Ok (n, fs', out) →
  transferable src mirror fs.
Proof.
  intros (_ & _ & _ & Hin & _)%copy_or_mirror_frames_Ok f nd Hf.
  destruct (Hin f nd Hf) as (c & -> & Himg & _). by exists c.
Qed.

(** Into a destination that was not there, the copier leaves exactly the
    selected entries of the source, each one transferred. *)
Lemma copy_or_mirror_frames_fresh fs n fs' out :
  lookup_path dst fs = None →
  copy_or_mirror_frames src dst mirror fs = Ok (n, fs', out) →
  lookup_path dst fs' = Some (Dir (transfer mirror <$> png_entries src fs)).
Proof.
  intros Hnew (_ & _ & Hdir & Hin & Hout)%copy_or_mirror_frames_Ok.
  apply is_dir_lookup in Hdir as [m Hm]. rewrite Hm. do 2 f_equal.
  apply map_eq. intros f. rewrite lookup_fmap.
  rewrite <-(lookup_path_snoc _ _ _ _ Hm).
  assert (lookup_path (dst ++ [f]) fs = None) as Hf.
  { by rewrite lookup_path_app, Hnew. }
  destruct (png_entries src fs !! f) as [nd|] eqn:E; simpl.
  - destruct (Hin f nd E) as (c & -> & _ & Hw). apply Hw.
    unfold is_dir. by rewrite Hf.
  - by rewrite (stable_lookup _ _ _ (Hout f E)).
Qed.
End copier_spec.

(** * The fallback resolver *)

(** "Usable", in the words of the specification: the candidate exists as a
    directory and contains at least one entry named [*.png]. *)
Definition usable_dir (p : path) (fs : node) : Prop :=
  ∃ m n nd,
    lookup_path p fs = Some (Dir m) ∧ m !! n = Some nd
    ∧ endswith n ".png" = true.

Lemma usable_spec p fs : usable p fs = true ↔ usable_dir p fs.
Proof.
  unfold usable, usable_dir. rewrite andb_true_iff, is_dir_lookup, any_png_true.
  split.
  - intros [[m Hm] [n [nd Hn]]]. exists m, n, nd.
    apply png_entries_lookup in Hn as [Hn He].
    by rewrite (lookup_path_snoc _ _ _ _ Hm) in Hn.
  - intros (m & n & nd & Hm & Hn & He). split; [by exists m|].
    exists n, nd. apply png_entries_lookup.
    by rewrite (lookup_path_snoc _ _ _ _ Hm).
Qed.

Lemma usable_false p fs : usable p fs = false ↔ ¬ usable_dir p fs.
Proof. rewrite <-usable_spec. by destruct (usable p fs). Qed.

Lemma first_usable_first anim_base chain fs i c :
  chain !! i = Some c →
  usable (anim_base ++ [c]) fs = true →
  (∀ j c', j < i → chain !! j = Some c' →
     usable (anim_base ++ [c']) fs = false) →
  first_usable anim_base chain fs = Some (anim_base ++ [c]).
Proof.
  revert i. induction chain as [|c0 chain IH]; intros i Hi Hc Hbefore; [done|].
  simpl. destruct i as [|i].
  - simpl in Hi. simplify_eq. by rewrite Hc.
  - rewrite (Hbefore 0 c0) by (done || lia).
    apply (IH i); [done..|].
    intros j c' Hj Hc'. apply (Hbefore (S j)); [lia|done].
Qed.

Lemma first_usable_none anim_base chain fs :
  (∀ c, c ∈ chain → usable (anim_base ++ [c]) fs = false) →
  first_usable anim_base chain fs = None.
Proof.
  induction chain as [|c0 chain IH]; intros Hall; [done|].
  simpl. rewrite Hall by left. apply IH. intros c Hc. apply Hall. by right.
Qed.

(** C2.  For south, west and north the resolver returns the first entry of
    the direction's fixed chain that is a directory containing a [*.png]
    entry, with the mirror flag off, whatever comes later in the chain; with
    the chain exhausted it returns the east directory with the mirror flag
    on for west when east is usable, and not-found otherwise. *)
Theorem find_source_dir_first_usable
    (anim_base : path) (d : string) (chain : list string) (fs : node) :
  (d, chain) ∈ [("south", ["south"; "south-west"; "west"]);
                ("west", ["west"; "south-west"]);
                ("north", ["north"; "north-west"; "north-east"; "west"])] →
  (∀ i c,
     chain !! i = Some c →
     usable_dir (anim_base ++ [c]) fs →
     (∀ j c', j < i → chain !! j = Some c' →
        ¬ usable_dir (anim_base ++ [c']) fs) →
     find_source_dir anim_base d fs = Ok (Some (anim_base ++ [c]), false))
  ∧ ((∀ c, c ∈ chain → ¬ usable_dir (anim_base ++ [c]) fs) →
     (d = "west" → usable_dir (anim_base ++ ["east"]) fs →
      find_source_dir anim_base d fs = Ok (Some (anim_base ++ ["east"]), true))
     ∧ (d ≠ "west" ∨ ¬ usable_dir (anim_base ++ ["east"]) fs →
        find_source_dir anim_base d fs = Ok (None, false))).
Proof.
  intros Hd.
  assert (dict_get d FALLBACKS = Some chain) as Hchain.
  { repeat (apply elem_of_cons in Hd as [Hd|Hd]; [by simplify_eq|]).
    by apply elem_of_nil in Hd. }
  unfold find_source_dir. rewrite Hchain. split.
  - intros i c Hi Hc%usable_spec Hbefore.
    erewrite first_usable_first; [done..|].
    intros j c' Hj Hc'. apply usable_false. by eapply Hbefore.
  - intros Hnone. rewrite first_usable_none.
    2:{ intros c Hc. by apply usable_false, Hnone. }
    split.
    + intros -> ->%usable_spec. done.
    + intros [Hne|He%usable_false].
      * apply String.eqb_neq in Hne. by rewrite Hne.
      * rewrite He. by rewrite andb_false_r.
Qed.

(** ** A concrete source tree

    The scenario of the specification: the knight's [breathing-idle]
    animation has [south], [north] and [east] frames but neither [west] nor
    [south-west]; its rotations lack [west.png]. *)

Definition dir (entries : list (string * node)) : node :=
  Dir (list_to_map entries).

Fixpoint under (p : path) (n : node) : node :=
  match p with
  | [] => n
  | x :: p' => dir [(x, under p' n)]
  end.

Definition sprite (k : Z) : node :=
  File (Image [[k; k + 1; k + 2]; [k + 3; k + 4; k + 5]]%Z).

Definition knight_idle : node :=
  dir [("south", dir [("frame_001.png", sprite 10);
                      ("frame_000.png", sprite 0);
                      ("notes.txt", File (Blob [104; 105]%Z))]);
       ("north", dir [("frame_000.png", sprite 20);
                      ("frame_001.png", sprite 30);
                      ("frame_002.png", sprite 40)]);
       ("east", dir [("frame_000.png", sprite 50);
                     ("frame_001.png", sprite 60);
                     ("frame_002.png", sprite 70)])].

Definition knight_tree : node :=
  under SRC_CHARS
    (dir [("knight",
           dir [("extracted",
                 dir [("rotations", dir [("south.png", sprite 1);
                                         ("north.png", sprite 2)]);
                      ("animations",
                       dir [("breathing-idle", knight_idle)])])])]).

Definition knight_idle_src : path :=
  SRC_CHARS ++ ["knight"; "extracted"; "animations"; "breathing-idle"].

Lemma find_source_dir_first_usable_witness :
  find_source_dir knight_idle_src "west" knight_tree
  = Ok (Some (knight_idle_src ++ ["east"]), true).
Proof.
  refine (proj1 (proj2 (find_source_dir_first_usable
            knight_idle_src "west" ["west"; "south-west"] knight_tree _) _)
            _ _).
  - apply list_elem_of_In. simpl. tauto.
  - intros c Hc. apply usable_false.
    repeat (apply elem_of_cons in Hc as [->|Hc]; [vm_compute; reflexivity|]).
    by apply elem_of_nil in Hc.
  - reflexivity.
  - apply usable_spec. vm_compute. reflexivity.
Defined.

(** * Mirroring *)

Lemma flip_left_right_involutive (img : image) :
  flip_left_right (flip_left_right img) = img.
Proof.
  unfold flip_left_right. induction img as [|row img IH]; [done|].
  rewrite !fmap_cons, reverse_involutive. by f_equal.
Qed.

Lemma mirror_image_Ok src_path dst_path u fs fs' out :
  mirror_image src_path dst_path fs = Ok (u, fs', out) →
  ∃ px, read_file src_path fs = Ok (Image px)
        ∧ read_file dst_path fs' = Ok (Image (flip_left_right px)).
Proof.
  unfold mirror_image.
  intros (px & ? & ? & ? & (Hr & -> & ->)%try_Ok & [Hw ->]%update_Ok & ->)%bind_Ok.
  exists px. split.
  - by destruct (read_file src_path fs) as [[| |]|]; simplify_eq.
  - unfold read_file. by rewrite (write_file_lookup _ _ _ _ Hw).
Qed.

(** C8.  Mirroring is involutive: a file mirrored by [mirror_image], and the
    result mirrored again, has the pixels of the original image. *)
Theorem mirror_image_involutive
    (src_path mid_path dst_path : path) (img : image)
    (fs fs1 fs2 : node) (out1 out2 : list string) :
  read_file src_path fs = Ok (Image img) →
  mirror_image src_path mid_path fs = Ok (tt, fs1, out1) →
  mirror_image mid_path dst_path fs1 = Ok (tt, fs2, out2) →
  read_file dst_path fs2 = Ok (Image img).
Proof.
  intros Hsrc (px & Hpx & Hmid)%mirror_image_Ok (px' & Hpx' & Hdst)%mirror_image_Ok.
  rewrite Hsrc in Hpx. rewrite Hmid in Hpx'. simplify_eq.
  by rewrite Hdst, flip_left_right_involutive.
Qed.

Definition knight_east_frame : path :=
  knight_idle_src ++ ["east"; "frame_000.png"].

Definition run_tree {A} (c : M A) (fs : node) : node :=
  match c fs with
  | Ok (_, fs', _) => fs'
  | Raise _ => fs
  end.

Definition flipped_once : node :=
  run_tree (mirror_image knight_east_frame (knight_idle_src ++ ["flipped.png"]))
    knight_tree.

Definition flipped_twice : node :=
  run_tree (mirror_image (knight_idle_src ++ ["flipped.png"])
              (knight_idle_src ++ ["restored.png"]))
    flipped_once.

Lemma mirror_image_involutive_witness :
  read_file (knight_idle_src ++ ["restored.png"]) flipped_twice
  = Ok (Image [[50; 51; 52]; [53; 54; 55]]%Z).
Proof.
  apply (mirror_image_involutive knight_east_frame
           (knight_idle_src ++ ["flipped.png"])
           (knight_idle_src ++ ["restored.png"]) _
           knight_tree flipped_once flipped_twice [] []);
    vm_compute; reflexivity.
Defined.

(** * The animation resolver, step by step *)

Lemma first_usable_Some anim_base chain fs p :
  first_usable anim_base chain fs = Some p →
  ∃ c, c ∈ chain ∧ p = anim_base ++ [c] ∧ usable p fs = true.
Proof.
  induction chain as [|c0 chain IH]; [done|]. simpl.
  destruct (usable (anim_base ++ [c0]) fs) eqn:E.
  - intros [= <-]. exists c0. split_and!; [by left|done..].
  - intros (c & Hc & -> & Hu)%IH. exists c. split_and!; [by right|done..].
Qed.

(** Whatever the resolver returns is a usable directory right below the
    animation's directory; it is [east] when the mirror flag is on. *)
Lemma find_source_dir_Some anim_base d fs src mir :
  find_source_dir anim_base d fs = Ok (Some src, mir) →
  ∃ c, src = anim_base ++ [c] ∧ usable src fs = true
       ∧ (mir = true → d = "west" ∧ c = "east").
Proof.
  unfold find_source_dir.
  destruct (dict_get d FALLBACKS) as [chain|]; [|done].
  destruct (first_usable anim_base chain fs) as [p|] eqn:E.
  - intros [= <- <-]. apply first_usable_Some in E as (c & _ & -> & Hu).
    by exists c.
  - destruct (String.eqb d "west") eqn:Ed; simpl; [|done].
    destruct (usable (anim_base ++ ["east"]) fs) eqn:Hu; [|done].
    intros [= <- <-]. exists "east". apply String.eqb_eq in Ed. by subst.
Qed.

(** The frames of a resolved source are the same on a tree that agrees
    with [fs] below the animation's directory. *)
Lemma found_png_entries_stable anim_base d r fs fs1 src :
  stable_below anim_base fs fs1 →
  find_source_dir anim_base d fs = Ok r → r.1 = Some src →
  png_entries src fs1 = png_entries src fs.
Proof.
  intros Hst Hr Hsrc. destruct r as [? mir]. simpl in Hsrc. subst.
  apply find_source_dir_Some in Hr as (c & -> & _).
  by rewrite (stable_png_entries _ _ _ (stable_below_app _ [c] _ _ Hst)).
Qed.

Lemma usable_size p fs : usable p fs = true → (1 ≤ size (png_entries p fs))%nat.
Proof.
  intros [_ [n [nd Hn]]%any_png_true]%andb_true_iff.
  destruct (decide (size (png_entries p fs) = 0)) as [Hz|]; [|lia].
  apply map_size_empty_iff in Hz. by rewrite Hz, lookup_empty in Hn.
Qed.

(** The manifest entry of a resolved direction. *)
Definition direction_info (char_name game_state direction : string)
    (src_dir : path) (needs_mirror : bool) (frame_count : nat) : dir_info :=
  {| di_source := if needs_mirror then "mirror(" +:+ name src_dir +:+ ")"
                  else name src_dir;
     di_frames := frame_count;
     di_path := "characters/" +:+ char_name +:+ "/animations/"
                +:+ game_state +:+ "/" +:+ direction |}.

(** The loop variables after one direction, given what the resolver
    returned for it on the tree [fs]. *)
Definition resolved (char_name game_state direction : string)
    (r : option path * bool) (fs : node) (st : dir_loop) : dir_loop :=
  match r.1 with
  | None => st
  | Some src_dir =>
      {| dl_directions :=
           dict_set direction
             (direction_info char_name game_state direction src_dir r.2
                (size (png_entries src_dir fs)))
             (dl_directions st);
         w_source_dir :=
           if String.eqb direction "west" then Some src_dir
           else w_source_dir st;
         w_mirrored :=
           if String.eqb direction "west" then r.2 else w_mirrored st |}
  end.

(** The frames of a resolved source, if there is one, can be transferred. *)
Definition source_ok (r : option path * bool) (mirror : bool) (fs : node)
    : Prop :=
  ∀ src_dir, r.1 = Some src_dir → transferable src_dir mirror fs.

(** The directory a resolved direction leaves in a destination that was not
    there. *)
Definition output_of (src_dir : path) (mirror : bool) (fs : node) : node :=
  Dir (transfer mirror <$> png_entries src_dir fs).

Section state.
Variables (char_name game_state : string) (anim_src anim_dst_base : path).
Hypothesis apart : diverge anim_dst_base anim_src.

Lemma dst_apart d src : 
  (∃ c, src = anim_src ++ [c]) →
  diverge (anim_dst_base ++ [game_state; d]) src.
Proof. intros [c ->]. by apply diverge_app. Qed.

Lemma process_animations_direction_Ok d st st' fs fs' out :
  process_animations_direction char_name game_state anim_src anim_dst_base
    d st fs = Ok (st', fs', out) →
  ∃ r, find_source_dir anim_src d fs = Ok r
       ∧ st' = resolved char_name game_state d r fs st
       ∧ changed_under (anim_dst_base ++ [game_state; d]) fs fs'
       ∧ (r.1 = None → fs' = fs)
       ∧ (∀ src_dir, r.1 = Some src_dir →
            lookup_path (anim_dst_base ++ [game_state; d]) fs = None →
            lookup_path (anim_dst_base ++ [game_state; d]) fs'
            = Some (output_of src_dir r.2 fs))
       ∧ (∀ src_dir, r.1 = Some src_dir → transferable src_dir r.2 fs).
Proof.
  unfold process_animations_direction.
  intros ([found mir] & ? & ? & ? & (Hfind & -> & ->)%try_Ok & Hrest & ->)%bind_Ok.
  exists (found, mir). split; [done|]. unfold resolved. simpl.
  destruct found as [src_dir|].
  - apply bind_Ok in Hrest as (n & fs1 & ? & ? & Hcopy & Hrest & ->).
    apply bind_Ok in Hrest as (? & ? & ? & ? & [-> ->]%print_Ok
                                & (-> & -> & ->)%ret_Ok & ->).
    pose proof (copy_or_mirror_frames_writes _ _ _ _ _ _ _ Hcopy) as Hch.
    apply find_source_dir_Some in Hfind as (c & Hsrc & _).
    assert (diverge (anim_dst_base ++ [game_state; d]) src_dir) as Hd.
    { apply dst_apart. by exists c. }
    pose proof (copy_or_mirror_frames_Ok _ _ _ Hd _ _ _ _ Hcopy) as (-> & _).
    split_and!; [done..| |].
    + intros ? [= <-] Hnew. by eapply copy_or_mirror_frames_fresh.
    + intros ? [= <-]. by eapply copy_or_mirror_frames_transferable.
  - apply bind_Ok in Hrest as (? & ? & ? & ? & [-> ->]%print_Ok
                                & (-> & -> & ->)%ret_Ok & ->).
    split_and!; [done|apply changed_under_refl|done..].
Qed.
End state.

(** The directions of a state once east is derived, from the loop
    variables and the tree the east step runs on. *)
Definition east_directions (char_name game_state : string) (st : dir_loop)
    (fs : node) : dict dir_info :=
  match w_source_dir st with
  | Some w_dir =>
      dict_set "east"
        {| di_source := "mirror(west)";
           di_frames := size (png_entries w_dir fs);
           di_path := "characters/" +:+ char_name +:+ "/animations/"
                      +:+ game_state +:+ "/east" |}
        (dl_directions st)
  | None => dl_directions st
  end.

Definition dir_loop_init : dir_loop :=
  {| dl_directions := []; w_source_dir := None; w_mirrored := false |}.

(** The directions of a state from what the resolver returned for south,
    west and north. *)
Definition state_directions (char_name game_state : string)
    (rs rw rn : option path * bool) (fs : node) : dict dir_info :=
  east_directions char_name game_state
    (resolved char_name game_state "north" rn fs
       (resolved char_name game_state "west" rw fs
          (resolved char_name game_state "south" rs fs dir_loop_init)))
    fs.

(** What a state leaves at the destination of a direction. *)
Definition output_ok (dst_dir : path) (r : option path * bool)
    (fs fs' : node) : Prop :=
  match r.1 with
  | Some src_dir => lookup_path dst_dir fs' = Some (output_of src_dir r.2 fs)
  | None => lookup_path dst_dir fs' = None
  end.

Section state_steps.
Variables (char_name game_state : string) (anim_src anim_dst_base : path).
Hypothesis apart : diverge anim_dst_base anim_src.

Abbreviation dst d := (anim_dst_base ++ [game_state; d]).

Lemma dst_diverge d d' : d ≠ d' → diverge (dst d) (dst d').
Proof.
  intros Hne. rewrite !(cons_middle game_state), !(assoc_L (++)).
  by apply diverge_snoc.
Qed.

Lemma dst_below_state d : dst d = (anim_dst_base ++ [game_state]) ++ [d].
Proof. by rewrite <-(assoc_L (++)). Qed.

Lemma state_stable d fs fs' :
  changed_under (dst d) fs fs' → stable_below anim_src fs fs'.
Proof.
  intros Hch. eapply changed_under_stable; [done|]. by apply diverge_app_l.
Qed.

Lemma resolved_stable d r st fs fs1 :
  stable_below anim_src fs fs1 →
  find_source_dir anim_src d fs1 = Ok r →
  find_source_dir anim_src d fs = Ok r
  ∧ resolved char_name game_state d r fs1 st
    = resolved char_name game_state d r fs st.
Proof.
  intros Hst Hfind. split; [by rewrite <-(stable_find_source_dir _ _ _ _ Hst)|].
  unfold resolved. destruct r as [[src|] mir]; simpl; [|done].
  apply find_source_dir_Some in Hfind as (c & -> & _).
  by rewrite (stable_png_entries _ _ _ (stable_below_app _ [c] _ _ Hst)).
Qed.

Lemma process_animations_east_Ok st dirs fs fs' out :
  (∀ w, w_source_dir st = Some w → ∃ c, w = anim_src ++ [c]) →
  process_animations_east char_name game_state anim_dst_base st fs
  = Ok (dirs, fs', out) →
  dirs = east_directions char_name game_state st fs
  ∧ changed_under (dst "east") fs fs'
  ∧ (w_source_dir st = None → fs' = fs)
  ∧ (∀ w, w_source_dir st = Some w →
       lookup_path (dst "east") fs = None →
       lookup_path (dst "east") fs'
       = Some (output_of w (negb (w_mirrored st)) fs))
  ∧ (∀ w, w_source_dir st = Some w →
       transferable w (negb (w_mirrored st)) fs).
Proof.
  unfold process_animations_east, east_directions. intros Hw.
  destruct (w_source_dir st) as [w|].
  - intros (n & fs1 & ? & ? & Hcopy & Hrest & ->)%bind_Ok.
    apply bind_Ok in Hrest as (? & ? & ? & ? & [-> ->]%print_Ok
                                & (-> & -> & ->)%ret_Ok & ->).
    destruct (Hw w eq_refl) as [c ->].
    assert (diverge (dst "east") (anim_src ++ [c])) as Hd
      by by apply diverge_app.
    assert (copy_or_mirror_frames (anim_src ++ [c]) (dst "east")
              (negb (w_mirrored st)) fs = Ok (n, fs1, x)) as Hcopy'.
    { by destruct (w_mirrored st). }
    pose proof (copy_or_mirror_frames_writes _ _ _ _ _ _ _ Hcopy') as Hch.
    pose proof (copy_or_mirror_frames_Ok _ _ _ Hd _ _ _ _ Hcopy') as (-> & _).
    split_and!; [done..| |].
    + intros ? [= <-] Hnew. by eapply copy_or_mirror_frames_fresh.
    + intros ? [= <-]. by eapply copy_or_mirror_frames_transferable.
  - intros (? & ? & ? & ? & [-> ->]%print_Ok & (-> & -> & ->)%ret_Ok & ->)%bind_Ok.
    split_and!; [done|apply changed_under_refl|done..].
Qed.

Lemma resolved_w_source rs rw rn fs :
  let st := resolved char_name game_state "north" rn fs
              (resolved char_name game_state "west" rw fs
                 (resolved char_name game_state "south" rs fs dir_loop_init)) in
  w_source_dir st = rw.1
  ∧ (is_Some rw.1 → w_mirrored st = rw.2).
Proof.
  destruct rs as [[?|] ?], rw as [[?|] ?], rn as [[?|] ?]; simpl;
    split; try done; by intros [??].
Qed.

(** One state whose source directory is there: the three resolutions, all
    read off the tree the state starts on, decide the manifest entry and,
    into a fresh destination, the directories written. *)
Lemma process_animations_directions_Ok st fs fs' out :
  for_each ["south"; "west"; "north"]
    (process_animations_direction char_name game_state anim_src anim_dst_base)
    dir_loop_init fs = Ok (st, fs', out) →
  ∃ rs rw rn,
    find_source_dir anim_src "south" fs = Ok rs
    ∧ find_source_dir anim_src "west" fs = Ok rw
    ∧ find_source_dir anim_src "north" fs = Ok rn
    ∧ st = resolved char_name game_state "north" rn fs
             (resolved char_name game_state "west" rw fs
                (resolved char_name game_state "south" rs fs dir_loop_init))
    ∧ changed_under (anim_dst_base ++ [game_state]) fs fs'
    ∧ (lookup_path (anim_dst_base ++ [game_state]) fs = None →
       output_ok (dst "south") rs fs fs'
       ∧ output_ok (dst "west") rw fs fs'
       ∧ output_ok (dst "north") rn fs fs'
       ∧ lookup_path (dst "east") fs' = None)
    ∧ source_ok rs rs.2 fs ∧ source_ok rw rw.2 fs ∧ source_ok rn rn.2 fs.
Proof.
  simpl.
  intros (st1 & fs1 & ? & ? & Hs & Hrest & ->)%bind_Ok.
  apply bind_Ok in Hrest as (st2 & fs2 & ? & ? & Hw & Hrest & ->).
  apply bind_Ok in Hrest as (st3 & fs3 & ? & ? & Hn & (-> & -> & ->)%ret_Ok & ->).
  apply (process_animations_direction_Ok _ _ _ _ apart) in Hs
    as (rs & Hrs & -> & Hch1 & Hno1 & Hout1 & Htr1).
  apply (process_animations_direction_Ok _ _ _ _ apart) in Hw
    as (rw & Hrw & -> & Hch2 & Hno2 & Hout2 & Htr2).
  apply (process_animations_direction_Ok _ _ _ _ apart) in Hn
    as (rn & Hrn & -> & Hch3 & Hno3 & Hout3 & Htr3).
  pose proof (state_stable _ _ _ Hch1) as Hst1.
  pose proof (stable_below_trans _ _ _ _ Hst1 (state_stable _ _ _ Hch2)) as Hst2.
  destruct (resolved_stable "west" rw
              (resolved char_name game_state "south" rs fs dir_loop_init)
              _ _ Hst1 Hrw) as [Hrw' ->].
  destruct (resolved_stable "north" rn
              (resolved char_name game_state "west" rw fs
                 (resolved char_name game_state "south" rs fs dir_loop_init))
              _ _ Hst2 Hrn) as [Hrn' ->].
  exists rs, rw, rn. split_and!; [done..| | |done| |].
  3:{ intros src Hsrc. unfold transferable.
      rewrite <-(found_png_entries_stable _ _ _ _ _ _ Hst1 Hrw' Hsrc).
      by apply Htr2. }
  3:{ intros src Hsrc. unfold transferable.
      rewrite <-(found_png_entries_stable _ _ _ _ _ _ Hst2 Hrn' Hsrc).
      by apply Htr3. }
  - rewrite dst_below_state in Hch1, Hch2, Hch3.
    apply changed_under_weaken in Hch1, Hch2, Hch3.
    by repeat (eapply changed_under_trans; [done|]).
  - intros Hnew.
    assert (∀ d, lookup_path (dst d) fs = None) as Hfresh.
    { intros d. by rewrite dst_below_state, lookup_path_app, Hnew. }
    assert (∀ d d' fsa fsb, d ≠ d' → changed_under (dst d) fsa fsb →
              lookup_path (dst d') fsb = lookup_path (dst d') fsa) as Hkeep.
    { intros d d' fsa fsb Hne [F _]. apply F. by apply dst_diverge. }
    assert (∀ d (r : option path * bool) fsa,
              find_source_dir anim_src d fs = Ok r →
              stable_below anim_src fs fsa →
              output_of (default [] r.1) r.2 fsa
              = output_of (default [] r.1) r.2 fs ∨ r.1 = None) as Hsame.
    { intros d [[src|] mir] fsa Hr Hst; [left|by right]. simpl.
      apply find_source_dir_Some in Hr as (c & -> & _). unfold output_of.
      by rewrite (stable_png_entries _ _ _ (stable_below_app _ [c] _ _ Hst)). }
    split_and!.
    + unfold output_ok.
      rewrite (Hkeep "north" "south" fs2 fs3), (Hkeep "west" "south" fs1 fs2)
        by done.
      destruct rs as [[src|] mir]; simpl in *.
      * by apply Hout1.
      * by rewrite Hno1.
    + unfold output_ok. rewrite (Hkeep "north" "west" fs2 fs3) by done.
      destruct (Hsame _ _ _ Hrw' Hst1) as [Heq|Heq].
      * destruct rw as [[src|] mir]; simpl in *.
        -- rewrite <-Heq. apply Hout2; [done|].
           by rewrite (Hkeep "south" "west" fs fs1).
        -- rewrite Hno2 by done. by rewrite (Hkeep "south" "west" fs fs1).
      * rewrite Heq, Hno2 by done. by rewrite (Hkeep "south" "west" fs fs1).
    + unfold output_ok.
      assert (lookup_path (dst "north") fs2 = None) as Hn2.
      { by rewrite (Hkeep "west" "north" fs1 fs2),
          (Hkeep "south" "north" fs fs1). }
      destruct (Hsame _ _ _ Hrn' Hst2) as [Heq|Heq].
      * destruct rn as [[src|] mir]; simpl in *.
        -- rewrite <-Heq. by apply Hout3.
        -- by rewrite Hno3.
      * by rewrite Heq, Hno3.
    + by rewrite (Hkeep "north" "east" fs2 fs3), (Hkeep "west" "east" fs1 fs2),
        (Hkeep "south" "east" fs fs1).
Qed.
End state_steps.

Section state_step.
Variables (char_name : string) (anim_src_base anim_dst_base : path).
Hypothesis apart : diverge anim_dst_base anim_src_base.

Lemma process_animations_state_skip game_state nm animations fs :
  is_dir (anim_src_base ++ [nm]) fs = false →
  process_animations_state char_name anim_src_base anim_dst_base
    (game_state, nm) animations fs
  = Ok (animations, fs,
        ["  [SKIP] " +:+ game_state +:+ " (" +:+ nm +:+ "): not found"]).
Proof.
  intros Hd. unfold process_animations_state, bind, ask. rewrite Hd. reflexivity.
Qed.

Lemma process_animations_state_Ok game_state nm animations animations'
    fs fs' out :
  is_dir (anim_src_base ++ [nm]) fs = true →
  process_animations_state char_name anim_src_base anim_dst_base
    (game_state, nm) animations fs = Ok (animations', fs', out) →
  ∃ rs rw rn,
    find_source_dir (anim_src_base ++ [nm]) "south" fs = Ok rs
    ∧ find_source_dir (anim_src_base ++ [nm]) "west" fs = Ok rw
    ∧ find_source_dir (anim_src_base ++ [nm]) "north" fs = Ok rn
    ∧ animations'
      = dict_set game_state
          {| ai_source := nm;
             ai_directions :=
               state_directions char_name game_state rs rw rn fs |}
          animations
    ∧ changed_under (anim_dst_base ++ [game_state]) fs fs'
    ∧ (lookup_path (anim_dst_base ++ [game_state]) fs = None →
       output_ok (anim_dst_base ++ [game_state; "south"]) rs fs fs'
       ∧ output_ok (anim_dst_base ++ [game_state; "west"]) rw fs fs'
       ∧ output_ok (anim_dst_base ++ [game_state; "north"]) rn fs fs'
       ∧ output_ok (anim_dst_base ++ [game_state; "east"])
           (rw.1, negb rw.2) fs fs')
    ∧ source_ok rs rs.2 fs ∧ source_ok rw rw.2 fs ∧ source_ok rn rn.2 fs
    ∧ source_ok rw (negb rw.2) fs.
Proof.
  intros Hd. unfold process_animations_state.
  intros (? & ? & ? & ? & (-> & -> & ->)%ask_Ok & Hrest & ->)%bind_Ok.
  rewrite Hd in Hrest. simpl in Hrest.
  apply bind_Ok in Hrest as (st & fs3 & ? & ? & Hloop & Hrest & ->).
  apply bind_Ok in Hrest as (dirs & fs4 & ? & ? & Heast
                              & (-> & -> & ->)%ret_Ok & ->).
  assert (diverge anim_dst_base (anim_src_base ++ [nm])) as Hap.
  { by apply diverge_sym, diverge_app_l, diverge_sym. }
  change (for_each ["south"; "west"; "north"] _ _ fs = Ok (st, fs3, x))
    with (for_each ["south"; "west"; "north"]
            (process_animations_direction char_name game_state
               (anim_src_base ++ [nm]) anim_dst_base)
            dir_loop_init fs = Ok (st, fs3, x)) in Hloop.
  apply (process_animations_directions_Ok _ _ _ _ Hap) in Hloop
    as (rs & rw & rn & Hrs & Hrw & Hrn & -> & Hch & Hout & Htrs & Htrw & Htrn).
  pose proof (resolved_w_source char_name game_state rs rw rn fs) as [Hws Hwm].
  simpl in Hws, Hwm.
  assert (stable_below (anim_src_base ++ [nm]) fs fs3) as Hst.
  { eapply changed_under_stable; [done|]. by apply diverge_app_l. }
  apply (process_animations_east_Ok _ _ _ _ Hap) in Heast
    as (-> & Hche & Hnoe & Houte & Htre).
  2:{ intros w Hw. rewrite Hws in Hw.
      destruct rw as [[?|] mir]; simpl in Hw; simplify_eq.
      apply find_source_dir_Some in Hrw as (c & -> & _). by exists c. }
  exists rs, rw, rn. split_and!; [done..| | | |done|done|done|].
  4:{ intros w Hw. unfold transferable.
      rewrite <-(found_png_entries_stable _ _ _ _ _ _ Hst Hrw Hw).
      rewrite <-Hwm by (by rewrite Hw). apply Htre. by rewrite Hws. }
  - do 2 f_equal. unfold state_directions, east_directions. rewrite Hws.
    destruct rw as [[w|] mir]; simpl; [|done].
    apply find_source_dir_Some in Hrw as (c & -> & _).
    by rewrite (stable_png_entries _ _ _ (stable_below_app _ [c] _ _ Hst)).
  - eapply changed_under_trans; [done|].
    rewrite (dst_below_state game_state anim_dst_base) in Hche.
    by apply changed_under_weaken in Hche.
  - intros Hnew. destruct (Hout Hnew) as (Hos & How & Hon & Hoe).
    assert (∀ d, d ≠ "east" →
              lookup_path (anim_dst_base ++ [game_state; d]) fs4
              = lookup_path (anim_dst_base ++ [game_state; d]) fs3) as Hkeep.
    { intros d Hne. apply (cu_frame _ _ _ Hche). by apply dst_diverge. }
    unfold output_ok in *. rewrite !Hkeep by done. split_and!; [done..|].
    simpl. rewrite Hws in Hnoe, Houte.
    destruct rw as [[w|] mir]; simpl in *.
    + rewrite (Houte w eq_refl Hoe), Hwm by done. unfold output_of.
      apply find_source_dir_Some in Hrw as (c & -> & _).
      by rewrite (stable_png_entries _ _ _ (stable_below_app _ [c] _ _ Hst)).
    + by rewrite Hnoe.
Qed.
End state_step.

(** ** Dictionaries *)

Lemma dict_get_set {V} (k k' : string) (v : V) (d : dict V) :
  dict_get k (dict_set k' v d)
  = if decide (k' = k) then Some v else dict_get k d.
Proof.
  induction d as [|[k0 v0] d IH]; simpl.
  - destruct (String.eqb_spec k' k); by case_decide.
  - destruct (String.eqb_spec k0 k') as [->|Hne]; simpl.
    + destruct (String.eqb_spec k' k); by case_decide.
    + rewrite IH. destruct (String.eqb_spec k0 k) as [->|]; [|done].
      by case_decide.
Qed.

Lemma dict_get_Some_keys {V} (k : string) (v : V) (d : dict V) :
  dict_get k d = Some v → k ∈ dict_keys d.
Proof.
  induction d as [|[k0 v0] d IH]; simpl; [done|].
  destruct (String.eqb_spec k0 k) as [->|]; [by left|].
  intros H. right. by apply IH.
Qed.

Lemma dict_get_None {V} (k : string) (d : dict V) :
  k ∉ dict_keys d → dict_get k d = None.
Proof.
  intros Hk. destruct (dict_get k d) eqn:E; [|done].
  by apply dict_get_Some_keys in E.
Qed.

(** ** The loop over the states *)

(** The manifest entry of the state [game_state], mapped to the animation
    [nm], as the tree [fs] determines it. *)
Definition state_entry (char_name : string) (anim_src_base : path)
    (game_state nm : string) (fs : node) (info : anim_info) : Prop :=
  is_dir (anim_src_base ++ [nm]) fs = true
  ∧ ∃ rs rw rn,
      find_source_dir (anim_src_base ++ [nm]) "south" fs = Ok rs
      ∧ find_source_dir (anim_src_base ++ [nm]) "west" fs = Ok rw
      ∧ find_source_dir (anim_src_base ++ [nm]) "north" fs = Ok rn
      ∧ source_ok rs rs.2 fs ∧ source_ok rw rw.2 fs ∧ source_ok rn rn.2 fs
      ∧ source_ok rw (negb rw.2) fs
      ∧ info = {| ai_source := nm;
                  ai_directions :=
                    state_directions char_name game_state rs rw rn fs |}.

(** The directories a state leaves in a fresh destination. *)
Definition state_outputs (anim_src_base anim_dst_base : path)
    (game_state nm : string) (fs fs' : node) : Prop :=
  ∃ rs rw rn,
    find_source_dir (anim_src_base ++ [nm]) "south" fs = Ok rs
    ∧ find_source_dir (anim_src_base ++ [nm]) "west" fs = Ok rw
    ∧ find_source_dir (anim_src_base ++ [nm]) "north" fs = Ok rn
    ∧ output_ok (anim_dst_base ++ [game_state; "south"]) rs fs fs'
    ∧ output_ok (anim_dst_base ++ [game_state; "west"]) rw fs fs'
    ∧ output_ok (anim_dst_base ++ [game_state; "north"]) rn fs fs'
    ∧ output_ok (anim_dst_base ++ [game_state; "east"])
        (rw.1, negb rw.2) fs fs'.

Section stable_state.
Variables (char_name game_state : string) (anim_src : path).

Lemma output_of_stable d r mirror fs fs1 :
  stable_below anim_src fs fs1 →
  find_source_dir anim_src d fs = Ok r →
  ∀ src, r.1 = Some src → output_of src mirror fs1 = output_of src mirror fs.
Proof.
  intros Hst Hr src Hsrc. destruct r as [? mir]. simpl in Hsrc. subst.
  apply find_source_dir_Some in Hr as (c & -> & _). unfold output_of.
  by rewrite (stable_png_entries _ _ _ (stable_below_app _ [c] _ _ Hst)).
Qed.

Lemma source_ok_stable d r mirror fs fs1 :
  stable_below anim_src fs fs1 →
  find_source_dir anim_src d fs = Ok r →
  source_ok r mirror fs1 → source_ok r mirror fs.
Proof.
  intros Hst Hr Hok src Hsrc. unfold transferable.
  rewrite <-(found_png_entries_stable _ _ _ _ _ _ Hst Hr Hsrc).
  by apply Hok.
Qed.

Lemma output_ok_stable dst_dir d r mirror fs fs1 fs' :
  stable_below anim_src fs fs1 →
  find_source_dir anim_src d fs = Ok r →
  output_ok dst_dir (r.1, mirror) fs1 fs' →
  output_ok dst_dir (r.1, mirror) fs fs'.
Proof.
  intros Hst Hr. unfold output_ok. simpl.
  destruct r.1 as [src|] eqn:E; [|done].
  by rewrite (output_of_stable _ _ _ _ _ Hst Hr src E).
Qed.

Lemma state_directions_stable rs rw rn fs fs1 :
  stable_below anim_src fs fs1 →
  find_source_dir anim_src "south" fs = Ok rs →
  find_source_dir anim_src "west" fs = Ok rw →
  find_source_dir anim_src "north" fs = Ok rn →
  state_directions char_name game_state rs rw rn fs1
  = state_directions char_name game_state rs rw rn fs.
Proof.
  intros Hst Hrs Hrw Hrn.
  assert (∀ d r, find_source_dir anim_src d fs = Ok r →
            ∀ src, r.1 = Some src →
              png_entries src fs1 = png_entries src fs) as Hpng.
  { intros d [? mir] Hr src Hsrc. simpl in Hsrc. subst.
    apply find_source_dir_Some in Hr as (c & -> & _).
    by rewrite (stable_png_entries _ _ _ (stable_below_app _ [c] _ _ Hst)). }
  unfold state_directions, east_directions, resolved.
  destruct rs as [[s|] ms], rw as [[w|] mw], rn as [[n|] mn]; simpl;
    rewrite ?(Hpng _ _ Hrs s), ?(Hpng _ _ Hrw w), ?(Hpng _ _ Hrn n) by done;
    done.
Qed.
End stable_state.

Section states_loop.
Variables (char_name : string) (anim_src_base anim_dst_base : path).
Hypothesis apart : diverge anim_dst_base anim_src_base.
(** The tree the character's animations are read from. *)
Variable fs : node.

Lemma state_step_entry game_state nm animations animations1 fs1 fs2 out :
  changed_under anim_dst_base fs fs1 →
  process_animations_state char_name anim_src_base anim_dst_base
    (game_state, nm) animations fs1 = Ok (animations1, fs2, out) →
  changed_under (anim_dst_base ++ [game_state]) fs1 fs2
  ∧ if is_dir (anim_src_base ++ [nm]) fs then
      (∃ info, state_entry char_name anim_src_base game_state nm fs info
               ∧ animations1 = dict_set game_state info animations)
      ∧ (lookup_path (anim_dst_base ++ [game_state]) fs1 = None →
         state_outputs anim_src_base anim_dst_base game_state nm fs fs2)
    else animations1 = animations ∧ fs2 = fs1.
Proof.
  intros Hch Hstep.
  assert (stable_below (anim_src_base ++ [nm]) fs fs1) as Hst.
  { eapply changed_under_stable; [done|].
    by apply diverge_sym, diverge_app_l, diverge_sym. }
  rewrite <-(stable_is_dir _ _ _ Hst).
  destruct (is_dir (anim_src_base ++ [nm]) fs1) eqn:Hd.
  - apply (process_animations_state_Ok _ _ _ apart) in Hstep
      as (rs & rw & rn & Hrs & Hrw & Hrn & -> & Hch2 & Hout
          & Ht1 & Ht2 & Ht3 & Ht4); [|done].
    rewrite (stable_find_source_dir _ _ _ _ Hst) in Hrs.
    rewrite (stable_find_source_dir _ _ _ _ Hst) in Hrw.
    rewrite (stable_find_source_dir _ _ _ _ Hst) in Hrn.
    rewrite (state_directions_stable _ _ _ _ _ _ _ _ Hst Hrs Hrw Hrn).
    split; [done|]. split.
    + eexists. split; [|done]. split; [by rewrite <-(stable_is_dir _ _ _ Hst)|].
      exists rs, rw, rn.
      split_and!; [done..| | | | |done]; by eapply source_ok_stable.
    + intros Hnew. destruct (Hout Hnew) as (Hos & How & Hon & Hoe).
      exists rs, rw, rn. split_and!; [done..| | | |].
      * destruct rs as [s ms]. by eapply (output_ok_stable _ _ "south" (s, ms)).
      * destruct rw as [w mw]. by eapply (output_ok_stable _ _ "west" (w, mw)).
      * destruct rn as [n mn]. by eapply (output_ok_stable _ _ "north" (n, mn)).
      * by eapply (output_ok_stable _ _ "west" rw).
  - rewrite process_animations_state_skip in Hstep by done.
    simplify_eq. split; [apply changed_under_refl|done].
Qed.

Lemma state_dst_diverge g g' r :
  g ≠ g' → diverge (anim_dst_base ++ [g]) ((anim_dst_base ++ [g']) ++ r).
Proof. intros Hne. by apply diverge_sym, diverge_app_l, diverge_snoc. Qed.

(** The loop over the states: the tree changes under the destination only;
    every entry of the result was there before or is the entry of a state of
    the mapping; with distinct states and fresh destinations each state of
    the mapping has its entry and its output directories, or none when its
    source is missing; a state outside the mapping is left alone. *)
Lemma process_animations_states_Ok anim_map :
  ∀ animations0 fs1 animations fs' out,
    changed_under anim_dst_base fs fs1 →
    for_each anim_map
      (process_animations_state char_name anim_src_base anim_dst_base)
      animations0 fs1 = Ok (animations, fs', out) →
    changed_under anim_dst_base fs fs'
    ∧ (∀ gs info, dict_get gs animations = Some info →
         dict_get gs animations0 = Some info
         ∨ ∃ nm, (gs, nm) ∈ anim_map
                 ∧ state_entry char_name anim_src_base gs nm fs info)
    ∧ (NoDup (dict_keys anim_map) →
       (∀ gs, gs ∈ dict_keys anim_map →
          lookup_path (anim_dst_base ++ [gs]) fs1 = None) →
       ∀ gs nm, (gs, nm) ∈ anim_map →
         if is_dir (anim_src_base ++ [nm]) fs then
           (∃ info, state_entry char_name anim_src_base gs nm fs info
                    ∧ dict_get gs animations = Some info)
           ∧ state_outputs anim_src_base anim_dst_base gs nm fs fs'
         else dict_get gs animations = dict_get gs animations0)
    ∧ (∀ gs, gs ∉ dict_keys anim_map →
         dict_get gs animations = dict_get gs animations0
         ∧ stable_below (anim_dst_base ++ [gs]) fs1 fs').
Proof.
  induction anim_map as [|[g0 n0] rest IH];
    intros animations0 fs1 animations fs' out Hch Hrun.
  { simpl in Hrun. apply ret_Ok in Hrun as (-> & -> & ->).
    split_and!; [done|by left| |].
    - intros _ _ gs nm Hin. by apply elem_of_nil in Hin.
    - intros gs _. split; [done|apply stable_below_refl]. }
  simpl in Hrun.
  apply bind_Ok in Hrun as (a1 & fs2 & ? & ? & Hstep & Hrun & ->).
  destruct (state_step_entry _ _ _ _ _ _ _ Hch Hstep) as [Hch12 Hhead].
  assert (changed_under anim_dst_base fs fs2) as Hch2.
  { eapply changed_under_trans; [done|]. by eapply changed_under_weaken. }
  destruct (IH _ _ _ _ _ Hch2 Hrun) as (Hch' & Hsound & Hcomplete & Hrest).
  assert (∀ gs, gs ≠ g0 → dict_get gs a1 = dict_get gs animations0) as Hget.
  { intros gs Hne.
    destruct (is_dir (anim_src_base ++ [n0]) fs).
    - destruct Hhead as [(info & _ & ->) _]. rewrite dict_get_set.
      by case_decide.
    - by destruct Hhead as [-> _]. }
  assert (∀ gs, gs ≠ g0 → stable_below (anim_dst_base ++ [gs]) fs1 fs2)
    as Hstable.
  { intros gs Hne r. apply (cu_frame _ _ _ Hch12).
    by apply state_dst_diverge. }
  split_and!; [done| | |].
  - intros gs info Hget'. destruct (Hsound gs info Hget') as [Hold|Hnew].
    + destruct (decide (gs = g0)) as [->|Hne].
      * destruct (is_dir (anim_src_base ++ [n0]) fs).
        -- destruct Hhead as [(info0 & Hentry & ->) _].
           rewrite dict_get_set in Hold. case_decide; [|done].
           simplify_eq. right. exists n0. split; [by left|done].
        -- destruct Hhead as [-> _]. by left.
      * left. by rewrite <-Hget.
    + destruct Hnew as (nm & Hin & Hentry). right. exists nm.
      split; [by right|done].
  - intros Hnd Hfresh gs nm Hin. simpl in Hnd.
    apply NoDup_cons in Hnd as [Hg0 Hnd].
    apply elem_of_cons in Hin as [[= -> ->]|Hin].
    + destruct (Hrest g0 Hg0) as [Hkeep Hout].
      destruct (is_dir (anim_src_base ++ [n0]) fs).
      * destruct Hhead as [(info & Hentry & ->) Houtputs].
        split.
        { exists info. split; [done|]. rewrite Hkeep, dict_get_set.
          by case_decide. }
        destruct Houtputs as (rs & rw & rn & ? & ? & ? & Hos & How & Hon & Hoe).
        { apply Hfresh. by left. }
        exists rs, rw, rn. unfold output_ok in *.
        rewrite !(cons_middle g0), !(assoc_L (++)), !Hout.
        rewrite !(cons_middle g0), !(assoc_L (++)) in Hos, How, Hon, Hoe.
        by split_and!.
      * destruct Hhead as [-> _]. done.
    + assert (gs ≠ g0) as Hne.
      { intros ->. apply Hg0. apply list_elem_of_fmap. by exists (g0, nm). }
      specialize (Hcomplete Hnd).
      rewrite <-(Hget gs Hne). apply Hcomplete; [|done].
      intros g Hg. assert (g ≠ g0) as Hgne by (by intros ->).
      rewrite (stable_lookup _ _ _ (Hstable g Hgne)). apply Hfresh. by right.
  - intros gs [Hne Hgs]%not_elem_of_cons. destruct (Hrest gs Hgs) as [Hk Hs].
    split.
    + by rewrite Hk, Hget.
    + eapply stable_below_trans; [by apply Hstable|done].
Qed.
End states_loop.

(** * The character's animations *)

(** Sources and outputs are kept apart by the configured paths. *)
Lemma out_src_apart : diverge OUT_DIR SRC_CHARS.
Proof. split; intros [k Hk]; by simplify_eq. Qed.

Lemma anim_dirs_apart char_name :
  diverge (OUT_DIR ++ [char_name; "animations"])
    (SRC_CHARS ++ [char_name; "extracted"; "animations"]).
Proof. apply diverge_app, out_src_apart. Qed.

Lemma count_total_frames_Ok animations total fs fs' out :
  count_total_frames animations fs = Ok (total, fs', out) →
  fs' = fs.
Proof.
  unfold count_total_frames.
  apply (for_each_invariant (λ _ fs1, fs1 = fs)); [|done].
  intros info t1 fs1 t2 fs2 o _ ->.
  apply (for_each_invariant (λ _ fs1, fs1 = fs)); [|done].
  intros item t3 fs3 t4 fs4 o' _ ->. unfold add_frames.
  destruct (dict_get item.1 t3); [|done]. by intros (_ & -> & _)%ret_Ok.
Qed.

Lemma process_animations_Ok char_name anim_map manifest manifest' fs fs' out :
  process_animations char_name anim_map manifest fs
  = Ok (manifest', fs', out) →
  ∃ animations total_frames o1 o2,
    for_each anim_map
      (process_animations_state char_name
         (SRC_CHARS ++ [char_name; "extracted"; "animations"])
         (OUT_DIR ++ [char_name; "animations"])) [] fs
    = Ok (animations, fs', o1)
    ∧ count_total_frames animations fs' = Ok (total_frames, fs', o2)
    ∧ manifest' = {| m_character := m_character manifest;
                     m_rotations := m_rotations manifest;
                     m_animations := Some animations;
                     m_frame_totals := Some total_frames |}
    ∧ out = o1 ++ o2 ++ [].
Proof.
  unfold process_animations.
  intros (animations & fs1 & o1 & ? & Hloop & Hrest & ->)%bind_Ok.
  apply bind_Ok in Hrest as (total & fs2 & o2 & ? & Hcount
                              & (-> & -> & ->)%ret_Ok & ->).
  pose proof (count_total_frames_Ok _ _ _ _ _ Hcount) as ->.
  by exists animations, total, o1, o2.
Qed.

(** The entry of a direction in a state's directions. *)
Definition direction_entry (char_name game_state direction : string)
    (r : option path * bool) (fs : node) : option dir_info :=
  match r.1 with
  | Some src_dir =>
      Some (direction_info char_name game_state direction src_dir r.2
              (size (png_entries src_dir fs)))
  | None => None
  end.

Definition east_entry (char_name game_state : string)
    (rw : option path * bool) (fs : node) : option dir_info :=
  match rw.1 with
  | Some w_dir =>
      Some {| di_source := "mirror(west)";
              di_frames := size (png_entries w_dir fs);
              di_path := "characters/" +:+ char_name +:+ "/animations/"
                         +:+ game_state +:+ "/east" |}
  | None => None
  end.

Lemma state_directions_lookup char_name game_state rs rw rn fs d :
  dict_get d (state_directions char_name game_state rs rw rn fs)
  = if decide (d = "east") then east_entry char_name game_state rw fs
    else if decide (d = "north")
         then direction_entry char_name game_state "north" rn fs
    else if decide (d = "west")
         then direction_entry char_name game_state "west" rw fs
    else if decide (d = "south")
         then direction_entry char_name game_state "south" rs fs
    else None.
Proof.
  unfold state_directions, east_directions, resolved, east_entry,
    direction_entry.
  destruct rs as [[s|] ms], rw as [[w|] mw], rn as [[n|] mn];
    cbn [fst snd dl_directions w_source_dir w_mirrored dir_loop_init
         String.eqb Ascii.eqb Bool.eqb];
    rewrite ?dict_get_set; repeat case_decide; simplify_eq; done.
Qed.

Lemma state_directions_keys char_name game_state rs rw rn fs :
  NoDup (dict_keys (state_directions char_name game_state rs rw rn fs))
  ∧ ∀ d, d ∈ dict_keys (state_directions char_name game_state rs rw rn fs) →
         d ∈ ["south"; "west"; "north"; "east"].
Proof.
  unfold state_directions, east_directions, resolved.
  destruct rs as [[s|] ms], rw as [[w|] mw], rn as [[n|] mn]; simpl;
    (split; [repeat (apply NoDup_cons; split; [set_solver|]); apply NoDup_nil_2
            |set_solver]).
Qed.

(** Every state of the manifest is a state of the mapping, with the entry
    the source tree determines. *)
Lemma manifest_entries char_name anim_map manifest manifest' fs fs' out
    gs info :
  process_animations char_name anim_map manifest fs
  = Ok (manifest', fs', out) →
  dict_get gs (animations_of manifest') = Some info →
  ∃ nm, (gs, nm) ∈ anim_map
        ∧ state_entry char_name
            (SRC_CHARS ++ [char_name; "extracted"; "animations"]) gs nm fs info.
Proof.
  intros (animations & total & o1 & o2 & Hloop & _ & -> & _)%process_animations_Ok.
  unfold animations_of. simpl. intros Hget.
  apply (process_animations_states_Ok _ _ _ (anim_dirs_apart char_name) fs)
    in Hloop as (_ & Hsound & _); [|apply changed_under_refl].
  by destruct (Hsound gs info Hget) as [?|?].
Qed.

(** The manifest entry of a direction comes from a usable source. *)
Lemma direction_entry_frames char_name game_state anim_base d r fs di :
  find_source_dir anim_base d fs = Ok r →
  direction_entry char_name game_state d r fs = Some di →
  (1 ≤ di_frames di)%nat.
Proof.
  unfold direction_entry. destruct r as [[src|] mir]; simpl; [|done].
  intros (c & _ & Hu & _)%find_source_dir_Some [= <-]. simpl.
  by apply usable_size.
Qed.

Lemma east_entry_frames char_name game_state anim_base rw fs di :
  find_source_dir anim_base "west" fs = Ok rw →
  east_entry char_name game_state rw fs = Some di →
  (1 ≤ di_frames di)%nat ∧ di_source di = "mirror(west)".
Proof.
  unfold east_entry. destruct rw as [[w|] mir]; simpl; [|done].
  intros (c & _ & Hu & _)%find_source_dir_Some [= <-]. simpl.
  split; [by apply usable_size|done].
Qed.

(** C10.  An east entry written to a state's directions always carries the
    source ["mirror(west)"], whichever way west itself was resolved. *)
Theorem east_source_is_mirror_west
    (char_name : string) (anim_map : dict string)
    (manifest manifest' : char_manifest) (fs fs' : node) (out : list string)
    (game_state : string) (info : anim_info) (east : dir_info) :
  process_animations char_name anim_map manifest fs
  = Ok (manifest', fs', out) →
  dict_get game_state (animations_of manifest') = Some info →
  dict_get "east" (ai_directions info) = Some east →
  di_source east = "mirror(west)".
Proof.
  intros Hrun Hinfo Heast.
  destruct (manifest_entries _ _ _ _ _ _ _ _ _ Hrun Hinfo)
    as (nm & _ & _ & rs & rw & rn & _ & Hrw & _ & _ & _ & _ & _ & ->).
  simpl in Heast. rewrite state_directions_lookup in Heast.
  rewrite decide_True in Heast by done.
  by eapply east_entry_frames.
Qed.

(** C9.  Every direction entry of every state of the manifest records at
    least one frame. *)
Theorem manifest_frames_positive
    (char_name : string) (anim_map : dict string)
    (manifest manifest' : char_manifest) (fs fs' : node) (out : list string)
    (game_state direction : string) (info : anim_info) (entry : dir_info) :
  process_animations char_name anim_map manifest fs
  = Ok (manifest', fs', out) →
  dict_get game_state (animations_of manifest') = Some info →
  dict_get direction (ai_directions info) = Some entry →
  (1 ≤ di_frames entry)%nat.
Proof.
  intros Hrun Hinfo Hentry.
  destruct (manifest_entries _ _ _ _ _ _ _ _ _ Hrun Hinfo)
    as (nm & _ & _ & rs & rw & rn & Hrs & Hrw & Hrn & _ & _ & _ & _ & ->).
  simpl in Hentry. rewrite state_directions_lookup in Hentry.
  repeat case_decide; try done.
  - by destruct (east_entry_frames _ _ _ _ _ _ Hrw Hentry).
  - eapply direction_entry_frames; [exact Hrn|exact Hentry].
  - eapply direction_entry_frames; [exact Hrw|exact Hentry].
  - eapply direction_entry_frames; [exact Hrs|exact Hentry].
Qed.

(** ** The knight's run *)

Definition knight_manifest0 : char_manifest :=
  {| m_character := "knight"; m_rotations := None;
     m_animations := None; m_frame_totals := None |}.

Definition run_value {A} (c : M A) (fs : node) (d : A) : A :=
  match c fs with
  | Ok (a, _, _) => a
  | Raise _ => d
  end.

Definition run_log {A} (c : M A) (fs : node) : list string :=
  match c fs with
  | Ok (_, _, out) => out
  | Raise _ => []
  end.

Definition knight_animations : M char_manifest :=
  process_animations "knight" ANIM_MAP_DEFAULT knight_manifest0.

Definition knight_manifest : char_manifest :=
  run_value knight_animations knight_tree knight_manifest0.

Definition knight_output : node := run_tree knight_animations knight_tree.

Definition knight_log : list string := run_log knight_animations knight_tree.

Lemma knight_run :
  process_animations "knight" ANIM_MAP_DEFAULT knight_manifest0 knight_tree
  = Ok (knight_manifest, knight_output, knight_log).
Proof. vm_compute. reflexivity. Qed.

Definition knight_idle_info : anim_info :=
  default {| ai_source := ""; ai_directions := [] |}
    (dict_get "idle" (animations_of knight_manifest)).

Definition knight_entry (direction : string) : dir_info :=
  default {| di_source := ""; di_frames := 0; di_path := "" |}
    (dict_get direction (ai_directions knight_idle_info)).

Lemma east_source_is_mirror_west_witness :
  di_source (knight_entry "west") = "mirror(east)"
  ∧ di_source (knight_entry "east") = "mirror(west)".
Proof.
  split; [vm_compute; reflexivity|].
  apply (east_source_is_mirror_west "knight" ANIM_MAP_DEFAULT
           knight_manifest0 knight_manifest knight_tree knight_output
           knight_log "idle" knight_idle_info (knight_entry "east"));
    vm_compute; reflexivity.
Defined.

Lemma manifest_frames_positive_witness :
  (1 ≤ di_frames (knight_entry "north"))%nat.
Proof.
  apply (manifest_frames_positive "knight" ANIM_MAP_DEFAULT
           knight_manifest0 knight_manifest knight_tree knight_output
           knight_log "idle" "north" knight_idle_info (knight_entry "north"));
    vm_compute; reflexivity.
Defined.

(** * Skipped states *)

Lemma for_each_cons {A S} (x : A) l (body : A → S → M S) s :
  for_each (x :: l) body s = bind (body x s) (λ s', for_each l body s').
Proof. reflexivity. Qed.

Lemma for_each_app_Ok {A S} (l1 l2 : list A) (body : A → S → M S)
    s fs s' fs' out :
  for_each (l1 ++ l2) body s fs = Ok (s', fs', out) ↔
  ∃ s1 fs1 o1 o2,
    for_each l1 body s fs = Ok (s1, fs1, o1)
    ∧ for_each l2 body s1 fs1 = Ok (s', fs', o2) ∧ out = o1 ++ o2.
Proof.
  revert s fs out. induction l1 as [|x l1 IH]; intros s fs out; simpl.
  - split.
    + intros H. by exists s, fs, [], out.
    + intros (s1 & fs1 & o1 & o2 & (-> & -> & ->)%ret_Ok & H & ->). done.
  - split.
    + intros (s1 & fs1 & o1 & o2 & Hx & Hrest & ->)%bind_Ok.
      apply IH in Hrest as (s2 & fs2 & o3 & o4 & Hl1 & Hl2 & ->).
      exists s2, fs2, (o1 ++ o3), o4. split_and!; [|done|by rewrite (assoc_L (++))].
      unfold bind. by rewrite Hx, Hl1.
    + intros (s2 & fs2 & o & o4 & Hl1 & Hl2 & ->).
      apply bind_Ok in Hl1 as (s1 & fs1 & o1 & o3 & Hx & Hl1 & ->).
      unfold bind. rewrite Hx.
      assert (for_each (l1 ++ l2) body s1 fs1 = Ok (s', fs', o3 ++ o4)) as ->.
      { apply IH. by exists s2, fs2, o3, o4. }
      by rewrite (assoc_L (++)).
Qed.

Lemma process_animations_intro char_name anim_map manifest
    animations total_frames fs fs1 fs2 o1 o2 :
  for_each anim_map
    (process_animations_state char_name
       (SRC_CHARS ++ [char_name; "extracted"; "animations"])
       (OUT_DIR ++ [char_name; "animations"])) [] fs
  = Ok (animations, fs1, o1) →
  count_total_frames animations fs1 = Ok (total_frames, fs2, o2) →
  process_animations char_name anim_map manifest fs
  = Ok ({| m_character := m_character manifest;
           m_rotations := m_rotations manifest;
           m_animations := Some animations;
           m_frame_totals := Some total_frames |}, fs2, o1 ++ o2 ++ []).
Proof.
  intros Hloop Hcount. unfold process_animations, bind.
  by rewrite Hloop, Hcount.
Qed.

Section skip.
Variables (char_name game_state nm : string) (l1 l2 : dict string).
Variable fs : node.
Hypothesis missing :
  is_dir (SRC_CHARS ++ [char_name; "extracted"; "animations"; nm]) fs = false.

Let skip_line : string :=
  "  [SKIP] " +:+ game_state +:+ " (" +:+ nm +:+ "): not found".

Let states_loop (anim_map : dict string) : M (dict anim_info) :=
  for_each anim_map
    (process_animations_state char_name
       (SRC_CHARS ++ [char_name; "extracted"; "animations"])
       (OUT_DIR ++ [char_name; "animations"])) [].

Lemma skip_step a1 fs1 o1 :
  states_loop l1 fs = Ok (a1, fs1, o1) →
  process_animations_state char_name
    (SRC_CHARS ++ [char_name; "extracted"; "animations"])
    (OUT_DIR ++ [char_name; "animations"]) (game_state, nm) a1 fs1
  = Ok (a1, fs1, [skip_line]).
Proof.
  intros Hl1. apply process_animations_state_skip.
  apply (process_animations_states_Ok _ _ _ (anim_dirs_apart char_name) fs)
    in Hl1 as (Hch & _); [|apply changed_under_refl].
  assert (stable_below
            ((SRC_CHARS ++ [char_name; "extracted"; "animations"]) ++ [nm])
            fs fs1) as Hst.
  { eapply changed_under_stable; [done|].
    apply diverge_sym, diverge_app_l, diverge_sym, anim_dirs_apart. }
  rewrite (stable_is_dir _ _ _ Hst), <-(assoc_L (++)). exact missing.
Qed.

(** The loop over a mapping with a state whose source is missing does what
    the loop over the mapping without that state does, and prints the line. *)
Lemma skip_states_loop animations fs' out :
  states_loop (l1 ++ (game_state, nm) :: l2) fs = Ok (animations, fs', out) →
  skip_line ∈ out
  ∧ ∃ out', states_loop (l1 ++ l2) fs = Ok (animations, fs', out').
Proof.
  intros (a1 & fs1 & o1 & o2 & Hl1 & Hrest & ->)%for_each_app_Ok.
  rewrite for_each_cons in Hrest.
  apply bind_Ok in Hrest as (a2 & fs2 & o3 & o4 & Hstep & Hl2 & ->).
  rewrite (skip_step _ _ _ Hl1) in Hstep. simplify_eq. split; [set_solver|].
  exists (o1 ++ o4). apply for_each_app_Ok. by exists a2, fs2, o1, o4.
Qed.

Lemma skip_states_loop_inv animations fs' out' :
  states_loop (l1 ++ l2) fs = Ok (animations, fs', out') →
  ∃ out, states_loop (l1 ++ (game_state, nm) :: l2) fs
         = Ok (animations, fs', out).
Proof.
  intros (a1 & fs1 & o1 & o2 & Hl1 & Hl2 & ->)%for_each_app_Ok.
  exists (o1 ++ [skip_line] ++ o2).
  apply for_each_app_Ok. exists a1, fs1, o1, ([skip_line] ++ o2).
  split_and!; [done| |done]. rewrite for_each_cons. unfold bind.
  by rewrite (skip_step _ _ _ Hl1), Hl2.
Qed.
End skip.

(** C4.  A state whose source-animation folder is missing is skipped with a
    log line and without an error: the run does to the manifest and to the
    tree what the run without that state does, so the remaining states are
    processed all the same; the state has no key in the animations
    (its name being no other key of the mapping, as in every [dict]). *)
Theorem missing_source_state_skipped
    (char_name game_state nm : string) (l1 l2 : dict string)
    (manifest : char_manifest) (fs : node) :
  is_dir (SRC_CHARS ++ [char_name; "extracted"; "animations"; nm]) fs = false →
  game_state ∉ dict_keys (l1 ++ l2) →
  (∀ manifest' fs' out,
     process_animations char_name (l1 ++ (game_state, nm) :: l2) manifest fs
     = Ok (manifest', fs', out) →
     dict_get game_state (animations_of manifest') = None
     ∧ "  [SKIP] " +:+ game_state +:+ " (" +:+ nm +:+ "): not found" ∈ out
     ∧ ∃ out', process_animations char_name (l1 ++ l2) manifest fs
               = Ok (manifest', fs', out'))
  ∧ (∀ manifest' fs' out',
       process_animations char_name (l1 ++ l2) manifest fs
       = Ok (manifest', fs', out') →
       ∃ out,
         process_animations char_name (l1 ++ (game_state, nm) :: l2)
           manifest fs = Ok (manifest', fs', out)).
Proof.
  intros Hmissing Hkey. split.
  - intros manifest' fs' out Hrun.
    pose proof Hrun as (animations & total & o1 & o2 & Hloop & Hcount & -> & ->)
      %process_animations_Ok.
    pose proof (skip_states_loop _ _ _ _ _ _ Hmissing _ _ _ Hloop)
      as [Hline [out' Hloop']].
    pose proof (process_animations_intro _ _ manifest _ _ _ _ _ _ _
                  Hloop' Hcount) as Hrun'.
    split_and!; [|set_solver|by eexists].
    destruct (dict_get game_state _) as [info|] eqn:Hget; [|done].
    apply (manifest_entries _ _ _ _ _ _ _ _ _ Hrun') in Hget
      as (nm' & Hin & _).
    destruct Hkey. apply list_elem_of_fmap. by exists (game_state, nm').
  - intros manifest' fs' out' Hrun.
    pose proof Hrun as (animations & total & o1 & o2 & Hloop & Hcount & -> & ->)
      %process_animations_Ok.
    destruct (skip_states_loop_inv _ game_state _ _ _ _ Hmissing _ _ _ Hloop)
      as [out Hloop'].
    eexists. by eapply process_animations_intro.
Qed.

Lemma missing_source_state_skipped_witness :
  dict_get "attack" (animations_of knight_manifest) = None
  ∧ "  [SKIP] attack (cross-punch): not found" ∈ knight_log.
Proof.
  assert (is_dir (SRC_CHARS ++ ["knight"; "extracted"; "animations";
                                "cross-punch"]) knight_tree = false) as Hmissing.
  { vm_compute. reflexivity. }
  assert ("attack" ∉ dict_keys
            ([("idle", "breathing-idle")]
             ++ [("hit", "taking-punch"); ("death", "falling-back-death");
                 ("run", "running-6-frames"); ("defense", "crouching");
                 ("escape", "running-slide");
                 ("idle-alt", "fight-stance-idle-8-frames")])) as Hkey.
  { apply (bool_decide_unpack _). vm_compute. exact I. }
  destruct (proj1 (missing_source_state_skipped "knight" "attack" "cross-punch"
                     _ _ knight_manifest0 knight_tree Hmissing Hkey)
              knight_manifest knight_output knight_log knight_run)
    as (Habsent & Hline & _).
  split; [exact Habsent|exact Hline].
Defined.

(** * Frame totals *)

(** The frame count a state records for a direction, 0 when it has none. *)
Definition frames_of (d : string) (info : anim_info) : nat :=
  match dict_get d (ai_directions info) with
  | Some entry => di_frames entry
  | None => 0
  end.

(** The frames the items of a directions dict add up for the key [d]. *)
Fixpoint frames_at (d : string) (dirs : dict dir_info) : nat :=
  match dirs with
  | [] => 0
  | (k, entry) :: dirs' =>
      (if String.eqb k d then di_frames entry else 0) + frames_at d dirs'
  end.

Lemma frames_at_NoDup d dirs :
  NoDup (dict_keys dirs) →
  frames_at d dirs
  = match dict_get d dirs with Some entry => di_frames entry | None => 0 end.
Proof.
  induction dirs as [|[k entry] dirs IH]; simpl; [done|].
  intros [Hk Hnd]%NoDup_cons. rewrite IH by done.
  destruct (String.eqb_spec k d) as [->|]; [|done].
  rewrite dict_get_None by done. lia.
Qed.

Lemma dict_keys_set_present {V} (k : string) (v v0 : V) (d : dict V) :
  dict_get k d = Some v0 → dict_keys (dict_set k v d) = dict_keys d.
Proof.
  induction d as [|[k' v'] d IH]; simpl; [done|].
  destruct (String.eqb_spec k' k) as [->|]; [done|].
  intros H. simpl. f_equal. by apply IH.
Qed.

Lemma Forall_dict_set {V} (Q : V → Prop) (k : string) (v : V) (d : dict V) :
  Forall (λ kv, Q kv.2) d → Q v → Forall (λ kv, Q kv.2) (dict_set k v d).
Proof.
  intros Hd Hv. induction Hd as [|[k' v'] d Hx Hd IH]; simpl.
  - by repeat constructor.
  - destruct (String.eqb k' k); by constructor.
Qed.

Lemma add_frames_loop dirs :
  ∀ total total' fs fs' out,
    for_each dirs add_frames total fs = Ok (total', fs', out) →
    dict_keys total' = dict_keys total
    ∧ ∀ d, dict_get d total'
           = (λ n, n + frames_at d dirs) <$> dict_get d total.
Proof.
  induction dirs as [|[k entry] dirs IH]; intros total total' fs fs' out Hrun.
  - apply ret_Ok in Hrun as (-> & _). split; [done|].
    intros d. simpl. destruct (dict_get d total); simpl; [f_equal; lia|done].
  - rewrite for_each_cons in Hrun.
    apply bind_Ok in Hrun as (t1 & fs1 & ? & ? & Hadd & Hrun & ->).
    unfold add_frames in Hadd. simpl in Hadd.
    destruct (dict_get k total) as [n|] eqn:Hk; [|done].
    apply ret_Ok in Hadd as (-> & -> & ->).
    apply IH in Hrun as [Hkeys Hget]. split.
    + by rewrite Hkeys, (dict_keys_set_present _ _ _ _ Hk).
    + intros d. rewrite Hget, dict_get_set. simpl.
      destruct (String.eqb_spec k d) as [->|Hne].
      * rewrite decide_True, Hk by done. simpl. f_equal. lia.
      * rewrite decide_False by done. by destruct (dict_get d total).
Qed.

Lemma count_total_frames_loop infos :
  Forall (λ info, NoDup (dict_keys (ai_directions info))) infos →
  ∀ total total' fs fs' out,
    for_each infos (λ state_info, for_each (ai_directions state_info) add_frames)
      total fs = Ok (total', fs', out) →
    dict_keys total' = dict_keys total
    ∧ ∀ d, dict_get d total'
           = (λ n, n + sum_list (frames_of d <$> infos)) <$> dict_get d total.
Proof.
  induction 1 as [|info infos Hnd _ IH]; intros total total' fs fs' out Hrun.
  - apply ret_Ok in Hrun as (-> & _). split; [done|].
    intros d. simpl. destruct (dict_get d total); simpl; [f_equal; lia|done].
  - rewrite for_each_cons in Hrun.
    apply bind_Ok in Hrun as (t1 & fs1 & ? & ? & Hadd & Hrun & ->).
    apply add_frames_loop in Hadd as [Hkeys1 Hget1].
    apply IH in Hrun as [Hkeys Hget]. split; [congruence|].
    intros d. rewrite Hget, Hget1, fmap_cons. simpl. unfold frames_of at 2.
    rewrite <-(frames_at_NoDup _ _ Hnd).
    destruct (dict_get d total); simpl; [f_equal; lia|done].
Qed.

(** Every entry the states loop adds has distinct direction keys. *)
Lemma states_loop_directions char_name anim_map animations fs fs' out :
  for_each anim_map
    (process_animations_state char_name
       (SRC_CHARS ++ [char_name; "extracted"; "animations"])
       (OUT_DIR ++ [char_name; "animations"])) [] fs
  = Ok (animations, fs', out) →
  Forall (λ kv, NoDup (dict_keys (ai_directions kv.2))) animations.
Proof.
  apply (for_each_invariant
           (λ s _, Forall (λ kv : string * anim_info,
                             NoDup (dict_keys (ai_directions kv.2))) s));
    [|by constructor].
  intros [gs nm] s1 fs1 s2 fs2 o _ Hs1 Hstep.
  apply (state_step_entry _ _ _ (anim_dirs_apart char_name) fs1) in Hstep
    as [_ Hstep]; [|apply changed_under_refl].
  destruct (is_dir _ fs1).
  - destruct Hstep as [(info & (_ & rs & rw & rn & Hentry) & ->) _].
    apply (Forall_dict_set (λ v, NoDup (dict_keys (ai_directions v))));
      [done|].
    destruct Hentry as (_ & _ & _ & _ & _ & _ & _ & ->). simpl.
    apply state_directions_keys.
  - by destruct Hstep as [-> _].
Qed.

(** C6.  After all states are processed, [frame_totals] maps each of the
    four directions to the sum, over the states of the animations map, of
    the frame count the state records for that direction (0 for a state
    without the direction, hence 0 when no state has it). *)
Theorem frame_totals_sum
    (char_name : string) (anim_map : dict string)
    (manifest manifest' : char_manifest) (fs fs' : node) (out : list string) :
  process_animations char_name anim_map manifest fs
  = Ok (manifest', fs', out) →
  ∃ animations total_frames,
    m_animations manifest' = Some animations
    ∧ m_frame_totals manifest' = Some total_frames
    ∧ dict_keys total_frames = ["south"; "west"; "north"; "east"]
    ∧ ∀ d, d ∈ ["south"; "west"; "north"; "east"] →
        dict_get d total_frames
        = Some (sum_list (frames_of d <$> dict_values animations)).
Proof.
  intros (animations & total & o1 & o2 & Hloop & Hcount & -> & _)
    %process_animations_Ok.
  exists animations, total. split_and!; [done..| |].
  - unfold count_total_frames in Hcount.
    apply count_total_frames_loop in Hcount as [Hkeys _]; [done|].
    apply states_loop_directions in Hloop.
    unfold dict_values. apply Forall_fmap. by apply (Forall_impl _ _ _ Hloop).
  - intros d Hd. unfold count_total_frames in Hcount.
    apply count_total_frames_loop in Hcount as [_ Hget].
    2:{ apply states_loop_directions in Hloop.
        unfold dict_values. apply Forall_fmap.
        by apply (Forall_impl _ _ _ Hloop). }
    rewrite Hget.
    repeat (apply elem_of_cons in Hd as [->|Hd]; [done|]).
    by apply elem_of_nil in Hd.
Qed.

Definition knight_totals : dict nat :=
  default [] (m_frame_totals knight_manifest).

Lemma frame_totals_sum_witness :
  dict_get "west" knight_totals = Some 3
  ∧ dict_get "south" knight_totals = Some 2.
Proof.
  destruct (frame_totals_sum "knight" ANIM_MAP_DEFAULT knight_manifest0
              knight_manifest knight_tree knight_output knight_log knight_run)
    as (animations & total & Hanimations & Htotal & _ & Hsum).
  unfold knight_totals. rewrite Htotal. simpl.
  vm_compute in Hanimations. injection Hanimations as <-.
  split.
  - rewrite Hsum by (apply list_elem_of_In; simpl; tauto).
    vm_compute. reflexivity.
  - rewrite Hsum by (apply list_elem_of_In; simpl; tauto).
    vm_compute. reflexivity.
Defined.

(** * What the run leaves under the output tree *)

Lemma anim_src_flat char_name nm :
  (SRC_CHARS ++ [char_name; "extracted"; "animations"]) ++ [nm]
  = SRC_CHARS ++ [char_name; "extracted"; "animations"; nm].
Proof. by rewrite <-(assoc_L (++)). Qed.

Lemma anim_dst_flat char_name game_state d :
  (OUT_DIR ++ [char_name; "animations"]) ++ [game_state; d]
  = OUT_DIR ++ [char_name; "animations"; game_state; d].
Proof. by rewrite <-(assoc_L (++)). Qed.

(** With distinct states and no animations directory in the output yet, a
    state of the mapping whose source is there has its manifest entry and
    its output directories, both decided by the three resolutions. *)
Lemma manifest_outputs char_name anim_map manifest manifest' fs fs' out
    gs nm :
  NoDup (dict_keys anim_map) →
  lookup_path (OUT_DIR ++ [char_name; "animations"]) fs = None →
  process_animations char_name anim_map manifest fs
  = Ok (manifest', fs', out) →
  (gs, nm) ∈ anim_map →
  is_dir (SRC_CHARS ++ [char_name; "extracted"; "animations"; nm]) fs = true →
  ∃ rs rw rn,
    find_source_dir
      (SRC_CHARS ++ [char_name; "extracted"; "animations"; nm]) "south" fs
    = Ok rs
    ∧ find_source_dir
        (SRC_CHARS ++ [char_name; "extracted"; "animations"; nm]) "west" fs
      = Ok rw
    ∧ find_source_dir
        (SRC_CHARS ++ [char_name; "extracted"; "animations"; nm]) "north" fs
      = Ok rn
    ∧ dict_get gs (animations_of manifest')
      = Some {| ai_source := nm;
                ai_directions := state_directions char_name gs rs rw rn fs |}
    ∧ output_ok (OUT_DIR ++ [char_name; "animations"; gs; "south"]) rs fs fs'
    ∧ output_ok (OUT_DIR ++ [char_name; "animations"; gs; "west"]) rw fs fs'
    ∧ output_ok (OUT_DIR ++ [char_name; "animations"; gs; "north"]) rn fs fs'
    ∧ output_ok (OUT_DIR ++ [char_name; "animations"; gs; "east"])
        (rw.1, negb rw.2) fs fs'
    ∧ source_ok rs rs.2 fs ∧ source_ok rw rw.2 fs ∧ source_ok rn rn.2 fs
    ∧ source_ok rw (negb rw.2) fs.
Proof.
  intros Hnd Hnew
    (animations & total & o1 & o2 & Hloop & _ & -> & _)%process_animations_Ok
    Hin Hdir.
  apply (process_animations_states_Ok _ _ _ (anim_dirs_apart char_name) fs)
    in Hloop as (_ & _ & Hcomplete & _); [|apply changed_under_refl].
  specialize (Hcomplete Hnd).
  assert (∀ g, g ∈ dict_keys anim_map →
            lookup_path ((OUT_DIR ++ [char_name; "animations"]) ++ [g]) fs
            = None) as Hfresh.
  { intros g _. by rewrite lookup_path_app, Hnew. }
  specialize (Hcomplete Hfresh gs nm Hin).
  rewrite anim_src_flat, Hdir in Hcomplete.
  destruct Hcomplete as [(info & Hentry & Hget) Hout].
  destruct Hentry as (_ & rs & rw & rn & Hrs & Hrw & Hrn
                      & Ht1 & Ht2 & Ht3 & Ht4 & ->).
  destruct Hout as (rs' & rw' & rn' & Hrs' & Hrw' & Hrn'
                    & Hos & How & Hon & Hoe).
  rewrite !anim_src_flat in *. rewrite !anim_dst_flat in *.
  assert (rs' = rs) as -> by congruence.
  assert (rw' = rw) as -> by congruence.
  assert (rn' = rn) as -> by congruence.
  by exists rs, rw, rn.
Qed.

(** The east derivation of one character, whose animations output is not
    there yet: the east directory holds the frames of the original east
    source, unmirrored, when west needed the mirror-of-east fallback, and
    the mirrored frames of the resolved west source otherwise; when west
    could not be resolved, no east directory is written and the state's
    directions have no east entry. *)
Lemma process_animations_east_derivation
    (char_name game_state nm : string) (anim_map : dict string)
    (manifest manifest' : char_manifest) (fs fs' : node) (out : list string)
    (west : option path) (west_mirrored : bool) :
  let anim_src :=
    SRC_CHARS ++ [char_name; "extracted"; "animations"; nm] in
  let east_dst :=
    OUT_DIR ++ [char_name; "animations"; game_state; "east"] in
  NoDup (dict_keys anim_map) →
  lookup_path (OUT_DIR ++ [char_name; "animations"]) fs = None →
  process_animations char_name anim_map manifest fs
  = Ok (manifest', fs', out) →
  (game_state, nm) ∈ anim_map →
  is_dir anim_src fs = true →
  find_source_dir anim_src "west" fs = Ok (west, west_mirrored) →
  match west with
  | Some west_src =>
      (∀ f nd, png_entries west_src fs !! f = Some nd →
         ∃ px, nd = File (Image px))
      ∧ if west_mirrored then
          west_src = anim_src ++ ["east"]
          ∧ lookup_path east_dst fs'
            = Some (Dir (png_entries (anim_src ++ ["east"]) fs))
        else
          lookup_path east_dst fs'
          = Some (Dir (mirrored <$> png_entries west_src fs))
  | None =>
      lookup_path east_dst fs' = None
      ∧ ∃ info,
          dict_get game_state (animations_of manifest') = Some info
          ∧ dict_get "east" (ai_directions info) = None
  end.
Proof.
  intros anim_src east_dst Hnd Hnew Hrun Hin Hdir Hwest.
  destruct (manifest_outputs _ _ _ _ _ _ _ _ _ Hnd Hnew Hrun Hin Hdir)
    as (rs & rw & rn & _ & Hrw & _ & Hget & _ & _ & _ & Hoe
        & _ & Htw & _ & Hte).
  fold anim_src in Hrw. rewrite Hwest in Hrw. injection Hrw as <-.
  unfold output_ok, source_ok in *. simpl in *. fold east_dst in Hoe.
  destruct west as [west_src|].
  - split.
    + intros f nd Hf.
      destruct west_mirrored.
      * destruct (Htw _ eq_refl f nd Hf) as (c & -> & [px ->]); [done|].
        by exists px.
      * destruct (Hte _ eq_refl f nd Hf) as (c & -> & [px ->]); [done|].
        by exists px.
    + destruct west_mirrored; simpl in Hoe.
      * apply find_source_dir_Some in Hwest as (c & -> & _ & Hc).
        destruct (Hc eq_refl) as [_ ->]. split; [done|].
        rewrite Hoe. unfold output_of. do 2 f_equal. apply map_fmap_id.
      * done.
  - split; [done|]. eexists. split; [exact Hget|]. simpl.
    rewrite state_directions_lookup. by rewrite decide_True by done.
Qed.

(** * Frame counts *)

(** A directory that holds the transferred selected entries of a source
    has them as its own selected entries. *)
Lemma png_entries_output dst_dir src_dir (g : node → node) fs fs' :
  lookup_path dst_dir fs' = Some (Dir (g <$> png_entries src_dir fs)) →
  png_entries dst_dir fs' = g <$> png_entries src_dir fs.
Proof.
  intros Hdst. unfold png_entries at 1. rewrite Hdst.
  apply map_filter_id. intros f nd [nd0 [_ Hf]]%lookup_fmap_Some.
  by apply png_entries_lookup in Hf as [_ Hf].
Qed.

Lemma output_frames dst_dir src_dir mirror fs fs' :
  lookup_path dst_dir fs' = Some (output_of src_dir mirror fs) →
  List.length (glob_png dst_dir fs') = size (png_entries src_dir fs).
Proof.
  intros Hdst%png_entries_output.
  by rewrite length_glob_png, Hdst, map_size_fmap.
Qed.

Lemma copy_or_mirror_frames_steps src dst mirror fs n fs' out :
  diverge dst src →
  copy_or_mirror_frames src dst mirror fs = Ok (n, fs', out) →
  ∃ fs1,
    mkdir_p true dst fs = Ok fs1
    ∧ for_ (sorted (glob_png src fs)) (transfer_frame src dst mirror) fs1
      = Ok (tt, fs', [])
    ∧ n = List.length (sorted (glob_png src fs)).
Proof.
  intros Hap Hrun.
  pose proof (copy_or_mirror_frames_Ok _ _ _ Hap _ _ _ _ Hrun) as (_ & -> & _).
  unfold copy_or_mirror_frames in Hrun.
  apply bind_Ok in Hrun as ([] & fs1 & ? & ? & [Hmk ->]%update_Ok & Hrun & Ho).
  apply bind_Ok in Hrun as (? & ? & ? & ? & (-> & -> & ->)%ask_Ok & Hrun & ->).
  apply bind_Ok in Hrun as ([] & ? & o & ? & Hloop & (-> & -> & ->)%ret_Ok & ->).
  assert (stable_below src fs fs1) as Hst.
  { eapply changed_under_stable; [by eapply mkdir_p_changed|done]. }
  rewrite (stable_glob_png _ _ _ Hst) in Hloop |- *.
  exists fs1. split_and!; [done| |done].
  simpl in Ho. rewrite !(right_id_L [] (++)) in Ho. by subst.
Qed.

(** The copier: the frame list is the names [*.png] directly in the source
    directory, sorted, and it is walked in that order after the destination
    is made; every frame is a regular file and is written under its own name
    in the destination, nothing else below the destination changes, and the
    count returned is the number of frames. *)
Lemma copy_or_mirror_frames_counted
    (src_dir dst_dir : path) (mirror : bool) (fs fs' : node)
    (n : nat) (out : list string) :
  diverge dst_dir src_dir →
  copy_or_mirror_frames src_dir dst_dir mirror fs = Ok (n, fs', out) →
  let frames := sorted (glob_png src_dir fs) in
  (∀ f, f ∈ frames ↔
        endswith f ".png" = true
        ∧ is_Some (lookup_path (src_dir ++ [f]) fs))
  ∧ NoDup frames ∧ Sorted str_le frames
  ∧ (∃ fs1, mkdir_p true dst_dir fs = Ok fs1
            ∧ for_ frames (transfer_frame src_dir dst_dir mirror) fs1
              = Ok (tt, fs', []))
  ∧ n = List.length frames
  ∧ (∀ f, f ∈ frames →
       ∃ c, lookup_path (src_dir ++ [f]) fs = Some (File c)
            ∧ (is_dir (dst_dir ++ [f]) fs = false →
               lookup_path (dst_dir ++ [f]) fs'
               = Some (transfer mirror (File c))))
  ∧ (∀ f, f ∉ frames → stable_below (dst_dir ++ [f]) fs fs').
Proof.
  intros Hap Hrun frames.
  pose proof (copy_or_mirror_frames_Ok _ _ _ Hap _ _ _ _ Hrun)
    as (_ & _ & _ & Hin & Hout).
  pose proof (copy_or_mirror_frames_steps _ _ _ _ _ _ _ Hap Hrun)
    as (fs1 & Hmk & Hloop & ->).
  assert (∀ f, f ∈ frames ↔ is_Some (png_entries src_dir fs !! f)) as Hmem.
  { intros f. unfold frames. by rewrite elem_of_sorted, elem_of_glob_png. }
  split_and!.
  - intros f. rewrite Hmem. split.
    + intros [nd [Hf He]%png_entries_lookup]. split; [done|by eexists].
    + intros [He [nd Hf]]. exists nd. by apply png_entries_lookup.
  - apply NoDup_sorted, NoDup_glob_png.
  - apply sorted_Sorted.
  - by exists fs1.
  - done.
  - intros f [nd Hf]%Hmem. destruct (Hin f nd Hf) as (c & -> & _ & Hw).
    exists c. split; [|done]. by apply png_entries_lookup in Hf as [Hf _].
  - intros f Hf. apply Hout. rewrite Hmem in Hf.
    by destruct (png_entries src_dir fs !! f); [destruct Hf|].
Qed.

(** The frames a character's manifest records for a state's direction: the
    number of frames of the resolved source, a directory of the source
    tree, and the number of [*.png] files left in the direction's
    destination directory. *)
Lemma process_animations_frames_counted
    (char_name : string) (anim_map : dict string)
    (manifest manifest' : char_manifest) (fs fs' : node)
    (out : list string) (game_state direction : string)
    (info : anim_info) (entry : dir_info) :
  NoDup (dict_keys anim_map) →
  lookup_path (OUT_DIR ++ [char_name; "animations"]) fs = None →
  process_animations char_name anim_map manifest fs
  = Ok (manifest', fs', out) →
  dict_get game_state (animations_of manifest') = Some info →
  dict_get direction (ai_directions info) = Some entry →
  let dst_dir :=
    OUT_DIR ++ [char_name; "animations"; game_state; direction] in
  ∃ src_dir mirror,
    SRC_CHARS `prefix_of` src_dir
    ∧ lookup_path dst_dir fs'
      = Some (Dir (transfer mirror <$> png_entries src_dir fs))
    ∧ di_frames entry = List.length (sorted (glob_png src_dir fs))
    ∧ di_frames entry = List.length (glob_png dst_dir fs').
Proof.
  intros Hnd Hnew Hrun Hinfo Hentry dst_dir.
  destruct (manifest_entries _ _ _ _ _ _ _ _ _ Hrun Hinfo)
    as (nm & Hin & Hdir & _).
  rewrite anim_src_flat in Hdir.
  destruct (manifest_outputs _ _ _ _ _ _ _ _ _ Hnd Hnew Hrun Hin Hdir)
    as (rs & rw & rn & Hrs & Hrw & Hrn & Hget & Hos & How & Hon & Hoe & _).
  rewrite Hinfo in Hget. injection Hget as ->. simpl in Hentry.
  rewrite state_directions_lookup in Hentry.
  assert (∀ d (r : option path * bool) mirror e,
            find_source_dir
              (SRC_CHARS ++ [char_name; "extracted"; "animations"; nm]) d fs
            = Ok r →
            output_ok dst_dir (r.1, mirror) fs fs' →
            (∃ src_dir, r.1 = Some src_dir
               ∧ di_frames e = size (png_entries src_dir fs)) →
            ∃ src_dir mirror,
              SRC_CHARS `prefix_of` src_dir
              ∧ lookup_path dst_dir fs'
                = Some (Dir (transfer mirror <$> png_entries src_dir fs))
              ∧ di_frames e = List.length (sorted (glob_png src_dir fs))
              ∧ di_frames e = List.length (glob_png dst_dir fs')) as Hcase.
  { intros d r mirror e Hr Hok (src_dir & Hsrc & Hframes).
    unfold output_ok in Hok. cbn [fst snd] in Hok. rewrite Hsrc in Hok.
    exists src_dir, mirror. split_and!; [|done| |].
    - destruct r as [? mr]. simpl in Hsrc. subst.
      apply find_source_dir_Some in Hr as (c & -> & _).
      rewrite <-(assoc_L (++)). by eexists.
    - by rewrite length_sorted, length_glob_png.
    - by rewrite (output_frames _ _ _ _ _ Hok). }
  unfold dst_dir in *. unfold east_entry, direction_entry in Hentry.
  repeat case_decide; subst; try done.
  - apply (Hcase "west" rw (negb rw.2)); [done..|].
    destruct rw.1 as [w|]; [|done]. injection Hentry as <-. by exists w.
  - apply (Hcase "north" rn rn.2); [done|by destruct rn|].
    destruct rn.1 as [w|]; [|done]. injection Hentry as <-. by exists w.
  - apply (Hcase "west" rw rw.2); [done|by destruct rw|].
    destruct rw.1 as [w|]; [|done]. injection Hentry as <-. by exists w.
  - apply (Hcase "south" rs rs.2); [done|by destruct rs|].
    destruct rs.1 as [w|]; [|done]. injection Hentry as <-. by exists w.
Qed.

(** * The rotations of the manifest *)

Definition knight_rot_src : path :=
  SRC_CHARS ++ ["knight"; "extracted"; "rotations"].

Definition knight_rot_dst : path := OUT_DIR ++ ["knight"; "rotations"].

Definition knight_rotation : M char_manifest :=
  process_rotation "knight" knight_manifest0.

(** C3.  The knight's rotations have no [west.png] and no fallback file for
    west: the resolver warns, writes neither [west.png] nor [east.png], and
    the manifest still lists west and east among the rotation directions. *)
Theorem rotation_manifest_lists_missing_directions :
  exists_ (knight_rot_src ++ ["west.png"]) knight_tree = false
  ∧ rotation_fallback knight_rot_src ["west"; "south-west"] knight_tree = None
  ∧ ∃ manifest fs' out,
      knight_rotation knight_tree = Ok (manifest, fs', out)
      ∧ "  [WARN] rotation/west: no source found" ∈ out
      ∧ lookup_path (knight_rot_dst ++ ["west.png"]) fs' = None
      ∧ lookup_path (knight_rot_dst ++ ["east.png"]) fs' = None
      ∧ (ri_directions <$> m_rotations manifest)
        = Some ["south"; "west"; "north"; "east"].
Proof.
  split; [vm_compute; reflexivity|]. split; [vm_compute; reflexivity|].
  exists (run_value knight_rotation knight_tree knight_manifest0),
    (run_tree knight_rotation knight_tree),
    (run_log knight_rotation knight_tree).
  split_and!; try (vm_compute; reflexivity).
  apply (bool_decide_unpack _). vm_compute. exact I.
Qed.

(** * Running the pipeline twice *)

Section rmtree.
Implicit Types (p q : path) (fs : node).

Lemma rmtree_lookup p fs fs' :
  rmtree p fs = Ok fs' → lookup_path p fs' = None.
Proof.
  revert fs fs'. induction p as [|x p IH]; intros fs fs'; simpl; [done|].
  destruct fs as [c|m]; [done|]. destruct p as [|y p].
  - destruct (m !! x) as [[?|?]|]; try done. intros [= <-]. simpl.
    by rewrite lookup_delete_eq.
  - destruct (m !! x) as [child|]; [|done].
    destruct (rmtree (y :: p) child) as [child'|] eqn:E; [|done].
    intros [= <-]. simpl lookup_path at 1. rewrite lookup_insert_eq. simpl.
    by apply IH in E.
Qed.

(** Two trees that differ only at [p] and below it, with the same
    directories above, are the same tree once [p] is removed. *)
Lemma rmtree_agree p fs fs' :
  (∀ q, diverge p q → lookup_path q fs' = lookup_path q fs) →
  (∀ q, q `prefix_of` p → is_dir q fs = true ∧ is_dir q fs' = true) →
  rmtree p fs' = rmtree p fs.
Proof.
  revert fs fs'. induction p as [|x p IH]; intros fs fs' Hframe Hdirs; [done|].
  destruct (Hdirs [] (prefix_nil _)) as [Hd Hd'].
  destruct fs as [c|m]; [done|]. destruct fs' as [c'|m']; [done|].
  assert (∀ y, y ≠ x → m' !! y = m !! y) as Hother.
  { intros y Hne. specialize (Hframe [y]). simpl in Hframe.
    destruct (m' !! y), (m !! y); simpl in Hframe; apply Hframe;
      (split; [intros Hp%prefix_cons_inv_1|intros Hp%prefix_cons_inv_1]);
      congruence. }
  destruct (Hdirs [x]) as [Hx Hx']. { by apply prefix_cons, prefix_nil. }
  apply is_dir_lookup in Hx as [mx Hx]. apply is_dir_lookup in Hx' as [mx' Hx'].
  simpl in Hx, Hx'.
  destruct (m !! x) as [child|] eqn:Ex; [|done].
  destruct (m' !! x) as [child'|] eqn:Ex'; [|done].
  simpl in Hx, Hx'. simplify_eq. simpl. rewrite Ex, Ex'.
  destruct p as [|y p].
  - do 2 f_equal. apply map_eq. intros z.
    destruct (decide (z = x)) as [->|Hne].
    + by rewrite !lookup_delete_eq.
    + rewrite !lookup_delete_ne by done. by apply Hother.
  - rewrite (IH (Dir mx) (Dir mx')).
    + destruct (rmtree (y :: p) (Dir mx)) as [c|]; [|done].
      do 2 f_equal. apply map_eq. intros z.
      destruct (decide (z = x)) as [->|Hne].
      * by rewrite !lookup_insert_eq.
      * rewrite !lookup_insert_ne by done. by apply Hother.
    + intros q [Hq1 Hq2]. specialize (Hframe (x :: q)). simpl in Hframe.
      rewrite Ex, Ex' in Hframe. simpl in Hframe. apply Hframe.
      split; intros Hp%prefix_cons_inv_2; done.
    + intros q Hq. destruct (Hdirs (x :: q)) as [H1 H2].
      { by apply prefix_cons. }
      unfold is_dir in *. simpl in H1, H2. rewrite Ex in H1. rewrite Ex' in H2.
      done.
Qed.

(** Removing a directory that [mkdir] made where nothing was, and making
    it again, gives the same tree. *)
Lemma mkdir_rmtree_mkdir p :
  ∀ e fs fs',
    p ≠ [] → lookup_path p fs = None → mkdir_p e p fs = Ok fs' →
    ∃ fs0, rmtree p fs' = Ok fs0 ∧ mkdir_p false p fs0 = Ok fs'.
Proof.
  induction p as [|x p IH]; intros e fs fs' Hp Hnone Hmk; [done|].
  simpl in Hmk. destruct fs as [c|m]; [done|]. simpl in Hnone.
  assert (∃ e' child child',
            mkdir_p e' p child = Ok child' ∧ fs' = Dir (<[x := child']> m)
            ∧ (p ≠ [] → lookup_path p child = None)
            ∧ (p = [] → m !! x = None ∧ child' = Dir ∅))
    as (e' & child & child' & Hchild & -> & Hfresh & Hleaf).
  { destruct (m !! x) as [child|] eqn:Ex; simpl in Hnone.
    - destruct (mkdir_p e p child) as [child'|] eqn:E; [|done].
      simplify_eq. exists e, child, child'. split_and!; [done..|].
      intros ->. done.
    - destruct (mkdir_p true p (Dir ∅)) as [child'|] eqn:E; [|done].
      simplify_eq. exists true, (Dir ∅), child'. split_and!; [done..| |].
      + intros Hne. destruct p; [done|]. simpl. by rewrite lookup_empty.
      + intros ->. simpl in E. by simplify_eq. }
  destruct p as [|y p].
  - destruct Hleaf as [Ex ->]; [done|].
    exists (Dir m). simpl. rewrite lookup_insert_eq. split.
    + by rewrite delete_insert_id.
    + by rewrite Ex.
  - destruct (IH e' child child') as (c0 & Hrm & Hmk0); [done|by apply Hfresh|done|].
    exists (Dir (<[x := c0]> m)). split.
    + simpl rmtree. rewrite lookup_insert_eq. simpl in Hrm. rewrite Hrm.
      by rewrite insert_insert_eq.
    + simpl mkdir_p. rewrite lookup_insert_eq. simpl in Hmk0. rewrite Hmk0.
      by rewrite insert_insert_eq.
Qed.
End rmtree.

(** The end of [main]: the master manifest and the final report. *)
Definition main_report (all_manifests : dict char_manifest) : M unit :=
  let master_path := OUT_DIR ++ ["manifest.json"] in
  let* _ :=
    update (write_file master_path
              (Json (JObject (prod_map id manifest_json <$> all_manifests)))) in
  let* _ := print (newline +:+ rule) in
  let* _ := print "DONE! Output at: {OUT_DIR}" in
  let* _ := print rule in
  let* _ := print (newline +:+ "== FINAL REPORT ==" +:+ newline) in
  for_ all_manifests (λ '(char_name, m),
    let* _ := print (char_name +:+ ":") in
    let* _ := for_ (animations_of m) (λ '(state, info),
                print (report_line state info)) in
    print "").

(** [main] once the output directory is reset. *)
Definition main_after_reset : M unit :=
  let* all_manifests := for_each CHARACTERS main_character [] in
  main_report all_manifests.

(** The tree the "Clean output directory" step of [main] leaves. *)
Definition reset_output (fs : node) : result node :=
  match (if exists_ OUT_DIR fs then rmtree OUT_DIR fs else Ok fs) with
  | Ok fs1 => mkdir_p false OUT_DIR fs1
  | Raise e => Raise e
  end.

Lemma main_reset fs :
  main fs
  = match reset_output fs with
    | Ok fs0 => main_after_reset fs0
    | Raise e => Raise e
    end.
Proof.
  change main with
    (let* stale := ask (exists_ OUT_DIR) in
     let* _ := if stale then update (rmtree OUT_DIR) else ret tt in
     let* _ := update (mkdir_p false OUT_DIR) in
     main_after_reset).
  unfold bind at 1 2 3, ask, update, ret, reset_output.
  destruct (exists_ OUT_DIR fs).
  - destruct (rmtree OUT_DIR fs) as [fs1|]; [|done].
    destruct (mkdir_p false OUT_DIR fs1) as [fs0|]; [|done].
    by destruct (main_after_reset fs0) as [[[[] ?] ?]|].
  - destruct (mkdir_p false OUT_DIR fs) as [fs0|]; [|done].
    by destruct (main_after_reset fs0) as [[[[] ?] ?]|].
Qed.

Lemma main_report_writes all_manifests :
  writes_under (OUT_DIR ++ ["manifest.json"]) (main_report all_manifests).
Proof.
  unfold main_report. writes_auto.
  - apply writes_update. intros. by eapply write_file_changed.
  - apply writes_for_. intros [char_name m]. writes_auto.
    apply writes_for_. intros [state info]. apply writes_print.
Qed.

Lemma main_after_reset_writes : writes_under OUT_DIR main_after_reset.
Proof.
  unfold main_after_reset. writes_auto.
  - apply writes_for_each. intros item all.
    apply (writes_weaken _ [item.1]), main_character_writes.
  - apply (writes_weaken _ ["manifest.json"]), main_report_writes.
Qed.

Lemma reset_output_Ok fs fs0 :
  reset_output fs = Ok fs0 →
  (∀ q, q `prefix_of` OUT_DIR → is_dir q fs0 = true)
  ∧ ∃ fs1, rmtree OUT_DIR fs0 = Ok fs1 ∧ mkdir_p false OUT_DIR fs1 = Ok fs0.
Proof.
  unfold reset_output. intros Hreset.
  assert (∃ fs1, lookup_path OUT_DIR fs1 = None
                 ∧ mkdir_p false OUT_DIR fs1 = Ok fs0) as (fs1 & Hnone & Hmk).
  { destruct (exists_ OUT_DIR fs) eqn:He.
    - destruct (rmtree OUT_DIR fs) as [fs1|] eqn:Hrm; [|done].
      exists fs1. split; [by eapply rmtree_lookup|done].
    - exists fs. split; [|done].
      apply bool_decide_eq_false in He.
      by destruct (lookup_path OUT_DIR fs); [destruct He|]. }
  split.
  - intros q Hq. by eapply mkdir_p_is_dir_prefix.
  - by eapply mkdir_rmtree_mkdir.
Qed.

(** Resetting the output of a tree that differs from a freshly reset one
    under the output directory only gives the freshly reset tree back. *)
Lemma reset_output_again fs fs0 fs' :
  reset_output fs = Ok fs0 → changed_under OUT_DIR fs0 fs' →
  reset_output fs' = Ok fs0.
Proof.
  intros (Hdirs & fs1 & Hrm & Hmk)%reset_output_Ok [Hframe Hkeep].
  unfold reset_output.
  assert (exists_ OUT_DIR fs' = true) as ->.
  { apply exists_lookup. specialize (Hkeep OUT_DIR (Hdirs _ (reflexivity _))).
    apply is_dir_lookup in Hkeep as [m ->]. by eexists. }
  rewrite (rmtree_agree OUT_DIR fs0 fs'), Hrm; [done..|].
  intros q Hq. split; [by apply Hdirs|by apply Hkeep, Hdirs].
Qed.

(** C7.  A run is a function of the tree it starts on, and a second run on
    the tree the first run left gives that same tree again, manifests
    included, and prints the same lines: the output is wiped and rebuilt
    from sources the run never writes. *)
Theorem main_idempotent (fs fs' : node) (out : list string) :
  main fs = Ok (tt, fs', out) → main fs' = Ok (tt, fs', out).
Proof.
  rewrite !main_reset. destruct (reset_output fs) as [fs0|] eqn:Hreset; [|done].
  intros Hrun.
  pose proof (main_after_reset_writes _ _ _ _ Hrun) as Hch.
  by rewrite (reset_output_again _ _ _ Hreset Hch).
Qed.

(** ** A source tree with the three characters *)

Definition knight_files : node :=
  dir [("extracted",
        dir [("rotations", dir [("south.png", sprite 1);
                                ("north.png", sprite 2)]);
             ("animations", dir [("breathing-idle", knight_idle)])])].

Definition warrior_files : node :=
  dir [("extracted",
        dir [("rotations", dir [("south.png", sprite 3);
                                ("west.png", sprite 4);
                                ("north.png", sprite 5)]);
             ("animations",
              dir [("breathing-idle",
                    dir [("south", dir [("frame_000.png", sprite 100)]);
                         ("west", dir [("frame_000.png", sprite 110);
                                       ("frame_001.png", sprite 120)]);
                         ("north-east", dir [("frame_000.png", sprite 130)])]);
                   ("cross-punch",
                    dir [("south-west",
                          dir [("frame_000.png", sprite 140)])])])])].

Definition archer_files : node :=
  dir [("rotations", dir [("south-west.png", sprite 6)])].

Definition studio_tree : node :=
  under SRC_CHARS
    (dir [("armored-warrior", warrior_files);
          ("archer", archer_files);
          ("knight", knight_files)]).

Definition studio_output : node := run_tree main studio_tree.

Definition studio_log : list string := run_log main studio_tree.

Lemma studio_run : main studio_tree = Ok (tt, studio_output, studio_log).
Proof. vm_compute. reflexivity. Qed.

Lemma main_idempotent_witness :
  main studio_output = Ok (tt, studio_output, studio_log).
Proof. apply (main_idempotent studio_tree). exact studio_run. Defined.

(** * The whole run *)

Lemma rmtree_frame p fs fs' q :
  rmtree p fs = Ok fs' → diverge p q → lookup_path q fs' = lookup_path q fs.
Proof.
  revert fs fs' q. induction p as [|x p IH]; intros fs fs' q; simpl; [done|].
  destruct fs as [c|m]; [done|]. intros Hrm [Hpq Hqp].
  destruct q as [|y q]; [destruct Hqp; apply prefix_nil|].
  destruct p as [|z p].
  - destruct (m !! x) as [[?|?]|]; try done. simplify_eq. simpl.
    destruct (decide (x = y)) as [->|Hne].
    + destruct Hpq. apply prefix_cons, prefix_nil.
    + by rewrite lookup_delete_ne.
  - destruct (m !! x) as [child|] eqn:Ex; [|done].
    destruct (rmtree (z :: p) child) as [child'|] eqn:E; [|done].
    simplify_eq. simpl lookup_path.
    destruct (decide (x = y)) as [->|Hne].
    + rewrite lookup_insert_eq, Ex. simpl. eapply IH; [done|].
      split; intros Hp; [apply Hpq|apply Hqp]; by apply prefix_cons.
    + by rewrite lookup_insert_ne.
Qed.

(** The reset leaves an empty output directory and touches nothing that is
    not at, above or below it. *)
Lemma reset_output_spec fs fs0 :
  reset_output fs = Ok fs0 →
  lookup_path OUT_DIR fs0 = Some (Dir ∅)
  ∧ ∀ q, diverge OUT_DIR q → lookup_path q fs0 = lookup_path q fs.
Proof.
  unfold reset_output. intros Hreset.
  assert (∃ fs1, lookup_path OUT_DIR fs1 = None
                 ∧ mkdir_p false OUT_DIR fs1 = Ok fs0
                 ∧ ∀ q, diverge OUT_DIR q →
                     lookup_path q fs1 = lookup_path q fs)
    as (fs1 & Hnone & Hmk & Hsame).
  { destruct (exists_ OUT_DIR fs) eqn:He.
    - destruct (rmtree OUT_DIR fs) as [fs1|] eqn:Hrm; [|done].
      exists fs1. split_and!; [by eapply rmtree_lookup|done|].
      intros q Hq. by eapply rmtree_frame.
    - exists fs. split_and!; [|done..].
      apply bool_decide_eq_false in He.
      by destruct (lookup_path OUT_DIR fs); [destruct He|]. }
  split; [by eapply mkdir_p_fresh|].
  intros q Hq. rewrite <-Hsame by done.
  eapply mkdir_p_frame; [done|]. by destruct Hq.
Qed.

Lemma out_char_diverge c c' r r' :
  c ≠ c' → diverge ((OUT_DIR ++ [c]) ++ r) ((OUT_DIR ++ [c']) ++ r').
Proof. intros Hne. by apply diverge_app, diverge_snoc. Qed.

Lemma main_character_Ok c anim_map all0 all fs1 fs' out :
  lookup_path (OUT_DIR ++ [c]) fs1 = None →
  main_character (c, anim_map) all0 fs1 = Ok (all, fs', out) →
  ∃ m0 fsa m fsb o,
    process_animations c anim_map m0 fsa = Ok (m, fsb, o)
    ∧ changed_under OUT_DIR fs1 fsa
    ∧ lookup_path (OUT_DIR ++ [c; "animations"]) fsa = None
    ∧ stable_below (OUT_DIR ++ [c; "animations"]) fsb fs'
    ∧ lookup_path (OUT_DIR ++ [c; "manifest.json"]) fs'
      = Some (File (Json (manifest_json m)))
    ∧ all = dict_set c m all0.
Proof.
  intros Hnew. unfold main_character.
  intros (? & ? & ? & ? & [-> ->]%print_Ok & Hrun & ->)%bind_Ok.
  apply bind_Ok in Hrun as (? & ? & ? & ? & [-> ->]%print_Ok & Hrun & ->).
  apply bind_Ok in Hrun as (? & ? & ? & ? & [-> ->]%print_Ok & Hrun & ->).
  apply bind_Ok in Hrun as (mr & fsr & ? & ? & Hrot & Hrun & ->).
  apply bind_Ok in Hrun as (m & fsb & o & ? & Hanim & Hrun & ->).
  apply bind_Ok in Hrun as (? & fsw & ? & ? & [Hw ->]%update_Ok & Hrun & ->).
  apply bind_Ok in Hrun as (? & ? & ? & ? & [-> ->]%print_Ok
                             & (-> & -> & ->)%ret_Ok & ->).
  pose proof (process_rotation_writes _ _ _ _ _ _ Hrot) as Hchr.
  exists mr, fsr, m, fsb, o. split_and!; [done| | | | |done].
  - by apply (changed_under_weaken _ [c; "rotations"]).
  - rewrite (cu_frame _ _ _ Hchr).
    + rewrite (cons_middle c), (assoc_L (++)), lookup_path_app, Hnew. done.
    + rewrite !(cons_middle c), !(assoc_L (++)). by apply diverge_snoc.
  - eapply changed_under_stable; [by eapply write_file_changed|].
    rewrite !(cons_middle c), !(assoc_L (++)). by apply diverge_snoc.
  - by eapply write_file_lookup.
Qed.

(** The loop over the characters, started where no character has an output
    directory yet: each character's animations are processed on a tree
    without its animations output, and what that leaves stays to the end. *)
Lemma main_characters_Ok chars :
  ∀ all0 fs1 all fs' out,
    NoDup (dict_keys chars) →
    (∀ c, c ∈ dict_keys chars → lookup_path (OUT_DIR ++ [c]) fs1 = None) →
    for_each chars main_character all0 fs1 = Ok (all, fs', out) →
    (∀ c anim_map, (c, anim_map) ∈ chars →
       ∃ m0 fsa m fsb o,
         process_animations c anim_map m0 fsa = Ok (m, fsb, o)
         ∧ changed_under OUT_DIR fs1 fsa
         ∧ lookup_path (OUT_DIR ++ [c; "animations"]) fsa = None
         ∧ stable_below (OUT_DIR ++ [c; "animations"]) fsb fs'
         ∧ lookup_path (OUT_DIR ++ [c; "manifest.json"]) fs'
           = Some (File (Json (manifest_json m)))
         ∧ dict_get c all = Some m)
    ∧ changed_under OUT_DIR fs1 fs'
    ∧ (∀ c, c ∉ dict_keys chars →
         stable_below (OUT_DIR ++ [c]) fs1 fs'
         ∧ dict_get c all = dict_get c all0).
Proof.
  induction chars as [|[c0 a0] rest IH]; intros all0 fs1 all fs' out Hnd Hnew Hrun.
  { apply ret_Ok in Hrun as (-> & -> & ->). split_and!.
    - intros c a Hin. by apply elem_of_nil in Hin.
    - apply changed_under_refl.
    - intros c _. split; [apply stable_below_refl|done]. }
  rewrite for_each_cons in Hrun.
  apply bind_Ok in Hrun as (all1 & fsw & o1 & o2 & Hstep & Hrun & ->).
  simpl in Hnd. apply NoDup_cons in Hnd as [Hc0 Hnd].
  pose proof (main_character_writes _ _ _ _ _ _ Hstep) as Hch0.
  cbn [fst] in Hch0.
  assert (∀ c, c ≠ c0 → stable_below (OUT_DIR ++ [c]) fs1 fsw) as Hother.
  { intros c Hne. eapply changed_under_stable; [done|]. by apply diverge_snoc. }
  destruct (IH all1 fsw all fs' o2 Hnd) as (Hrest & Hchr & Hkeep); [|done|].
  { intros c Hc. assert (c ≠ c0) as Hne by (by intros ->).
    rewrite (stable_lookup _ _ _ (Hother c Hne)). apply Hnew. by right. }
  apply main_character_Ok in Hstep
    as (m0 & fsa & m & fsb & o & Hanim & Hcha & Hfresh & Hst & Hfile & ->);
    [|apply Hnew; by left].
  destruct (Hkeep c0 Hc0) as [Hst0 Hget0].
  split_and!.
  - intros c a [[= -> ->]|Hin]%elem_of_cons.
    + exists m0, fsa, m, fsb, o. split_and!; [done..| | |].
      * eapply stable_below_trans; [done|].
        rewrite (cons_middle c0), (assoc_L (++)). by apply stable_below_app.
      * rewrite (cons_middle c0), (assoc_L (++)).
        rewrite (Hst0 ["manifest.json"]).
        by rewrite <-(assoc_L (++)).
      * rewrite Hget0, dict_get_set. by rewrite decide_True.
    + destruct (Hrest c a Hin)
        as (m0' & fsa' & m' & fsb' & o' & H1 & H2 & H3 & H4 & H5 & H6).
      exists m0', fsa', m', fsb', o'. split_and!; [done| |done..].
      eapply changed_under_trans; [|done].
      by apply (changed_under_weaken _ [c0]).
  - eapply changed_under_trans; [|done].
    by apply (changed_under_weaken _ [c0]).
  - intros c [Hne Hc]%not_elem_of_cons. destruct (Hkeep c Hc) as [Hs Hg].
    split.
    + eapply stable_below_trans; [by apply Hother|done].
    + rewrite Hg, dict_get_set. by rewrite decide_False by done.
Qed.

Lemma CHARACTERS_keys c anim_map :
  (c, anim_map) ∈ CHARACTERS →
  c ∈ dict_keys CHARACTERS ∧ c ≠ "manifest.json"
  ∧ NoDup (dict_keys anim_map).
Proof.
  intros Hin. split; [apply list_elem_of_fmap; by exists (c, anim_map)|].
  assert (∀ l : list string, bool_decide (NoDup l) = true → NoDup l) as Hdec.
  { intros l. apply bool_decide_eq_true_1. }
  repeat (apply elem_of_cons in Hin as [[= -> ->]|Hin];
          [split; [done|by apply Hdec; vm_compute]|]).
  by apply elem_of_nil in Hin.
Qed.

(** A successful run, character by character: the character's animations
    are processed on a tree that has the sources of the tree the run started
    on and no animations output for the character; what this leaves under
    the character's animations output is there at the end of the run, next
    to the character's manifest file. *)
Lemma main_Ok fs fs' out c anim_map :
  main fs = Ok (tt, fs', out) →
  (c, anim_map) ∈ CHARACTERS →
  ∃ m0 fsa m fsb o,
    process_animations c anim_map m0 fsa = Ok (m, fsb, o)
    ∧ stable_below SRC_CHARS fs fsa
    ∧ lookup_path (OUT_DIR ++ [c; "animations"]) fsa = None
    ∧ stable_below (OUT_DIR ++ [c; "animations"]) fsb fs'
    ∧ lookup_path (OUT_DIR ++ [c; "manifest.json"]) fs'
      = Some (File (Json (manifest_json m))).
Proof.
  rewrite main_reset. destruct (reset_output fs) as [fs0|] eqn:Hreset; [|done].
  apply reset_output_spec in Hreset as [Hempty Hsame].
  unfold main_after_reset.
  intros (all & fsc & o1 & o2 & Hloop & Hreport & ->)%bind_Ok Hin.
  destruct (CHARACTERS_keys _ _ Hin) as (Hkey & Hname & _).
  apply main_characters_Ok in Hloop as (Hchars & _ & _).
  - destruct (Hchars c anim_map Hin)
      as (m0 & fsa & m & fsb & o & Hanim & Hch & Hfresh & Hst & Hfile & _).
    pose proof (main_report_writes _ _ _ _ _ Hreport) as Hchm.
    assert (stable_below (OUT_DIR ++ [c]) fsc fs') as Hend.
    { eapply changed_under_stable; [done|]. by apply diverge_snoc. }
    exists m0, fsa, m, fsb, o. split_and!; [done| |done| |].
    + intros r. rewrite <-Hsame.
      * apply (changed_under_stable _ _ _ _ Hch out_src_apart).
      * apply diverge_sym, diverge_app_l, diverge_sym, out_src_apart.
    + eapply stable_below_trans; [done|].
      rewrite (cons_middle c), (assoc_L (++)). by apply stable_below_app.
    + rewrite (cons_middle c), (assoc_L (++)), (Hend ["manifest.json"]).
      by rewrite <-(assoc_L (++)).
  - apply (bool_decide_unpack _). by vm_compute.
  - intros c' _. by rewrite (lookup_path_snoc _ _ _ _ Hempty), lookup_empty.
Qed.

(** C1.  In a run of the pipeline, for every state of a character whose
    source animation is there: when west was resolved, the east output
    directory holds the frames of the original east source, unmirrored, if
    west needed the mirror-of-east fallback, and the mirrored frames of the
    resolved west source otherwise; when west could not be resolved, no
    east directory is written and the state's directions in the
    character's manifest have no east entry. *)
Theorem east_derivation
    (fs fs' : node) (out : list string)
    (char_name : string) (anim_map : dict string) (game_state nm : string)
    (west : option path) (west_mirrored : bool) :
  let anim_src :=
    SRC_CHARS ++ [char_name; "extracted"; "animations"; nm] in
  let east_dst :=
    OUT_DIR ++ [char_name; "animations"; game_state; "east"] in
  main fs = Ok (tt, fs', out) →
  (char_name, anim_map) ∈ CHARACTERS →
  (game_state, nm) ∈ anim_map →
  is_dir anim_src fs = true →
  find_source_dir anim_src "west" fs = Ok (west, west_mirrored) →
  match west with
  | Some west_src =>
      (∀ f nd, png_entries west_src fs !! f = Some nd →
         ∃ px, nd = File (Image px))
      ∧ if west_mirrored then
          west_src = anim_src ++ ["east"]
          ∧ lookup_path east_dst fs'
            = Some (Dir (png_entries (anim_src ++ ["east"]) fs))
        else
          lookup_path east_dst fs'
          = Some (Dir (mirrored <$> png_entries west_src fs))
  | None =>
      lookup_path east_dst fs' = None
      ∧ ∃ manifest info,
          read_file (OUT_DIR ++ [char_name; "manifest.json"]) fs'
          = Ok (Json (manifest_json manifest))
          ∧ dict_get game_state (animations_of manifest) = Some info
          ∧ dict_get "east" (ai_directions info) = None
  end.
Proof.
  intros anim_src east_dst Hrun Hchar Hstate Hdir Hwest.
  destruct (main_Ok _ _ _ _ _ Hrun Hchar)
    as (m0 & fsa & m & fsb & o & Hanim & Hsrc & Hfresh & Hout & Hfile).
  destruct (CHARACTERS_keys _ _ Hchar) as (_ & _ & Hnd).
  assert (stable_below anim_src fs fsa) as Hst.
  { unfold anim_src. rewrite <-anim_src_flat, <-(assoc_L (++)).
    by apply stable_below_app. }
  pose proof (process_animations_east_derivation char_name game_state nm
                anim_map m0 m fsa fsb o west west_mirrored Hnd Hfresh Hanim
                Hstate) as Hstep.
  cbv zeta in Hstep. fold anim_src east_dst in Hstep.
  rewrite (stable_is_dir _ _ _ Hst), (stable_find_source_dir _ _ _ _ Hst)
    in Hstep.
  specialize (Hstep Hdir Hwest).
  assert (lookup_path east_dst fs' = lookup_path east_dst fsb) as Heast.
  { unfold east_dst. rewrite <-anim_dst_flat. apply Hout. }
  rewrite Heast. destruct west as [west_src|].
  - rewrite (found_png_entries_stable _ _ _ _ _ west_src Hst Hwest eq_refl)
      in Hstep.
    destruct Hstep as [Himg Hstep]. split; [done|].
    destruct west_mirrored; [|done].
    destruct Hstep as [-> Hstep]. split; [done|].
    by rewrite (found_png_entries_stable _ _ _ _ _ _ Hst Hwest eq_refl)
      in Hstep.
  - destruct Hstep as [Hnone (info & Hinfo & Hno)]. split; [done|].
    exists m, info. unfold read_file. by rewrite Hfile.
Qed.

Lemma east_derivation_witness :
  lookup_path (OUT_DIR ++ ["knight"; "animations"; "idle"; "east"])
    studio_output
  = Some (Dir (png_entries
                 (SRC_CHARS ++ ["knight"; "extracted"; "animations";
                                "breathing-idle"; "east"]) studio_tree)).
Proof.
  assert ((("knight", ANIM_MAP_DEFAULT) : string * dict string) ∈ CHARACTERS)
    as Hchar.
  { apply list_elem_of_In. simpl. tauto. }
  assert ((("idle", "breathing-idle") : string * string) ∈ ANIM_MAP_DEFAULT)
    as Hstate.
  { apply list_elem_of_In. simpl. tauto. }
  refine (proj2 (proj2 (east_derivation studio_tree studio_output studio_log
            "knight" ANIM_MAP_DEFAULT "idle" "breathing-idle"
            (Some (SRC_CHARS ++ ["knight"; "extracted"; "animations";
                                 "breathing-idle"; "east"])) true
            studio_run Hchar Hstate _ _))).
  - vm_compute. reflexivity.
  - vm_compute. reflexivity.
Defined.

(** C5.  The copier transfers exactly the entries named [*.png] directly in
    the source directory: the frame list is those names, sorted, and it is
    walked in that order after the destination is made; every frame is a
    regular file and is written under its own name in the destination,
    nothing else below the destination changes, and the count returned is
    the number of frames.  In a run of the pipeline, the frames a
    character's manifest records for a state's direction are that count for
    the resolved source, which is also the number of [*.png] files the run
    leaves in the direction's destination directory. *)
Theorem frames_transferred_and_counted :
  (∀ (src_dir dst_dir : path) (mirror : bool) (fs fs' : node)
     (n : nat) (out : list string),
     diverge dst_dir src_dir →
     copy_or_mirror_frames src_dir dst_dir mirror fs = Ok (n, fs', out) →
     let frames := sorted (glob_png src_dir fs) in
     (∀ f, f ∈ frames ↔
           endswith f ".png" = true
           ∧ is_Some (lookup_path (src_dir ++ [f]) fs))
     ∧ NoDup frames ∧ Sorted str_le frames
     ∧ (∃ fs1, mkdir_p true dst_dir fs = Ok fs1
               ∧ for_ frames (transfer_frame src_dir dst_dir mirror) fs1
                 = Ok (tt, fs', []))
     ∧ n = List.length frames
     ∧ (∀ f, f ∈ frames →
          ∃ c, lookup_path (src_dir ++ [f]) fs = Some (File c)
               ∧ (is_dir (dst_dir ++ [f]) fs = false →
                  lookup_path (dst_dir ++ [f]) fs'
                  = Some (transfer mirror (File c))))
     ∧ (∀ f, f ∉ frames → stable_below (dst_dir ++ [f]) fs fs'))
  ∧ (∀ (fs fs' : node) (out : list string)
       (char_name : string) (anim_map : dict string),
       main fs = Ok (tt, fs', out) →
       (char_name, anim_map) ∈ CHARACTERS →
       ∃ manifest,
         read_file (OUT_DIR ++ [char_name; "manifest.json"]) fs'
         = Ok (Json (manifest_json manifest))
         ∧ ∀ game_state direction info entry,
             dict_get game_state (animations_of manifest) = Some info →
             dict_get direction (ai_directions info) = Some entry →
             let dst_dir :=
               OUT_DIR ++ [char_name; "animations"; game_state; direction] in
             ∃ src_dir mirror,
               lookup_path dst_dir fs'
               = Some (Dir (transfer mirror <$> png_entries src_dir fs))
               ∧ di_frames entry
                 = List.length (sorted (glob_png src_dir fs))
               ∧ di_frames entry = List.length (glob_png dst_dir fs')).
Proof.
  split; [apply copy_or_mirror_frames_counted|].
  intros fs fs' out char_name anim_map Hrun Hchar.
  destruct (main_Ok _ _ _ _ _ Hrun Hchar)
    as (m0 & fsa & m & fsb & o & Hanim & Hsrc & Hfresh & Hout & Hfile).
  destruct (CHARACTERS_keys _ _ Hchar) as (_ & _ & Hnd).
  exists m. split; [unfold read_file; by rewrite Hfile|].
  intros game_state direction info entry Hinfo Hentry dst_dir.
  destruct (process_animations_frames_counted _ _ _ _ _ _ _ _ _ _ _
              Hnd Hfresh Hanim Hinfo Hentry)
    as (src_dir & mirror & [r ->] & Hdst & Hn & Hn').
  assert (stable_below dst_dir fsb fs') as Hst.
  { unfold dst_dir. rewrite <-anim_dst_flat. by apply stable_below_app. }
  pose proof (stable_below_app _ r _ _ Hsrc) as Hst'.
  exists (SRC_CHARS ++ r), mirror. fold dst_dir in Hdst, Hn'.
  rewrite (stable_lookup _ _ _ Hst), (stable_glob_png _ _ _ Hst).
  rewrite (stable_png_entries _ _ _ Hst') in Hdst.
  rewrite (stable_glob_png _ _ _ Hst') in Hn. done.
Qed.

Definition knight_south_src : path := knight_idle_src ++ ["south"].

Definition knight_south_dst : path :=
  OUT_DIR ++ ["knight"; "animations"; "idle"; "south"].

Definition knight_south_copied : node :=
  run_tree (copy_or_mirror_frames knight_south_src knight_south_dst false)
    knight_tree.

Lemma frames_transferred_and_counted_witness :
  (2 = List.length (sorted (glob_png knight_south_src knight_tree))
   ∧ Sorted str_le (sorted (glob_png knight_south_src knight_tree)))
  ∧ ∃ manifest,
      read_file (OUT_DIR ++ ["knight"; "manifest.json"]) studio_output
      = Ok (Json (manifest_json manifest)).
Proof.
  destruct frames_transferred_and_counted as [Hcopier Hmanifest]. split.
  - assert (diverge knight_south_dst knight_south_src) as Hap.
    { split; intros [k Hk]; vm_compute in Hk; discriminate Hk. }
    destruct (Hcopier knight_south_src knight_south_dst false knight_tree
                knight_south_copied 2 [] Hap)
      as (_ & _ & Hsorted & _ & Hcount & _).
    { vm_compute. reflexivity. }
    split; [exact Hcount|exact Hsorted].
  - assert ((("knight", ANIM_MAP_DEFAULT) : string * dict string)
              ∈ CHARACTERS) as Hchar.
    { apply list_elem_of_In. simpl. tauto. }
    destruct (Hmanifest studio_tree studio_output studio_log
                "knight" ANIM_MAP_DEFAULT studio_run Hchar)
      as (manifest & Hfile & _).
    exists manifest. exact Hfile.
Defined.
(** * More about the whole run *)

(** ** Computations that leave the tree alone *)

Definition reads_only {A} (c : M A) : Prop :=
  ∀ fs a fs' out, c fs = Ok (a, fs', out) → fs' = fs.

Lemma reads_only_print line : reads_only (print line).
Proof. by intros fs a fs' out [-> _]%print_Ok. Qed.

Lemma reads_only_ret {A} (a : A) : reads_only (ret a).
Proof. by intros fs a' fs' out (_ & -> & _)%ret_Ok. Qed.

Lemma reads_only_bind {A B} (c : M A) (k : A → M B) :
  reads_only c → (∀ a, reads_only (k a)) → reads_only (bind c k).
Proof.
  intros Hc Hk fs b fs' out (a & fs1 & o1 & o2 & H1 & H2 & _)%bind_Ok.
  apply Hk in H2. apply Hc in H1. congruence.
Qed.

Lemma reads_only_for_each {A S} (l : list A) (body : A → S → M S) s :
  (∀ x s, reads_only (body x s)) → reads_only (for_each l body s).
Proof.
  intros Hbody. revert s. induction l as [|x l IH]; intros s; simpl.
  - apply reads_only_ret.
  - apply reads_only_bind; [apply Hbody|apply IH].
Qed.

Lemma reads_only_for_ {A} (l : list A) (body : A → M unit) :
  (∀ x, reads_only (body x)) → reads_only (for_ l body).
Proof. intros Hbody. apply reads_only_for_each. intros x _. apply Hbody. Qed.

(** The end of a run writes the master manifest and then only prints. *)
Lemma main_report_Ok all_manifests u fs fs' out :
  main_report all_manifests fs = Ok (u, fs', out) →
  write_file (OUT_DIR ++ ["manifest.json"])
    (Json (JObject (prod_map id manifest_json <$> all_manifests))) fs
  = Ok fs'.
Proof.
  unfold main_report.
  intros (? & fsw & ? & ? & [Hw _]%update_Ok & Hrest & _)%bind_Ok.
  assert (fs' = fsw) as ->; [|done].
  revert Hrest. apply reads_only_bind; [apply reads_only_print|intros _].
  apply reads_only_bind; [apply reads_only_print|intros _].
  apply reads_only_bind; [apply reads_only_print|intros _].
  apply reads_only_bind; [apply reads_only_print|intros _].
  apply reads_only_for_. intros [char_name m].
  apply reads_only_bind; [apply reads_only_print|intros _].
  apply reads_only_bind; [|intros _; apply reads_only_print].
  apply reads_only_for_. intros [state info]. apply reads_only_print.
Qed.

(** A successful run, split at the reset and at the master manifest. *)
Lemma main_steps fs fs' out :
  main fs = Ok (tt, fs', out) →
  ∃ fs0 all_manifests fsc o1 o2,
    reset_output fs = Ok fs0
    ∧ for_each CHARACTERS main_character [] fs0 = Ok (all_manifests, fsc, o1)
    ∧ main_report all_manifests fsc = Ok (tt, fs', o2).
Proof.
  rewrite main_reset. destruct (reset_output fs) as [fs0|] eqn:Hreset; [|done].
  unfold main_after_reset.
  intros (all & fsc & o1 & o2 & Hloop & Hreport & _)%bind_Ok.
  by exists fs0, all, fsc, o1, o2.
Qed.

Lemma CHARACTERS_NoDup : NoDup (dict_keys CHARACTERS).
Proof. apply (bool_decide_unpack _). by vm_compute. Qed.

(** ** Outside the output directory *)

(** X1.  A run changes nothing outside the output directory: whatever is
    found at a path that is neither above nor below [OUT_DIR] is found there
    unchanged after the run; in particular the source frames are copied, not
    moved or rewritten. *)
Theorem main_changes_output_only (fs fs' : node) (out : list string) :
  main fs = Ok (tt, fs', out) →
  (∀ q, diverge OUT_DIR q → lookup_path q fs' = lookup_path q fs)
  ∧ ∀ r, lookup_path (SRC_CHARS ++ r) fs' = lookup_path (SRC_CHARS ++ r) fs.
Proof.
  intros Hrun.
  assert (∀ q, diverge OUT_DIR q → lookup_path q fs' = lookup_path q fs) as H.
  { revert Hrun. rewrite main_reset.
    destruct (reset_output fs) as [fs0|] eqn:Hreset; [|done].
    intros Hrun q Hq. apply reset_output_spec in Hreset as [_ Hsame].
    rewrite <-(Hsame q Hq).
    apply (cu_frame _ _ _ (main_after_reset_writes _ _ _ _ Hrun) q Hq). }
  split; [done|]. intros r. apply H.
  apply diverge_sym, diverge_app_l, diverge_sym, out_src_apart.
Qed.

Lemma main_changes_output_only_witness :
  lookup_path (SRC_CHARS ++ ["knight"; "extracted"]) studio_output
  = lookup_path (SRC_CHARS ++ ["knight"; "extracted"]) studio_tree.
Proof.
  exact (proj2 (main_changes_output_only studio_tree studio_output studio_log
                  studio_run) ["knight"; "extracted"]).
Defined.

(** ** The entries of the output directory *)



(** ** The manifests written *)

Lemma dict_keys_set_new {V} (k : string) (v : V) (d : dict V) :
  k ∉ dict_keys d → dict_keys (dict_set k v d) = dict_keys d ++ [k].
Proof.
  induction d as [|[k' v'] d IH]; simpl; [done|].
  intros [Hne Hk]%not_elem_of_cons.
  destruct (String.eqb_spec k' k) as [->|]; [done|].
  simpl. f_equal. by apply IH.
Qed.

(** [process_rotation] assigns no key of the manifest but ["rotations"]. *)
Lemma process_rotation_manifest c m fs m' fs' out :
  process_rotation c m fs = Ok (m', fs', out) →
  m_character m' = m_character m
  ∧ m_animations m' = m_animations m
  ∧ m_frame_totals m' = m_frame_totals m.
Proof.
  unfold process_rotation.
  intros (? & ? & ? & ? & (-> & -> & ->)%ask_Ok & Hrun & _)%bind_Ok.
  apply bind_Ok in Hrun as (? & ? & ? & ? & (-> & -> & ->)%ask_Ok & Hrun & _).
  destruct (negb _).
  - by apply bind_Ok in Hrun as (? & ? & ? & ? & _ & (-> & _)%ret_Ok & _).
  - apply bind_Ok in Hrun as (? & ? & ? & ? & _ & Hrun & _).
    apply bind_Ok in Hrun as (? & ? & ? & ? & _ & Hrun & _).
    apply bind_Ok in Hrun as (? & ? & ? & ? & _ & Hrun & _).
    by apply bind_Ok in Hrun as (? & ? & ? & ? & _ & (-> & _)%ret_Ok & _).
Qed.

Lemma main_character_entry c anim_map all0 all fs fs' out :
  main_character (c, anim_map) all0 fs = Ok (all, fs', out) →
  ∃ m, all = dict_set c m all0 ∧ m_character m = c.
Proof.
  unfold main_character.
  intros (? & ? & ? & ? & _ & Hrun & _)%bind_Ok.
  apply bind_Ok in Hrun as (? & ? & ? & ? & _ & Hrun & _).
  apply bind_Ok in Hrun as (? & ? & ? & ? & _ & Hrun & _).
  apply bind_Ok in Hrun as (mr & ? & ? & ? & Hrot & Hrun & _).
  apply bind_Ok in Hrun as (m & ? & ? & ? & Hanim & Hrun & _).
  apply bind_Ok in Hrun as (? & ? & ? & ? & _ & Hrun & _).
  apply bind_Ok in Hrun as (? & ? & ? & ? & _ & (-> & _)%ret_Ok & _).
  exists m. split; [done|].
  apply process_rotation_manifest in Hrot as (Hc & _).
  by apply process_animations_Ok in Hanim as (? & ? & ? & ? & _ & _ & -> & _).
Qed.

(** The loop over the characters adds their manifests in order. *)
Lemma main_characters_keys chars :
  ∀ all0 fs1 all fs' out,
    NoDup (dict_keys all0 ++ dict_keys chars) →
    for_each chars main_character all0 fs1 = Ok (all, fs', out) →
    dict_keys all = dict_keys all0 ++ dict_keys chars
    ∧ ∀ c m, dict_get c all = Some m →
        dict_get c all0 = Some m ∨ m_character m = c.
Proof.
  induction chars as [|[c0 a0] rest IH]; intros all0 fs1 all fs' out Hnd Hrun.
  - apply ret_Ok in Hrun as (-> & _).
    split; [unfold dict_keys; by rewrite fmap_nil, (right_id_L [] (++))|by left].
  - rewrite for_each_cons in Hrun.
    apply bind_Ok in Hrun as (all1 & fsw & ? & ? & Hstep & Hrun & _).
    apply main_character_entry in Hstep as (m0 & -> & Hm0).
    unfold dict_keys in Hnd |- *. rewrite fmap_cons in Hnd |- *.
    cbn [fst] in Hnd |- *.
    assert (c0 ∉ dict_keys all0) as Hc0.
    { apply NoDup_app in Hnd as (_ & Hnd & _). intros Hin.
      apply (Hnd c0 Hin). by left. }
    assert (dict_keys (dict_set c0 m0 all0) = dict_keys all0 ++ [c0]) as Hk.
    { by apply dict_keys_set_new. }
    unfold dict_keys in Hk.
    apply IH in Hrun as [Hkeys Hget].
    2:{ unfold dict_keys. rewrite Hk, <-(assoc_L (++)). done. }
    unfold dict_keys in Hkeys. split.
    + by rewrite Hkeys, Hk, <-(assoc_L (++)).
    + intros c m Hcm. destruct (Hget c m Hcm) as [H|H]; [|by right].
      rewrite dict_get_set in H. case_decide; simplify_eq; [by right|by left].
Qed.

(** X3.  The master manifest collects the manifests of the three configured
    characters, in the configured order, and each of them is the manifest
    written to the character's own [manifest.json], under the character's
    name. *)
Theorem master_manifest_collects (fs fs' : node) (out : list string) :
  main fs = Ok (tt, fs', out) →
  ∃ all_manifests,
    read_file (OUT_DIR ++ ["manifest.json"]) fs'
    = Ok (Json (JObject (prod_map id manifest_json <$> all_manifests)))
    ∧ dict_keys all_manifests = ["armored-warrior"; "archer"; "knight"]
    ∧ ∀ c m, dict_get c all_manifests = Some m →
        m_character m = c
        ∧ read_file (OUT_DIR ++ [c; "manifest.json"]) fs'
          = Ok (Json (manifest_json m)).
Proof.
  intros (fs0 & all & fsc & o1 & o2 & Hreset & Hloop & Hreport)%main_steps.
  apply reset_output_spec in Hreset as [Hempty _].
  apply main_report_Ok in Hreport.
  exists all. split_and!.
  - unfold read_file. by rewrite (write_file_lookup _ _ _ _ Hreport).
  - by apply main_characters_keys in Hloop as [-> _]; [|apply CHARACTERS_NoDup].
  - intros c m Hget.
    pose proof Hloop as [Hkeys Hchar]%main_characters_keys;
      [|apply CHARACTERS_NoDup].
    split; [by destruct (Hchar c m Hget)|].
    assert (∃ a, (c, a) ∈ CHARACTERS) as [a Ha].
    { apply dict_get_Some_keys in Hget. rewrite Hkeys in Hget.
      apply list_elem_of_fmap in Hget as [[c' a] [-> Hin]]. by exists a. }
    apply main_characters_Ok in Hloop as (Hchars & _ & _);
      [|apply CHARACTERS_NoDup
       |intros c' _; by rewrite (lookup_path_snoc _ _ _ _ Hempty), lookup_empty].
    destruct (Hchars c a Ha) as (_ & _ & m' & _ & _ & _ & _ & _ & _ & Hfile & Hm').
    rewrite Hget in Hm'. injection Hm' as <-.
    unfold read_file.
    rewrite (write_file_frame _ _ _ _ (OUT_DIR ++ [c; "manifest.json"]) Hreport).
    + by rewrite Hfile.
    + intros Hp%prefix_app_inv%prefix_length. simpl in Hp. lia.
Qed.

Lemma master_manifest_collects_witness :
  ∃ all_manifests,
    read_file (OUT_DIR ++ ["manifest.json"]) studio_output
    = Ok (Json (JObject (prod_map id manifest_json <$> all_manifests)))
    ∧ dict_keys all_manifests = ["armored-warrior"; "archer"; "knight"].
Proof.
  destruct (master_manifest_collects studio_tree studio_output studio_log
              studio_run) as (all_manifests & Hfile & Hkeys & _).
  exists all_manifests. split; [exact Hfile|exact Hkeys].
Defined.

(** ** A state of a character in the whole run *)

(** In a run, a state whose source animation is there has the manifest entry
    and the four output directories that the three resolutions on the tree
    the run started on decide. *)
Lemma main_state fs fs' out char_name anim_map game_state nm :
  let anim_src :=
    SRC_CHARS ++ [char_name; "extracted"; "animations"; nm] in
  let dst d := OUT_DIR ++ [char_name; "animations"; game_state; d] in
  main fs = Ok (tt, fs', out) →
  (char_name, anim_map) ∈ CHARACTERS →
  (game_state, nm) ∈ anim_map →
  is_dir anim_src fs = true →
  ∃ manifest rs rw rn,
    find_source_dir anim_src "south" fs = Ok rs
    ∧ find_source_dir anim_src "west" fs = Ok rw
    ∧ find_source_dir anim_src "north" fs = Ok rn
    ∧ read_file (OUT_DIR ++ [char_name; "manifest.json"]) fs'
      = Ok (Json (manifest_json manifest))
    ∧ dict_get game_state (animations_of manifest)
      = Some {| ai_source := nm;
                ai_directions :=
                  state_directions char_name game_state rs rw rn fs |}
    ∧ output_ok (dst "south") rs fs fs'
    ∧ output_ok (dst "west") rw fs fs'
    ∧ output_ok (dst "north") rn fs fs'
    ∧ output_ok (dst "east") (rw.1, negb rw.2) fs fs'.
Proof.
  intros anim_src dst Hrun Hchar Hstate Hdir.
  destruct (main_Ok _ _ _ _ _ Hrun Hchar)
    as (m0 & fsa & m & fsb & o & Hanim & Hsrc & Hfresh & Hout & Hfile).
  destruct (CHARACTERS_keys _ _ Hchar) as (_ & _ & Hnd).
  assert (stable_below anim_src fs fsa) as Hst.
  { unfold anim_src. rewrite <-anim_src_flat, <-(assoc_L (++)).
    by apply stable_below_app. }
  destruct (manifest_outputs char_name anim_map m0 m fsa fsb o game_state nm
              Hnd Hfresh Hanim Hstate)
    as (rs & rw & rn & Hrs & Hrw & Hrn & Hget & Hos & How & Hon & Hoe & _).
  { fold anim_src. by rewrite (stable_is_dir _ _ _ Hst). }
  fold anim_src in Hrs, Hrw, Hrn.
  rewrite (stable_find_source_dir _ _ _ _ Hst) in Hrs.
  rewrite (stable_find_source_dir _ _ _ _ Hst) in Hrw.
  rewrite (stable_find_source_dir _ _ _ _ Hst) in Hrn.
  rewrite (state_directions_stable _ _ _ _ _ _ _ _ Hst Hrs Hrw Hrn) in Hget.
  assert (∀ d d' (r : option path * bool) mirror,
            find_source_dir anim_src d fs = Ok r →
            output_ok (OUT_DIR ++ [char_name; "animations"; game_state; d'])
              (r.1, mirror) fsa fsb →
            output_ok (dst d') (r.1, mirror) fs fs') as Hok.
  { intros d d' r mirror Hr H.
    apply (output_ok_stable anim_src _ d r mirror fs fsa fs' Hst Hr).
    unfold output_ok in *. unfold dst. rewrite <-anim_dst_flat in H |- *.
    by rewrite (Hout [game_state; d']). }
  exists m, rs, rw, rn. split_and!; [done..| |done| | | |].
  - unfold read_file. by rewrite Hfile.
  - destruct rs as [s ms]. by apply (Hok "south" "south" (s, ms) ms).
  - destruct rw as [w mw]. by apply (Hok "west" "west" (w, mw) mw).
  - destruct rn as [n mn]. by apply (Hok "north" "north" (n, mn) mn).
  - by apply (Hok "west" "east" rw (negb rw.2)).
Qed.

(** ** What a direction's output directory holds *)

(** X4.  In a run, the output directory of south, west or north of a state
    whose source animation is there holds the [*.png] entries of the
    directory the resolver returns for that direction on the source tree,
    mirrored when the resolver asks for it, which it does only for west
    taken from east; the directory is not created when the resolver finds
    nothing. *)
Theorem direction_output_is_resolved_source
    (fs fs' : node) (out : list string)
    (char_name : string) (anim_map : dict string)
    (game_state nm direction : string)
    (found : option path) (needs_mirror : bool) :
  let anim_src :=
    SRC_CHARS ++ [char_name; "extracted"; "animations"; nm] in
  let dst_dir :=
    OUT_DIR ++ [char_name; "animations"; game_state; direction] in
  main fs = Ok (tt, fs', out) →
  (char_name, anim_map) ∈ CHARACTERS →
  (game_state, nm) ∈ anim_map →
  is_dir anim_src fs = true →
  direction ∈ ["south"; "west"; "north"] →
  find_source_dir anim_src direction fs = Ok (found, needs_mirror) →
  match found with
  | Some src_dir =>
      lookup_path dst_dir fs'
      = Some (Dir (transfer needs_mirror <$> png_entries src_dir fs))
      ∧ (needs_mirror = true →
         direction = "west" ∧ src_dir = anim_src ++ ["east"])
  | None => lookup_path dst_dir fs' = None
  end.
Proof.
  intros anim_src dst_dir Hrun Hchar Hstate Hdir Hd Hfind.
  destruct (main_state _ _ _ _ _ _ _ Hrun Hchar Hstate Hdir)
    as (m & rs & rw & rn & Hrs & Hrw & Hrn & _ & _ & Hos & How & Hon & _).
  fold anim_src in Hrs, Hrw, Hrn.
  assert (output_ok dst_dir (found, needs_mirror) fs fs') as Hok.
  { unfold dst_dir.
    repeat (apply elem_of_cons in Hd as [->|Hd]; [congruence|]).
    by apply elem_of_nil in Hd. }
  unfold output_ok in Hok. simpl in Hok. destruct found as [src_dir|]; [|done].
  split; [done|]. intros ->.
  apply find_source_dir_Some in Hfind as (c & -> & _ & Hc).
  by destruct (Hc eq_refl) as [-> ->].
Qed.

Lemma direction_output_is_resolved_source_witness :
  lookup_path (OUT_DIR ++ ["knight"; "animations"; "idle"; "west"])
    studio_output
  = Some (Dir (mirrored <$> png_entries (knight_idle_src ++ ["east"])
                              studio_tree)).
Proof.
  assert ((("knight", ANIM_MAP_DEFAULT) : string * dict string) ∈ CHARACTERS)
    as Hchar.
  { apply list_elem_of_In. simpl. tauto. }
  assert ((("idle", "breathing-idle") : string * string) ∈ ANIM_MAP_DEFAULT)
    as Hstate.
  { apply list_elem_of_In. simpl. tauto. }
  refine (proj1 (direction_output_is_resolved_source studio_tree studio_output
            studio_log "knight" ANIM_MAP_DEFAULT "idle" "breathing-idle" "west"
            (Some (knight_idle_src ++ ["east"])) true
            studio_run Hchar Hstate _ _ _)).
  - vm_compute. reflexivity.
  - apply list_elem_of_In. simpl. tauto.
  - vm_compute. reflexivity.
Defined.

(** X5.  In a run, the character's manifest file records, for south, west
    or north of a state whose source animation is there, what the resolver
    returned: the state's source is the mapped animation name; the entry of
    the direction has the name of the resolved directory as its source,
    wrapped in [mirror(...)] when the frames were mirrored, the number of
    [*.png] entries of that directory as its frames, and the destination
    below [characters/] as its path; there is no entry when the resolver
    found nothing. *)
Theorem manifest_entry_records_resolution
    (fs fs' : node) (out : list string)
    (char_name : string) (anim_map : dict string)
    (game_state nm direction : string)
    (found : option path) (needs_mirror : bool) :
  let anim_src :=
    SRC_CHARS ++ [char_name; "extracted"; "animations"; nm] in
  main fs = Ok (tt, fs', out) →
  (char_name, anim_map) ∈ CHARACTERS →
  (game_state, nm) ∈ anim_map →
  is_dir anim_src fs = true →
  direction ∈ ["south"; "west"; "north"] →
  find_source_dir anim_src direction fs = Ok (found, needs_mirror) →
  ∃ manifest info,
    read_file (OUT_DIR ++ [char_name; "manifest.json"]) fs'
    = Ok (Json (manifest_json manifest))
    ∧ dict_get game_state (animations_of manifest) = Some info
    ∧ ai_source info = nm
    ∧ dict_get direction (ai_directions info)
      = match found with
        | Some src_dir =>
            Some {| di_source :=
                      if needs_mirror then "mirror(" +:+ name src_dir +:+ ")"
                      else name src_dir;
                    di_frames := List.length (glob_png src_dir fs);
                    di_path := "characters/" +:+ char_name +:+ "/animations/"
                               +:+ game_state +:+ "/" +:+ direction |}
        | None => None
        end.
Proof.
  intros anim_src Hrun Hchar Hstate Hdir Hd Hfind.
  destruct (main_state _ _ _ _ _ _ _ Hrun Hchar Hstate Hdir)
    as (m & rs & rw & rn & Hrs & Hrw & Hrn & Hfile & Hget & _).
  fold anim_src in Hrs, Hrw, Hrn.
  eexists m, _. split_and!; [exact Hfile|exact Hget|done|].
  cbn [ai_directions]. rewrite state_directions_lookup.
  unfold direction_entry, direction_info.
  repeat (apply elem_of_cons in Hd as [->|Hd];
          [repeat case_decide; try done;
           match goal with
           | H : find_source_dir _ _ _ = Ok ?r |- context [?r.1] =>
               rewrite Hfind in H; injection H as <-
           end;
           cbn [fst snd]; destruct found; [|done];
           by rewrite length_glob_png|]).
  by apply elem_of_nil in Hd.
Qed.

Lemma manifest_entry_records_resolution_witness :
  ∃ manifest info,
    read_file (OUT_DIR ++ ["knight"; "manifest.json"]) studio_output
    = Ok (Json (manifest_json manifest))
    ∧ dict_get "idle" (animations_of manifest) = Some info
    ∧ ai_source info = "breathing-idle"
    ∧ dict_get "west" (ai_directions info)
      = Some {| di_source := "mirror(east)"; di_frames := 3;
                di_path := "characters/knight/animations/idle/west" |}.
Proof.
  assert ((("knight", ANIM_MAP_DEFAULT) : string * dict string) ∈ CHARACTERS)
    as Hchar.
  { apply list_elem_of_In. simpl. tauto. }
  assert ((("idle", "breathing-idle") : string * string) ∈ ANIM_MAP_DEFAULT)
    as Hstate.
  { apply list_elem_of_In. simpl. tauto. }
  assert (is_dir knight_idle_src studio_tree = true) as Hdir.
  { vm_compute. reflexivity. }
  assert (("west" : string) ∈ ["south"; "west"; "north"]) as Hd.
  { apply list_elem_of_In. simpl. tauto. }
  assert (find_source_dir knight_idle_src "west" studio_tree
          = Ok (Some (knight_idle_src ++ ["east"]), true)) as Hfind.
  { vm_compute. reflexivity. }
  destruct (manifest_entry_records_resolution studio_tree studio_output
              studio_log "knight" ANIM_MAP_DEFAULT "idle" "breathing-idle"
              "west" (Some (knight_idle_src ++ ["east"])) true
              studio_run Hchar Hstate Hdir Hd Hfind)
    as (manifest & info & Hfile & Hinfo & Hsource & Hwest).
  exists manifest, info.
  split; [exact Hfile|]. split; [exact Hinfo|]. split; [exact Hsource|].
  rewrite Hwest. vm_compute. reflexivity.
Defined.

(** ** East against west *)

Lemma mirrored_involutive (nd : node) : mirrored (mirrored nd) = nd.
Proof.
  destruct nd as [[px| |]|]; simpl; [|done..].
  by rewrite flip_left_right_involutive.
Qed.

(** A directory with every entry mirrored. *)
Definition mirrored_frames (nd : node) : node :=
  match nd with
  | Dir entries => Dir (mirrored <$> entries)
  | File _ => nd
  end.

(** X6.  In a run, the east output directory of a state is the west output
    directory with every frame flipped left to right, whichever way west
    was resolved; there is no east directory when there is no west one. *)
Theorem east_output_mirrors_west
    (fs fs' : node) (out : list string)
    (char_name : string) (anim_map : dict string) (game_state nm : string) :
  main fs = Ok (tt, fs', out) →
  (char_name, anim_map) ∈ CHARACTERS →
  (game_state, nm) ∈ anim_map →
  is_dir (SRC_CHARS ++ [char_name; "extracted"; "animations"; nm]) fs = true →
  lookup_path (OUT_DIR ++ [char_name; "animations"; game_state; "east"]) fs'
  = mirrored_frames
      <$> lookup_path (OUT_DIR ++ [char_name; "animations"; game_state; "west"])
            fs'.
Proof.
  intros Hrun Hchar Hstate Hdir.
  destruct (main_state _ _ _ _ _ _ _ Hrun Hchar Hstate Hdir)
    as (m & rs & rw & rn & _ & _ & _ & _ & _ & _ & How & _ & Hoe).
  unfold output_ok in How, Hoe. cbn [fst snd] in Hoe.
  destruct rw as [[w|] mw]; cbn [fst snd] in *; rewrite How, Hoe; [|done].
  unfold output_of. simpl. do 2 f_equal.
  rewrite <-map_fmap_compose. apply map_fmap_ext. intros f nd _. simpl.
  destruct mw; simpl; [by rewrite mirrored_involutive|done].
Qed.

Lemma east_output_mirrors_west_witness :
  lookup_path (OUT_DIR ++ ["armored-warrior"; "animations"; "idle"; "east"])
    studio_output
  = mirrored_frames
      <$> lookup_path
            (OUT_DIR ++ ["armored-warrior"; "animations"; "idle"; "west"])
            studio_output.
Proof.
  apply (east_output_mirrors_west studio_tree studio_output studio_log
           "armored-warrior" ANIM_MAP_DEFAULT "idle" "breathing-idle").
  - exact studio_run.
  - apply list_elem_of_In. simpl. tauto.
  - apply list_elem_of_In. simpl. tauto.
  - vm_compute. reflexivity.
Defined.

(** * More about the manifest of a character *)

(** ** East against west, in the manifest *)

(** X7.  In every state of a character's manifest, east has an entry exactly
    when west has one, and the two record the same number of frames. *)
Theorem east_entry_matches_west
    (char_name : string) (anim_map : dict string)
    (manifest manifest' : char_manifest) (fs fs' : node) (out : list string)
    (game_state : string) (info : anim_info) :
  process_animations char_name anim_map manifest fs
  = Ok (manifest', fs', out) →
  dict_get game_state (animations_of manifest') = Some info →
  di_frames <$> dict_get "east" (ai_directions info)
  = di_frames <$> dict_get "west" (ai_directions info).
Proof.
  intros Hrun Hinfo.
  destruct (manifest_entries _ _ _ _ _ _ _ _ _ Hrun Hinfo)
    as (nm & _ & _ & rs & rw & rn & _ & _ & _ & _ & _ & _ & _ & ->).
  cbn [ai_directions]. rewrite !state_directions_lookup.
  repeat case_decide; try done.
  unfold east_entry, direction_entry. by destruct rw.1.
Qed.

Lemma east_entry_matches_west_witness :
  di_frames <$> dict_get "east" (ai_directions knight_idle_info)
  = di_frames <$> dict_get "west" (ai_directions knight_idle_info).
Proof.
  apply (east_entry_matches_west "knight" ANIM_MAP_DEFAULT knight_manifest0
           knight_manifest knight_tree knight_output knight_log "idle").
  - exact knight_run.
  - vm_compute. reflexivity.
Defined.

(** X8.  The directions of a state of the manifest are listed in the order
    south, west, north, east, each at most once. *)
Theorem manifest_directions_in_order
    (char_name : string) (anim_map : dict string)
    (manifest manifest' : char_manifest) (fs fs' : node) (out : list string)
    (game_state : string) (info : anim_info) :
  process_animations char_name anim_map manifest fs
  = Ok (manifest', fs', out) →
  dict_get game_state (animations_of manifest') = Some info →
  dict_keys (ai_directions info)
    `sublist_of` ["south"; "west"; "north"; "east"].
Proof.
  intros Hrun Hinfo.
  destruct (manifest_entries _ _ _ _ _ _ _ _ _ Hrun Hinfo)
    as (nm & _ & _ & rs & rw & rn & _ & _ & _ & _ & _ & _ & _ & ->).
  cbn [ai_directions].
  unfold state_directions, east_directions, resolved.
  destruct rs as [[s|] ms], rw as [[w|] mw], rn as [[n|] mn]; simpl;
    repeat constructor.
Qed.

Lemma manifest_directions_in_order_witness :
  dict_keys (ai_directions knight_idle_info)
    `sublist_of` ["south"; "west"; "north"; "east"].
Proof.
  apply (manifest_directions_in_order "knight" ANIM_MAP_DEFAULT
           knight_manifest0 knight_manifest knight_tree knight_output
           knight_log "idle").
  - exact knight_run.
  - vm_compute. reflexivity.
Defined.

(** Every entry the states loop adds is the entry of some state, decided by
    three resolutions on some tree. *)
Lemma states_loop_entries (Q : anim_info → Prop)
    char_name anim_map animations fs fs' out :
  (∀ gs nm rs rw rn fs1,
     Q {| ai_source := nm;
          ai_directions := state_directions char_name gs rs rw rn fs1 |}) →
  for_each anim_map
    (process_animations_state char_name
       (SRC_CHARS ++ [char_name; "extracted"; "animations"])
       (OUT_DIR ++ [char_name; "animations"])) [] fs
  = Ok (animations, fs', out) →
  Forall (λ kv, Q kv.2) animations.
Proof.
  intros HQ.
  apply (for_each_invariant
           (λ s _, Forall (λ kv : string * anim_info, Q kv.2) s));
    [|by constructor].
  intros [gs nm] s1 fs1 s2 fs2 o _ Hs1 Hstep.
  apply (state_step_entry _ _ _ (anim_dirs_apart char_name) fs1) in Hstep
    as [_ Hstep]; [|apply changed_under_refl].
  destruct (is_dir _ fs1).
  - destruct Hstep as [(info & (_ & rs & rw & rn & Hentry) & ->) _].
    apply (Forall_dict_set Q); [done|].
    by destruct Hentry as (_ & _ & _ & _ & _ & _ & _ & ->).
  - by destruct Hstep as [-> _].
Qed.

(** X9.  The frame totals of a character count as many frames for east as
    for west. *)
Theorem frame_totals_east_equals_west
    (char_name : string) (anim_map : dict string)
    (manifest manifest' : char_manifest) (fs fs' : node) (out : list string)
    (total_frames : dict nat) :
  process_animations char_name anim_map manifest fs
  = Ok (manifest', fs', out) →
  m_frame_totals manifest' = Some total_frames →
  dict_get "east" total_frames = dict_get "west" total_frames.
Proof.
  intros (animations & total & o1 & o2 & Hloop & Hcount & -> & _)
    %process_animations_Ok [= <-].
  assert (sum_list (frames_of "east" <$> dict_values animations)
          = sum_list (frames_of "west" <$> dict_values animations)) as Hsum.
  { clear Hcount.
    apply (states_loop_entries
             (λ info, frames_of "east" info = frames_of "west" info)) in Hloop.
    - unfold dict_values. induction Hloop as [|[gs info] l Hq _ IH]; [done|].
      rewrite !fmap_cons. cbn [snd sum_list sum_list_with] in *.
      f_equal; [exact Hq|exact IH].
    - intros gs nm rs rw rn fs1. unfold frames_of. cbn [ai_directions].
      rewrite !state_directions_lookup. repeat case_decide; try done.
      unfold east_entry, direction_entry. by destruct rw.1. }
  unfold count_total_frames in Hcount.
  apply count_total_frames_loop in Hcount as [_ Hget].
  2:{ apply states_loop_directions in Hloop.
      unfold dict_values. apply Forall_fmap.
      by apply (Forall_impl _ _ _ Hloop). }
  rewrite !Hget, Hsum. done.
Qed.

Lemma frame_totals_east_equals_west_witness :
  dict_get "east" knight_totals = dict_get "west" knight_totals.
Proof.
  apply (frame_totals_east_equals_west "knight" ANIM_MAP_DEFAULT
           knight_manifest0 knight_manifest knight_tree knight_output
           knight_log).
  - exact knight_run.
  - vm_compute. reflexivity.
Defined.

(** ** The states of the manifest *)

Lemma dict_get_elem_of {V} (k : string) (v : V) (d : dict V) :
  NoDup (dict_keys d) → (k, v) ∈ d → dict_get k d = Some v.
Proof.
  induction d as [|[k' v'] d IH]; simpl.
  - intros _ Hin. by apply elem_of_nil in Hin.
  - intros [Hk Hnd]%NoDup_cons [[= <- <-]|Hin]%elem_of_cons.
    + by rewrite String.eqb_refl.
    + destruct (String.eqb_spec k' k) as [->|]; [|by apply IH].
      destruct Hk. apply list_elem_of_fmap. by exists (k, v).
Qed.

Section states_order.
Variables (char_name : string) (anim_src_base anim_dst_base : path).
Hypothesis apart : diverge anim_dst_base anim_src_base.
Variable fs : node.

(** The states whose source animation is a directory of [fs]. *)
Definition present_states (anim_map : list (string * string))
    : list (string * string) :=
  filter (λ item : string * string,
            is_dir (anim_src_base ++ [item.2]) fs = true) anim_map.

Lemma states_loop_keys anim_map :
  ∀ animations0 fs1 animations fs' out,
    changed_under anim_dst_base fs fs1 →
    NoDup (dict_keys animations0 ++ dict_keys anim_map) →
    for_each anim_map
      (process_animations_state char_name anim_src_base anim_dst_base)
      animations0 fs1 = Ok (animations, fs', out) →
    dict_keys animations
    = dict_keys animations0 ++ dict_keys (present_states anim_map).
Proof.
  induction anim_map as [|[g0 n0] rest IH];
    intros animations0 fs1 animations fs' out Hch Hnd Hrun.
  { apply ret_Ok in Hrun as (-> & _). unfold present_states, dict_keys.
    simpl. by rewrite (right_id_L [] (++)). }
  rewrite for_each_cons in Hrun.
  apply bind_Ok in Hrun as (a1 & fs2 & ? & ? & Hstep & Hrun & _).
  destruct (state_step_entry _ _ _ apart _ _ _ _ _ _ _ _ Hch Hstep)
    as [Hch12 Hhead].
  assert (changed_under anim_dst_base fs fs2) as Hch2.
  { eapply changed_under_trans; [done|]. by eapply changed_under_weaken. }
  unfold dict_keys in Hnd. rewrite fmap_cons in Hnd. cbn [fst] in Hnd.
  assert ((g0 ∉ dict_keys animations0)
          ∧ NoDup (dict_keys animations0 ++ dict_keys rest)) as [Hg0 Hnd'].
  { rewrite <-Permutation_middle in Hnd.
    apply NoDup_cons in Hnd as [Hg0 Hnd]. split; [|done].
    intros Hin. apply Hg0. apply elem_of_app. by left. }
  unfold present_states. rewrite filter_cons. cbn [snd].
  destruct (is_dir (anim_src_base ++ [n0]) fs) eqn:Hd.
  - destruct Hhead as [(info & _ & ->) _].
    rewrite decide_True by done.
    apply IH in Hrun; [|done|].
    + rewrite Hrun, dict_keys_set_new by done.
      unfold dict_keys, present_states. rewrite fmap_cons.
      by rewrite <-(assoc_L (++)).
    + rewrite dict_keys_set_new by done. rewrite <-(assoc_L (++)).
      exact Hnd.
  - destruct Hhead as [-> _]. rewrite decide_False by done.
    by apply IH in Hrun.
Qed.
End states_order.



(** * More about the frame copier *)

(** ** When the copier succeeds *)


Section copier_succeeds.
Variables (src dst : path) (mirror : bool).
Hypothesis apart : diverge dst src.


End copier_succeeds.





(** ** Mirroring a directory twice *)

(** X12.  Copying a directory with mirroring on into a new directory, and
    that one with mirroring on into another new directory, leaves there the
    [*.png] entries of the first directory as they were, and both copies
    count the same number of frames. *)
Theorem mirror_copy_twice_restores
    (src_dir mid_dir dst_dir : path) (fs fs1 fs2 : node)
    (n1 n2 : nat) (out1 out2 : list string) :
  diverge mid_dir src_dir → diverge dst_dir mid_dir →
  lookup_path mid_dir fs = None → lookup_path dst_dir fs = None →
  copy_or_mirror_frames src_dir mid_dir true fs = Ok (n1, fs1, out1) →
  copy_or_mirror_frames mid_dir dst_dir true fs1 = Ok (n2, fs2, out2) →
  lookup_path dst_dir fs2 = Some (Dir (png_entries src_dir fs)) ∧ n2 = n1.
Proof.
  intros Hap1 Hap2 Hmid Hdst Hrun1 Hrun2.
  pose proof (copy_or_mirror_frames_fresh _ _ _ Hap1 _ _ _ _ Hmid Hrun1)
    as Hout1.
  pose proof (copy_or_mirror_frames_writes _ _ _ _ _ _ _ Hrun1) as Hch1.
  assert (lookup_path dst_dir fs1 = None) as Hdst1.
  { rewrite (cu_frame _ _ _ Hch1); [done|]. by apply diverge_sym. }
  pose proof (copy_or_mirror_frames_fresh _ _ _ Hap2 _ _ _ _ Hdst1 Hrun2)
    as Hout2.
  apply png_entries_output in Hout1 as Hpng.
  apply (copy_or_mirror_frames_Ok _ _ _ Hap1) in Hrun1 as (-> & _).
  apply (copy_or_mirror_frames_Ok _ _ _ Hap2) in Hrun2 as (-> & _).
  rewrite Hout2, Hpng. split; [|by rewrite map_size_fmap].
  do 2 f_equal. rewrite <-map_fmap_compose.
  rewrite <-(map_fmap_id (png_entries src_dir fs)) at 2.
  apply map_fmap_ext. intros f nd _. apply mirrored_involutive.
Qed.

Definition knight_east_src : path := knight_idle_src ++ ["east"].

Definition knight_flip_dirs : M nat :=
  let* _ := copy_or_mirror_frames knight_east_src
              (knight_idle_src ++ ["flipped"]) true in
  copy_or_mirror_frames (knight_idle_src ++ ["flipped"])
    (knight_idle_src ++ ["restored"]) true.

Lemma mirror_copy_twice_restores_witness :
  lookup_path (knight_idle_src ++ ["restored"])
    (run_tree knight_flip_dirs knight_tree)
  = Some (Dir (png_entries knight_east_src knight_tree)).
Proof.
  refine (proj1 (mirror_copy_twice_restores knight_east_src
            (knight_idle_src ++ ["flipped"]) (knight_idle_src ++ ["restored"])
            knight_tree
            (run_tree (copy_or_mirror_frames knight_east_src
                         (knight_idle_src ++ ["flipped"]) true) knight_tree)
            (run_tree knight_flip_dirs knight_tree) 3 3 [] []
            _ _ _ _ _ _)).
  - split; intros [k Hk]; vm_compute in Hk; discriminate Hk.
  - split; intros [k Hk]; vm_compute in Hk; discriminate Hk.
  - vm_compute. reflexivity.
  - vm_compute. reflexivity.
  - vm_compute. reflexivity.
  - vm_compute. reflexivity.
Defined.

(** * More about the fallback resolver *)

(** X13.  The resolver knows south, west and north only: for these it
    always returns, with a directory or with not-found, and for every other
    direction, east included, it raises [KeyError]. *)
Theorem find_source_dir_KeyError
    (anim_base : path) (target_dir : string) (fs : node) :
  (target_dir ∈ ["south"; "west"; "north"] →
   ∃ r, find_source_dir anim_base target_dir fs = Ok r)
  ∧ (target_dir ∉ ["south"; "west"; "north"] →
     find_source_dir anim_base target_dir fs = Raise KeyError).
Proof.
  unfold find_source_dir. split.
  - intros Hd.
    repeat (apply elem_of_cons in Hd as [->|Hd];
            [cbn [dict_get FALLBACKS String.eqb Ascii.eqb Bool.eqb];
             destruct (first_usable _ _ _); [by eauto|];
             destruct (_ && _); by eauto|]).
    by apply elem_of_nil in Hd.
  - intros Hd. by rewrite dict_get_None.
Qed.

Lemma find_source_dir_KeyError_witness :
  find_source_dir knight_idle_src "east" knight_tree = Raise KeyError.
Proof.
  apply (proj2 (find_source_dir_KeyError knight_idle_src "east" knight_tree)).
  apply (bool_decide_unpack _). vm_compute. exact I.
Defined.

(** * How a run fails *)

(** ** The errors of the tree operations *)






(** ** Computations that never raise [KeyError] *)












(** ** The script's own tables *)















(** ** A character without assets *)











(** * More about the rotations *)

(** The file [process_rotation] copies for a direction: the direction's own
    file when that exists, and otherwise the file of the first name of the
    direction's fallback chain that has one. *)
Definition rotation_source (rot_src : path) (direction : string) (fs : node)
    : option path :=
  if exists_ (rot_src ++ [direction +:+ ".png"]) fs
  then Some (rot_src ++ [direction +:+ ".png"])
  else
    match dict_get direction FALLBACKS with
    | Some chain =>
        (λ fallback, rot_src ++ [fallback +:+ ".png"])
          <$> rotation_fallback rot_src chain fs
    | None => None
    end.

Lemma stable_exists p fs fs' :
  stable_below p fs fs' → exists_ p fs' = exists_ p fs.
Proof. intros H%stable_lookup. unfold exists_. by rewrite H. Qed.

Lemma stable_rotation_source rot_src direction fs fs' :
  stable_below rot_src fs fs' →
  rotation_source rot_src direction fs' = rotation_source rot_src direction fs.
Proof.
  intros Hst. unfold rotation_source.
  rewrite (stable_exists _ _ _ (stable_below_app _ _ _ _ Hst)).
  destruct (exists_ _ fs); [done|].
  destruct (dict_get direction FALLBACKS) as [chain|]; [|done].
  f_equal. unfold rotation_fallback.
  induction chain as [|c chain IH]; [done|]. simpl.
  by rewrite (stable_exists _ _ _ (stable_below_app _ _ _ _ Hst)), IH.
Qed.

Lemma copy2_Ok src dst fs fs' :
  copy2 src dst fs = Ok fs' → is_dir dst fs = false →
  ∃ c, lookup_path src fs = Some (File c)
       ∧ lookup_path dst fs' = Some (File c).
Proof.
  unfold copy2. destruct (lookup_path src fs) as [[c|]|]; try done.
  intros H Hd. rewrite Hd in H. case_decide; [done|].
  exists c. split; [done|]. by eapply write_file_lookup.
Qed.

(** One direction of the rotations: the file copied is the one
    [rotation_source] names; nothing is written when there is none. *)
Lemma process_rotation_direction_Ok rot_src rot_dst direction fs fs' out :
  is_dir (rot_dst ++ [direction +:+ ".png"]) fs = false →
  process_rotation_direction rot_src rot_dst direction fs = Ok (tt, fs', out) →
  changed_under (rot_dst ++ [direction +:+ ".png"]) fs fs'
  ∧ lookup_path (rot_dst ++ [direction +:+ ".png"]) fs'
    = match rotation_source rot_src direction fs with
      | Some src_file => lookup_path src_file fs
      | None => lookup_path (rot_dst ++ [direction +:+ ".png"]) fs
      end.
Proof.
  intros Hdst. unfold process_rotation_direction, rotation_source.
  intros (? & ? & ? & ? & (-> & -> & ->)%ask_Ok & Hrun & _)%bind_Ok.
  destruct (exists_ (rot_src ++ [direction +:+ ".png"]) fs).
  { apply update_Ok in Hrun as [Hcopy _].
    split; [by eapply copy2_changed|].
    destruct (copy2_Ok _ _ _ _ Hcopy Hdst) as (c & -> & ->). done. }
  destruct (dict_get direction FALLBACKS) as [chain|]; [|done].
  apply bind_Ok in Hrun as (alt & ? & ? & ? & (-> & -> & ->)%ask_Ok & Hrun & _).
  destruct (rotation_fallback rot_src chain fs) as [fallback|]; simpl.
  - apply bind_Ok in Hrun as (? & ? & ? & ? & [-> _]%print_Ok
                               & [Hcopy _]%update_Ok & _).
    split; [by eapply copy2_changed|].
    destruct (copy2_Ok _ _ _ _ Hcopy Hdst) as (c & -> & ->). done.
  - apply print_Ok in Hrun as [-> _]. split; [apply changed_under_refl|done].
Qed.

Section rotation_loop.
Variables (rot_src rot_dst : path).
Hypothesis apart : diverge rot_dst rot_src.
(** The tree the rotations are read from. *)
Variable fs : node.

Lemma rotation_loop l :
  ∀ fs1 fs' out,
    NoDup ((λ d, d +:+ ".png") <$> l) →
    stable_below rot_src fs fs1 →
    (∀ d, d ∈ l → lookup_path (rot_dst ++ [d +:+ ".png"]) fs1 = None) →
    for_ l (process_rotation_direction rot_src rot_dst) fs1
    = Ok (tt, fs', out) →
    changed_under rot_dst fs1 fs'
    ∧ (∀ d, d ∈ l →
         lookup_path (rot_dst ++ [d +:+ ".png"]) fs'
         = rotation_source rot_src d fs ≫= λ p, lookup_path p fs)
    ∧ (∀ x, x ∉ (λ d, d +:+ ".png") <$> l →
         lookup_path (rot_dst ++ [x]) fs' = lookup_path (rot_dst ++ [x]) fs1).
Proof.
  induction l as [|d l IH]; intros fs1 fs' out Hnd Hst Hnew Hrun.
  { apply for_nil_Ok in Hrun as [-> ->]. split_and!.
    - apply changed_under_refl.
    - intros d Hd. by apply elem_of_nil in Hd.
    - done. }
  apply for_cons_Ok in Hrun as (fs2 & o1 & o2 & Hstep & Hrest & ->).
  rewrite fmap_cons in Hnd. apply NoDup_cons in Hnd as [Hd Hnd].
  apply process_rotation_direction_Ok in Hstep as [Hch Hfile].
  2:{ unfold is_dir. rewrite Hnew; [done|by left]. }
  assert (stable_below rot_src fs fs2) as Hst2.
  { eapply stable_below_trans; [done|].
    eapply changed_under_stable; [done|]. by apply diverge_app_l. }
  assert (∀ x, x ≠ d +:+ ".png" →
            lookup_path (rot_dst ++ [x]) fs2 = lookup_path (rot_dst ++ [x]) fs1)
    as Hother.
  { intros x Hne. apply (cu_frame _ _ _ Hch). by apply diverge_snoc. }
  destruct (IH fs2 fs' o2 Hnd Hst2) as (Hch' & Hin & Hout); [|done|].
  { intros d' Hd'. rewrite Hother; [apply Hnew; by right|].
    intros Heq. apply Hd. rewrite <-Heq. apply list_elem_of_fmap.
    by exists d'. }
  split_and!.
  - eapply changed_under_trans; [|done].
    by apply (changed_under_weaken _ [d +:+ ".png"]).
  - intros d' [->|Hd']%elem_of_cons; [|by apply Hin].
    rewrite (Hout _ Hd), Hfile, (stable_rotation_source _ _ _ _ Hst).
    destruct (rotation_source rot_src d fs) as [p|] eqn:Hp; simpl.
    + assert (∃ r, p = rot_src ++ r) as [r ->].
      { unfold rotation_source in Hp.
        destruct (exists_ _ fs); [simplify_eq; by eexists|].
        destruct (dict_get d FALLBACKS); [|done].
        destruct (rotation_fallback _ _ _); simplify_eq/=. by eexists. }
      apply Hst.
    + apply Hnew. by left.
  - intros x [Hne Hx]%not_elem_of_cons. rewrite (Hout x Hx). by apply Hother.
Qed.
End rotation_loop.

(** X16.  With a rotations directory in the source tree and no rotations
    output yet, [process_rotation] leaves in the output, for south, west and
    north, a copy of the file [rotation_source] names in the rotations
    directory, and no file when it names none; [east.png] is [west.png] of
    the output flipped left to right, and is missing when that is missing;
    the output directory holds nothing else. *)
Theorem process_rotation_output
    (char_name : string) (manifest manifest' : char_manifest)
    (fs fs' : node) (out : list string) (rot_src : path) :
  let rot_dst := OUT_DIR ++ [char_name; "rotations"] in
  rot_src
  = (if is_dir (SRC_CHARS ++ [char_name; "extracted"; "rotations"]) fs
     then SRC_CHARS ++ [char_name; "extracted"; "rotations"]
     else SRC_CHARS ++ [char_name; "rotations"]) →
  is_dir rot_src fs = true →
  lookup_path rot_dst fs = None →
  process_rotation char_name manifest fs = Ok (manifest', fs', out) →
  (∀ d, d ∈ ["south"; "west"; "north"] →
     lookup_path (rot_dst ++ [d +:+ ".png"]) fs'
     = rotation_source rot_src d fs ≫= λ p, lookup_path p fs)
  ∧ lookup_path (rot_dst ++ ["east.png"]) fs'
    = mirrored <$> lookup_path (rot_dst ++ ["west.png"]) fs'
  ∧ ∀ x, is_Some (lookup_path (rot_dst ++ [x]) fs') →
         x ∈ ["south.png"; "west.png"; "north.png"; "east.png"].
Proof.
  intros rot_dst Hsrc Hdir Hnew. unfold process_rotation.
  intros (? & ? & ? & ? & (-> & -> & ->)%ask_Ok & Hrun & _)%bind_Ok.
  cbv beta zeta in Hrun. unfold path in Hsrc. rewrite <-Hsrc in Hrun.
  apply bind_Ok in Hrun as (? & ? & ? & ? & (-> & -> & ->)%ask_Ok & Hrun & _).
  rewrite Hdir in Hrun. cbn [negb] in Hrun. fold rot_dst in Hrun.
  apply bind_Ok in Hrun as (? & fs1 & ? & ? & [Hmk _]%update_Ok & Hrun & _).
  apply bind_Ok in Hrun as ([] & fs2 & ? & ? & Hloop & Hrun & _).
  apply bind_Ok in Hrun as (west & ? & ? & ? & (-> & -> & ->)%ask_Ok & Hrun & _).
  apply bind_Ok in Hrun as ([] & fs3 & ? & ? & Heast & (_ & -> & _)%ret_Ok & _).
  assert (diverge rot_dst rot_src) as Hap.
  { rewrite Hsrc. destruct (is_dir _ fs); apply diverge_app, out_src_apart. }
  pose proof (mkdir_p_fresh _ _ _ _ Hnew Hmk) as Hempty.
  assert (∀ x, lookup_path (rot_dst ++ [x]) fs1 = None) as Hnone.
  { intros y. by rewrite (lookup_path_snoc _ _ _ _ Hempty), lookup_empty. }
  apply (rotation_loop _ _ Hap fs) in Hloop as (_ & Hin & Hout);
    [|apply (bool_decide_unpack _); by vm_compute
     |eapply changed_under_stable; [by eapply mkdir_p_changed|done]
     |intros d _; apply Hnone].
  assert (lookup_path (rot_dst ++ ["east.png"]) fs2 = None) as Heast2.
  { rewrite Hout; [apply Hnone|].
    apply (bool_decide_unpack _). by vm_compute. }
  assert (∀ x, x ≠ "east.png" →
            lookup_path (rot_dst ++ [x]) fs3 = lookup_path (rot_dst ++ [x]) fs2)
    as Hkeep.
  { intros y Hne. destruct (exists_ (rot_dst ++ ["west.png"]) fs2).
    - apply (cu_frame _ _ _ (mirror_image_writes _ _ _ _ _ _ Heast)).
      by apply diverge_snoc.
    - by apply print_Ok in Heast as [-> _]. }
  split_and!.
  - intros d Hd. rewrite <-(Hin d Hd). apply Hkeep.
    repeat (apply elem_of_cons in Hd as [->|Hd]; [done|]).
    by apply elem_of_nil in Hd.
  - rewrite (Hkeep "west.png") by done.
    destruct (exists_ (rot_dst ++ ["west.png"]) fs2) eqn:Hwest.
    + apply mirror_image_Ok in Heast as (px & Hw & He).
      unfold read_file in Hw, He.
      destruct (lookup_path (rot_dst ++ ["west.png"]) fs2) as [[[]|]|];
        simplify_eq.
      by destruct (lookup_path (rot_dst ++ ["east.png"]) fs3) as [[[]|]|];
        simplify_eq.
    + apply print_Ok in Heast as [-> _]. rewrite Heast2.
      apply bool_decide_eq_false in Hwest.
      by destruct (lookup_path (rot_dst ++ ["west.png"]) fs2);
        [destruct Hwest|].
  - intros y [nd Hx].
    destruct (decide (y ∈ ["south.png"; "west.png"; "north.png"; "east.png"]))
      as [|Hne]; [done|]. exfalso.
    rewrite Hkeep, Hout, Hnone in Hx; [done|..];
      intros Hy; apply Hne;
      first [subst y; apply list_elem_of_In; simpl; tauto
            |apply list_elem_of_In in Hy; apply list_elem_of_In;
             simpl in Hy |- *; tauto].
Qed.

Definition warrior_rot_src : path :=
  SRC_CHARS ++ ["armored-warrior"; "extracted"; "rotations"].

Definition warrior_manifest0 : char_manifest :=
  {| m_character := "armored-warrior"; m_rotations := None;
     m_animations := None; m_frame_totals := None |}.

Definition warrior_rotation : M char_manifest :=
  process_rotation "armored-warrior" warrior_manifest0.

Lemma process_rotation_output_witness :
  lookup_path (OUT_DIR ++ ["armored-warrior"; "rotations"; "east.png"])
    (run_tree warrior_rotation studio_tree)
  = mirrored
      <$> lookup_path (OUT_DIR ++ ["armored-warrior"; "rotations"; "west.png"])
            (run_tree warrior_rotation studio_tree).
Proof.
  refine (proj1 (proj2 (process_rotation_output "armored-warrior"
            warrior_manifest0
            (run_value warrior_rotation studio_tree warrior_manifest0)
            studio_tree (run_tree warrior_rotation studio_tree)
            (run_log warrior_rotation studio_tree) warrior_rot_src
            _ _ _ _))).
  - vm_compute. reflexivity.
  - vm_compute. reflexivity.
  - vm_compute. reflexivity.
  - vm_compute. reflexivity.
Defined.

(** * Frame totals and the frames written *)

Lemma frames_of_output_frames (r : option path * bool) (mirror : bool)
    (frames : nat) (dst_dir : path) (fs fs' : node) :
  output_ok dst_dir (r.1, mirror) fs fs' →
  frames = match r.1 with
           | Some src_dir => size (png_entries src_dir fs)
           | None => 0
           end →
  frames = List.length (glob_png dst_dir fs').
Proof.
  unfold output_ok. cbn [fst snd]. intros Hout ->.
  destruct r.1 as [src_dir|].
  - symmetry. by eapply output_frames.
  - unfold glob_png, png_entries. by rewrite Hout, map_to_list_empty.
Qed.

(** The frames a state of the manifest records for a direction, 0 without
    an entry, are the [*.png] files in the direction's output directory. *)
Lemma process_animations_frames_on_disk
    char_name anim_map manifest manifest' fs fs' out game_state info d :
  NoDup (dict_keys anim_map) →
  lookup_path (OUT_DIR ++ [char_name; "animations"]) fs = None →
  process_animations char_name anim_map manifest fs
  = Ok (manifest', fs', out) →
  dict_get game_state (animations_of manifest') = Some info →
  d ∈ ["south"; "west"; "north"; "east"] →
  frames_of d info
  = List.length
      (glob_png (OUT_DIR ++ [char_name; "animations"; game_state; d]) fs').
Proof.
  intros Hnd Hnew Hrun Hinfo Hd.
  destruct (manifest_entries _ _ _ _ _ _ _ _ _ Hrun Hinfo)
    as (nm & Hin & Hdir & _).
  rewrite anim_src_flat in Hdir.
  destruct (manifest_outputs _ _ _ _ _ _ _ _ _ Hnd Hnew Hrun Hin Hdir)
    as (rs & rw & rn & _ & _ & _ & Hget & Hos & How & Hon & Hoe & _).
  rewrite Hinfo in Hget. injection Hget as ->.
  unfold frames_of. cbn [ai_directions]. rewrite state_directions_lookup.
  unfold east_entry, direction_entry.
  repeat (apply elem_of_cons in Hd as [->|Hd];
          [repeat case_decide; try done|]).
  - eapply (frames_of_output_frames rs rs.2); [by destruct rs|].
    by destruct rs.1.
  - eapply (frames_of_output_frames rw rw.2); [by destruct rw|].
    by destruct rw.1.
  - eapply (frames_of_output_frames rn rn.2); [by destruct rn|].
    by destruct rn.1.
  - eapply (frames_of_output_frames rw (negb rw.2)); [done|].
    by destruct rw.1.
  - by apply elem_of_nil in Hd.
Qed.

Lemma states_loop_NoDup char_name anim_map animations fs fs' out :
  NoDup (dict_keys anim_map) →
  for_each anim_map
    (process_animations_state char_name
       (SRC_CHARS ++ [char_name; "extracted"; "animations"])
       (OUT_DIR ++ [char_name; "animations"])) [] fs
  = Ok (animations, fs', out) →
  NoDup (dict_keys animations).
Proof.
  intros Hnd Hloop.
  apply (states_loop_keys _ _ _ (anim_dirs_apart char_name) fs) in Hloop;
    [|apply changed_under_refl|done].
  rewrite Hloop. cbn [dict_keys fmap list_fmap app].
  eapply sublist_NoDup; [exact Hnd|].
  unfold dict_keys, present_states. apply fmap_sublist, sublist_filter.
Qed.

Lemma sum_list_dict {V} (f : V → nat) (g : string → nat) (d : dict V) :
  (∀ k v, (k, v) ∈ d → f v = g k) →
  sum_list (f <$> dict_values d) = sum_list (g <$> dict_keys d).
Proof.
  unfold dict_values, dict_keys.
  induction d as [|[k v] d IH]; intros Hall; [done|].
  rewrite !fmap_cons. cbn [fst snd sum_list sum_list_with].
  f_equal; [apply Hall; by left|].
  apply IH. intros k' v' Hin. apply Hall. by right.
Qed.

(** X17.  In a run, the frame totals written to a character's manifest
    count the frames the run leaves in the output: the total of a direction
    is the number of [*.png] files in the direction's output directories of
    the states of the manifest. *)
Theorem frame_totals_count_output_frames
    (fs fs' : node) (out : list string)
    (char_name : string) (anim_map : dict string) :
  main fs = Ok (tt, fs', out) →
  (char_name, anim_map) ∈ CHARACTERS →
  ∃ manifest animations total_frames,
    read_file (OUT_DIR ++ [char_name; "manifest.json"]) fs'
    = Ok (Json (manifest_json manifest))
    ∧ m_animations manifest = Some animations
    ∧ m_frame_totals manifest = Some total_frames
    ∧ ∀ d, d ∈ ["south"; "west"; "north"; "east"] →
        dict_get d total_frames
        = Some (sum_list
                  ((λ game_state,
                      List.length
                        (glob_png
                           (OUT_DIR ++ [char_name; "animations";
                                        game_state; d]) fs'))
                     <$> dict_keys animations)).
Proof.
  intros Hrun Hchar.
  destruct (main_Ok _ _ _ _ _ Hrun Hchar)
    as (m0 & fsa & m & fsb & o & Hanim & _ & Hfresh & Hout & Hfile).
  destruct (CHARACTERS_keys _ _ Hchar) as (_ & _ & Hnd).
  assert (∀ gs info d,
            dict_get gs (animations_of m) = Some info →
            d ∈ ["south"; "west"; "north"; "east"] →
            frames_of d info
            = List.length
                (glob_png (OUT_DIR ++ [char_name; "animations"; gs; d]) fsb))
    as Hdisk.
  { intros gs info d Hinfo Hd.
    exact (process_animations_frames_on_disk _ _ _ _ _ _ _ _ _ _
             Hnd Hfresh Hanim Hinfo Hd). }
  apply process_animations_Ok in Hanim
    as (animations & total & o1 & o2 & Hloop & Hcount & -> & _).
  eexists. exists animations, total.
  split_and!; [unfold read_file; by rewrite Hfile|done..|].
  intros d Hd.
  pose proof (states_loop_NoDup _ _ _ _ _ _ Hnd Hloop) as Hkeys.
  unfold count_total_frames in Hcount.
  apply count_total_frames_loop in Hcount as [_ Hget].
  2:{ apply states_loop_directions in Hloop.
      unfold dict_values. apply Forall_fmap.
      by apply (Forall_impl _ _ _ Hloop). }
  rewrite Hget.
  assert (dict_get d [("south", 0); ("west", 0); ("north", 0); ("east", 0)]
          = Some 0) as ->.
  { repeat (apply elem_of_cons in Hd as [->|Hd]; [done|]).
    by apply elem_of_nil in Hd. }
  cbn [fmap option_fmap option_map]. f_equal. cbn [Nat.add].
  assert (∀ gs info, (gs, info) ∈ animations →
            frames_of d info
            = List.length
                (glob_png (OUT_DIR ++ [char_name; "animations"; gs; d]) fs'))
    as Hall.
  { intros gs info Hin.
    rewrite (Hdisk gs info d); [|by apply dict_get_elem_of|done].
    rewrite <-anim_dst_flat.
    by rewrite (stable_glob_png _ _ _ (stable_below_app _ _ _ _ Hout)). }
  by apply sum_list_dict.
Qed.

Lemma frame_totals_count_output_frames_witness :
  ∃ manifest animations total_frames,
    read_file (OUT_DIR ++ ["armored-warrior"; "manifest.json"]) studio_output
    = Ok (Json (manifest_json manifest))
    ∧ m_animations manifest = Some animations
    ∧ m_frame_totals manifest = Some total_frames
    ∧ dict_get "west" total_frames
      = Some (sum_list
                ((λ game_state,
                    List.length
                      (glob_png
                         (OUT_DIR ++ ["armored-warrior"; "animations";
                                      game_state; "west"]) studio_output))
                   <$> dict_keys animations)).
Proof.
  assert ((("armored-warrior", ANIM_MAP_DEFAULT) : string * dict string)
            ∈ CHARACTERS) as Hchar.
  { apply list_elem_of_In. simpl. tauto. }
  assert (("west" : string) ∈ ["south"; "west"; "north"; "east"]) as Hd.
  { apply list_elem_of_In. simpl. tauto. }
  destruct (frame_totals_count_output_frames studio_tree studio_output
              studio_log "armored-warrior" ANIM_MAP_DEFAULT studio_run Hchar)
    as (manifest & animations & total_frames & Hfile & Hanimations & Htotals
        & Hsum).
  exists manifest, animations, total_frames.
  split; [exact Hfile|]. split; [exact Hanimations|]. split; [exact Htotals|].
  exact (Hsum "west" Hd).
Defined.

(** * The final report *)

(** X18.  The final report marks a state as complete, with the check mark
    and [4/4], exactly when the state has an entry for each of the four
    directions. *)
Theorem report_line_full_coverage (state : string) (info : anim_info) :
  report_line state info = "  " +:+ ljust 15 state +:+ " ✅ 4/4" ↔
  ∀ d, d ∈ ["south"; "west"; "north"; "east"] →
       d ∈ dict_keys (ai_directions info).
Proof.
  unfold report_line.
  destruct (filter (λ d, d ∉ dict_keys (ai_directions info))
              ["south"; "west"; "north"; "east"]) as [|x missing] eqn:Hmissing.
  - split; [intros _|done]. intros d Hd.
    destruct (decide (d ∈ dict_keys (ai_directions info))) as [|Hnot];
      [done|].
    assert (d ∈ filter (λ d, d ∉ dict_keys (ai_directions info))
                  ["south"; "west"; "north"; "east"]) as Hin.
    { by apply list_elem_of_filter. }
    rewrite Hmissing in Hin. by apply elem_of_nil in Hin.
  - split.
    + intros Heq. apply String.app_inj, String.app_inj in Heq.
      simpl in Heq. discriminate Heq.
    + intros Hall.
      assert (x ∈ filter (λ d, d ∉ dict_keys (ai_directions info))
                    ["south"; "west"; "north"; "east"]) as Hin.
      { rewrite Hmissing. by left. }
      apply list_elem_of_filter in Hin as [Hnot Hx]. destruct Hnot.
      by apply Hall.
Qed.

Lemma report_line_full_coverage_witness :
  report_line "idle" knight_idle_info
  = "  " +:+ ljust 15 "idle" +:+ " ✅ 4/4".
Proof.
  apply (proj2 (report_line_full_coverage "idle" knight_idle_info)).
  intros d Hd.
  repeat (apply elem_of_cons in Hd as [->|Hd];
          [apply list_elem_of_In; vm_compute; tauto|]).
  by apply elem_of_nil in Hd.
Defined.
